(** * Gandiva [StringParser]: a shallow embedding and its verified properties

    The development follows [cpp/src/gandiva/precompiled/string_parser.h].
    A C++ span [(const char* s, int32_t len)] is a [list ascii]; advancing the
    pointer ([s + i], [len - i]) is [skipn i].  A [ParseResult*] out-parameter
    together with the returned value becomes a returned pair.  Fixed-width
    integers are [Z] with every wrap-around written out; arithmetic in a
    signed type that leaves its range is taken modulo [2^bits], as the
    compiled code does.  The [DCHECK]s of the source are debug assertions and
    are not part of the model.  [int32_t] counters (lengths, digit counts)
    are [Z] or [nat]: they are bounded by the length of the span. *)

From Stdlib Require Import ZArith Ascii String Bool Lia List.
From Stdlib Require Import Floats.SpecFloat.
Import ListNotations.
Open Scope Z_scope.

(** ** Characters and spans *)

Definition span := list ascii.

(** The numeric value of a character.  Every comparison the parser makes is
    against an ASCII constant, so the signedness of [char] does not matter. *)
Definition code (c : ascii) : Z := Z.of_N (N_of_ascii c).

Definition bytes (s : string) : span := list_ascii_of_string s.

Definition b2z (b : bool) : Z := if b then 1 else 0.

Definition is_char (c : ascii) (k : Z) : bool := code c =? k.

Definition is_digit (c : ascii) : bool := (48 <=? code c) && (code c <=? 57).
Definition is_lower (c : ascii) : bool := (97 <=? code c) && (code c <=? 122).
Definition is_upper (c : ascii) : bool := (65 <=? code c) && (code c <=? 90).

Inductive ParseResult : Set :=
| PARSE_SUCCESS
| PARSE_FAILURE
| PARSE_OVERFLOW
| PARSE_UNDERFLOW.

Definition ParseResult_eqb (a b : ParseResult) : bool :=
  match a, b with
  | PARSE_SUCCESS, PARSE_SUCCESS
  | PARSE_FAILURE, PARSE_FAILURE
  | PARSE_OVERFLOW, PARSE_OVERFLOW
  | PARSE_UNDERFLOW, PARSE_UNDERFLOW => true
  | _, _ => false
  end.

(** ** Whitespace primitives *)

Definition IsWhitespace (c : ascii) : bool :=
  is_char c 32 ||
  (is_char c 9 || is_char c 10 || is_char c 11 || is_char c 12 || is_char c 13).

Fixpoint SkipLeadingWhitespace (s : span) : nat :=
  match s with
  | c :: rest => if IsWhitespace c then S (SkipLeadingWhitespace rest) else O
  | [] => O
  end.

Fixpoint IsAllWhitespace (s : span) : bool :=
  match s with
  | c :: rest => if negb (IsWhitespace c) then false else IsAllWhitespace rest
  | [] => true
  end.

(** ** Signed integer types [T] and their unsigned counterparts *)

Inductive IntWidth : Set := Int8 | Int16 | Int32 | Int64.

Definition bits (w : IntWidth) : Z :=
  match w with Int8 => 8 | Int16 => 16 | Int32 => 32 | Int64 => 64 end.

(** [StringParseTraits<T>::max_ascii_len()] *)
Definition max_ascii_len (w : IntWidth) : Z :=
  match w with Int8 => 3 | Int16 => 5 | Int32 => 10 | Int64 => 19 end.

(** Conversion to a two's complement signed integer of [n] bits. *)
Definition wrap_signed (n x : Z) : Z :=
  let r := x mod 2 ^ n in
  if r <? 2 ^ (n - 1) then r else r - 2 ^ n.

(** Conversion to [UnsignedT]. *)
Definition to_unsigned (w : IntWidth) (x : Z) : Z := x mod 2 ^ bits w.

(** Conversion to [T] ([static_cast<T>]). *)
Definition to_signed (w : IntWidth) (x : Z) : Z := wrap_signed (bits w) x.

(** [std::numeric_limits<T>::max()] and [min()] *)
Definition numeric_max (w : IntWidth) : Z := 2 ^ (bits w - 1) - 1.
Definition numeric_min (w : IntWidth) : Z := - 2 ^ (bits w - 1).

(** [T] narrower than [int] is promoted to [int] in arithmetic. *)
Definition promoted (w : IntWidth) : bool := bits w <? 32.

(** The value of [max_div - (digit > max_mod)]: computed in [int] when [T] is
    promoted, in [T] otherwise. *)
Definition overflow_bound (w : IntWidth) (max_div max_mod digit : Z) : Z :=
  let e := max_div - b2z (digit >? max_mod) in
  if promoted w then e else to_signed w e.

(** [val > bound] with [val] of type [UnsignedT] and [bound] as above: both
    sides are [int] when [T] is promoted, otherwise the bound is converted to
    [UnsignedT]. *)
Definition exceeds (w : IntWidth) (val bound : Z) : bool :=
  if promoted w then val >? bound else val >? to_unsigned w bound.

(** [static_cast<T>(negative ? -x : x)] for [x] of type [UnsignedT] *)
Definition signed_result (w : IntWidth) (negative : bool) (x : Z) : Z :=
  to_signed w (if negative then - x else x).

(** The [switch] on the first character: is it a minus sign, and how many
    characters does the sign take. *)
Definition is_minus (c : ascii) : bool := is_char c 45.
Definition is_plus (c : ascii) : bool := is_char c 43.
Definition sign_len (c : ascii) : nat :=
  if is_minus c || is_plus c then 1%nat else 0%nat.

(** [max_val]: [numeric_limits<T>::max()], plus one for a negative number. *)
Definition max_val_of (w : IntWidth) (negative : bool) : Z :=
  if negative then to_unsigned w (numeric_max w + 1) else numeric_max w.

(** ** Integer parser *)

(** The loop of [StringToIntNoOverflow], from index 1 on. *)
Fixpoint NoOverflow_loop (w : IntWidth) (val : Z) (s : span) : Z * ParseResult :=
  match s with
  | [] => (val, PARSE_SUCCESS)
  | c :: rest =>
      if is_digit c then
        let digit := code c - 48 in
        NoOverflow_loop w (to_unsigned w (val * 10 + digit)) rest
      else if negb (IsAllWhitespace s) then (0, PARSE_FAILURE)
      else (val, PARSE_SUCCESS)
  end.

(** [StringToIntNoOverflow<UnsignedT>] *)
Definition StringToIntNoOverflow (w : IntWidth) (s : span) : Z * ParseResult :=
  match s with
  | [] => (0, PARSE_SUCCESS)
  | c :: rest =>
      if is_digit c then NoOverflow_loop w (code c - 48) rest
      else (0, PARSE_FAILURE)
  end.

(** The checked loop of [StringToIntInternal<T>(s, len, result)];
    [at_first] is [i == first]. *)
Fixpoint Int_loop (w : IntWidth) (negative : bool) (max_val max_div_10 max_mod_10 : Z)
    (at_first : bool) (val : Z) (s : span) : Z * ParseResult :=
  match s with
  | [] => (signed_result w negative val, PARSE_SUCCESS)
  | c :: rest =>
      if is_digit c then
        let digit := code c - 48 in
        if exceeds w val (overflow_bound w max_div_10 max_mod_10 digit) then
          (signed_result w negative max_val, PARSE_OVERFLOW)
        else
          Int_loop w negative max_val max_div_10 max_mod_10 false
            (to_unsigned w (val * 10 + digit)) rest
      else if at_first || negb (IsAllWhitespace s) then (0, PARSE_FAILURE)
      else (signed_result w negative val, PARSE_SUCCESS)
  end.

(** [StringToIntInternal<T>(s, len, result)] *)
Definition StringToIntInternal (w : IntWidth) (s : span) : Z * ParseResult :=
  match s with
  | [] => (0, PARSE_FAILURE)
  | c :: _ =>
      let negative := is_minus c in
      let max_val := max_val_of w negative in
      let i := sign_len c in
      if Z.of_nat (length s) - Z.of_nat i <? max_ascii_len w then
        let '(val, result) := StringToIntNoOverflow w (skipn i s) in
        (signed_result w negative val, result)
      else
        let max_div_10 := to_signed w (max_val / 10) in
        let max_mod_10 := to_signed w (max_val mod 10) in
        Int_loop w negative max_val max_div_10 max_mod_10 true 0 (skipn i s)
  end.

(** [StringToInt<T>(s, len, result)]: one retry after skipping leading
    whitespace. *)
Definition StringToInt (w : IntWidth) (s : span) : Z * ParseResult :=
  let '(ans, result) := StringToIntInternal w s in
  if ParseResult_eqb result PARSE_SUCCESS then (ans, result)
  else StringToIntInternal w (skipn (SkipLeadingWhitespace s) s).

(** *** Parsing in a given base *)

(** The [int32_t base] as it enters [max_val / base], [max_val % base] and
    [val * base]: [int] against a promoted [UnsignedT], converted to
    [UnsignedT] otherwise. *)
Definition converted_base (w : IntWidth) (base : Z) : Z :=
  if promoted w then base else to_unsigned w base.

(** The digit value of an alphanumeric character, [None] for any other. *)
Definition digit_value (c : ascii) : option Z :=
  if is_digit c then Some (code c - 48)
  else if is_lower c then Some (code c - 97 + 10)
  else if is_upper c then Some (code c - 65 + 10)
  else None.

(** The loop of [StringToIntInternal<T>(s, len, base, result)]. *)
Fixpoint Base_loop (w : IntWidth) (base : Z) (negative : bool)
    (max_val max_div_base max_mod_base : Z)
    (at_first : bool) (val : Z) (s : span) : Z * ParseResult :=
  match s with
  | [] => (signed_result w negative val, PARSE_SUCCESS)
  | c :: rest =>
      match digit_value c with
      | None =>
          if at_first || negb (IsAllWhitespace s) then (0, PARSE_FAILURE)
          else (signed_result w negative val, PARSE_SUCCESS)
      | Some digit =>
          if digit >=? base then (signed_result w negative val, PARSE_SUCCESS)
          else if exceeds w val (overflow_bound w max_div_base max_mod_base digit) then
            (signed_result w negative max_val, PARSE_OVERFLOW)
          else
            Base_loop w base negative max_val max_div_base max_mod_base false
              (to_unsigned w (val * base + digit)) rest
      end
  end.

(** [StringToIntInternal<T>(s, len, base, result)].  The divisions
    [max_val / base] and [max_val % base] are not defined for a zero divisor:
    the model returns [None] there. *)
Definition StringToIntInternalBase (w : IntWidth) (s : span) (base : Z)
  : option (Z * ParseResult) :=
  match s with
  | [] => Some (0, PARSE_FAILURE)
  | c :: _ =>
      let negative := is_minus c in
      let max_val := max_val_of w negative in
      let i := sign_len c in
      let b := converted_base w base in
      if b =? 0 then None
      else
        let max_div_base := to_signed w (Z.quot max_val b) in
        let max_mod_base := to_signed w (Z.rem max_val b) in
        Some (Base_loop w base negative max_val max_div_base max_mod_base
                true 0 (skipn i s))
  end.

(** [StringToInt<T>(s, len, base, result)] *)
Definition StringToIntBase (w : IntWidth) (s : span) (base : Z)
  : option (Z * ParseResult) :=
  match StringToIntInternalBase w s base with
  | None => None
  | Some (ans, result) =>
      if ParseResult_eqb result PARSE_SUCCESS then Some (ans, result)
      else StringToIntInternalBase w (skipn (SkipLeadingWhitespace s) s) base
  end.

(** ** Decimal literals of integers *)

Definition digit_char (d : Z) : ascii := ascii_of_N (Z.to_N (48 + d)).

(** The decimal digits of a positive number, most significant first; the
    empty list for zero. *)
Fixpoint digits_fuel (fuel : nat) (n : Z) : span :=
  match fuel with
  | O => []
  | S f => if n <=? 0 then [] else digits_fuel f (n / 10) ++ [digit_char (n mod 10)]
  end.

Definition digits (n : Z) : span := digits_fuel (S (Z.to_nat (Z.log2 n))) n.

Definition natural_literal (n : Z) : span :=
  if n =? 0 then [digit_char 0] else digits n.

Definition int_literal (v : Z) : span :=
  (if v <? 0 then bytes "-" else []) ++ natural_literal (Z.abs v).

(** ** Decimal parser *)

(** The storage type [T] of [DecimalValue<T>]: a signed integer of 32, 64 or
    128 bits.  [DecimalValue<T>] only wraps such an integer, so the model
    returns the integer itself. *)
Inductive DecWidth : Set := Dec32 | Dec64 | Dec128.

Definition dbits (T : DecWidth) : Z :=
  match T with Dec32 => 32 | Dec64 => 64 | Dec128 => 128 end.

(** A result of arithmetic in [T], brought back into the range of [T]. *)
Definition castT (T : DecWidth) (x : Z) : Z := wrap_signed (dbits T) x.

(** Modelled from the spec: [DecimalUtil::GetScaleMultiplier<T>], declared in
    [gandiva/precompiled/decimal_util.h], which is not among the sources.  The
    spec uses it as the power of ten ([10^shift], [10^(type_scale - scale)],
    the top-of-range multiplier [10^type_precision]), here as a value of [T]. *)
Definition GetScaleMultiplier (T : DecWidth) (n : Z) : Z := castT T (10 ^ n).

(** Modelled from the spec: [DecimalUtil::ScaleDownAndRound<T>], declared in
    [gandiva/precompiled/decimal_util.h], which is not among the sources.  The
    spec: scale the value down by [10^shift] with explicit round-half-up or
    pure truncation per [round]. *)
Definition ScaleDownAndRound (T : DecWidth) (value shift : Z) (round : bool) : Z :=
  let divisor := GetScaleMultiplier T shift in
  let result := Z.quot value divisor in
  if round && (divisor <=? 2 * Z.abs (Z.rem value divisor))
  then castT T (result + Z.sgn value)
  else result.

(** The local variables of [StringToDecimal] that live across its scan. *)
Record DecimalScan : Set := mkScan {
  found_value : bool;
  found_dot : Z;
  digits_after_dot_count : Z;
  total_digits_count : Z;
  found_exponent : bool;
  exponent : Z;
  first_truncated_digit : Z;
  value : Z
}.

(** The two loops that ignore leading and trailing spaces. *)
Fixpoint drop_leading_whitespace (s : span) : span :=
  match s with
  | c :: rest => if IsWhitespace c then drop_leading_whitespace rest else s
  | [] => []
  end.

Definition drop_trailing_whitespace (s : span) : span :=
  rev (drop_leading_whitespace (rev s)).

(** The sign [switch]: [is_negative] and the span after the sign. *)
Definition decimal_sign (s : span) : bool * span :=
  match s with
  | c :: rest =>
      if is_minus c then (true, rest)
      else if is_plus c then (false, rest)
      else (false, s)
  | [] => (false, [])
  end.

(** A loop that ignores leading zeros: how many, and the span after them. *)
Fixpoint skip_zeros (s : span) : Z * span :=
  match s with
  | c :: rest =>
      if is_char c 48 then let '(n, r) := skip_zeros rest in (n + 1, r)
      else (0, s)
  | [] => (0, [])
  end.

(** The state at the start of the main loop, and the span it runs over. *)
Definition decimal_prefix (s : span) : DecimalScan * span :=
  let '(zeros, s1) := skip_zeros s in
  let found_value0 := 0 <? zeros in
  match s1 with
  | c :: rest =>
      if is_char c 46 then
        let '(zeros_after_dot, s2) := skip_zeros rest in
        (mkScan (found_value0 || (0 <? zeros_after_dot)) 1 zeros_after_dot 0 false 0 0 0, s2)
      else (mkScan found_value0 0 0 0 false 0 0 0, s1)
  | [] => (mkScan found_value0 0 0 0 false 0 0 0, s1)
  end.

(** The body of the main loop for a digit [c]: the digit is accumulated
    while fewer than [type_precision] digits have been counted; the first
    digit beyond the limit is remembered when rounding. *)
Definition accumulate_digit (T : DecWidth) (type_precision : Z) (round : bool)
    (st : DecimalScan) (c : ascii) : DecimalScan :=
  let value1 :=
    if total_digits_count st <? type_precision
    then castT T (value st * 10 + (code c - 48))
    else value st in
  let first_truncated_digit1 :=
    if total_digits_count st <? type_precision then first_truncated_digit st
    else if round && (total_digits_count st =? type_precision)
         then code c - 48
         else first_truncated_digit st in
  mkScan true (found_dot st)
         (digits_after_dot_count st + found_dot st)
         (total_digits_count st + 1)
         (found_exponent st) (exponent st)
         first_truncated_digit1 value1.

(** The main loop.  [inl] is the state when the loop is left (at the end of
    the span or by the [break] after an exponent), [inr] an early [return]. *)
Fixpoint decimal_loop (T : DecWidth) (type_precision : Z) (round : bool)
    (s : span) (st : DecimalScan) : DecimalScan + Z * ParseResult :=
  match s with
  | [] => inl st
  | c :: rest =>
      if is_digit c then
        decimal_loop T type_precision round rest
          (accumulate_digit T type_precision round st c)
      else if is_char c 46 && (found_dot st =? 0) then
        decimal_loop T type_precision round rest
          (mkScan (found_value st) 1 (digits_after_dot_count st)
                  (total_digits_count st) (found_exponent st) (exponent st)
                  (first_truncated_digit st) (value st))
      else if (is_char c 101 || is_char c 69) && negb (found_exponent st) then
        let '(e, result) := StringToIntInternal Int8 rest in
        if negb (ParseResult_eqb result PARSE_SUCCESS) then
          if ParseResult_eqb result PARSE_OVERFLOW && (e <? 0)
          then inr (0, PARSE_UNDERFLOW)
          else inr (0, result)
        else
          inl (mkScan (found_value st) (found_dot st) (digits_after_dot_count st)
                      (total_digits_count st) true e
                      (first_truncated_digit st) (value st))
      else inr (0, PARSE_FAILURE)
  end.

(** Everything up to the end of the main loop. *)
Definition decimal_scan (T : DecWidth) (s : span) (type_precision : Z) (round : bool)
  : bool * DecimalScan + Z * ParseResult :=
  let s1 := drop_trailing_whitespace (drop_leading_whitespace s) in
  let '(is_negative, s2) := decimal_sign s1 in
  let '(st0, s3) := decimal_prefix s2 in
  match decimal_loop T type_precision round s3 st0 with
  | inl st => inl (is_negative, st)
  | inr early => inr early
  end.

(** [ApplyExponent]: the value, the precision and the scale. *)
Definition ApplyExponent (T : DecWidth)
    (total_digits_count digits_after_dot_count exponent value : Z) : Z * Z * Z :=
  if exponent >? digits_after_dot_count then
    (castT T (value * GetScaleMultiplier T (exponent - digits_after_dot_count)),
     total_digits_count + (exponent - digits_after_dot_count),
     0)
  else
    let precision := total_digits_count in
    let scale := digits_after_dot_count - exponent in
    (value, (if precision <? scale then scale else precision), scale).

(** The classification against the type, on the outcome of [ApplyExponent]:
    the magnitude and the status. *)
Definition decimal_classify (T : DecWidth) (type_precision type_scale : Z) (round : bool)
    (st : DecimalScan) (truncated_digit_count value precision scale : Z)
  : Z * ParseResult :=
  if precision - scale >? type_precision - type_scale then (value, PARSE_OVERFLOW)
  else if scale >? type_scale then
    let value_scale := scale - truncated_digit_count in
    let shift := value_scale - type_scale in
    if shift >? 0 then (ScaleDownAndRound T value shift round, PARSE_UNDERFLOW)
    else
      let value1 := castT T (value + b2z (first_truncated_digit st >=? 5)) in
      if value1 =? GetScaleMultiplier T type_precision
      then (value1, PARSE_OVERFLOW)
      else (value1, PARSE_UNDERFLOW)
  else if negb (found_value st) && (found_dot st =? 0) then (value, PARSE_FAILURE)
  else if type_scale >? scale then
    (castT T (value * GetScaleMultiplier T (type_scale - scale)), PARSE_SUCCESS)
  else (value, PARSE_SUCCESS).

(** The part of [StringToDecimal] after the main loop. *)
Definition decimal_finish (T : DecWidth) (type_precision type_scale : Z) (round : bool)
    (is_negative : bool) (st : DecimalScan) : Z * ParseResult :=
  let truncated_digit_count := Z.max (total_digits_count st - type_precision) 0 in
  let '(value0, precision, scale) :=
    ApplyExponent T (total_digits_count st) (digits_after_dot_count st)
                  (exponent st) (value st) in
  let '(value1, result) :=
    decimal_classify T type_precision type_scale round st
                     truncated_digit_count value0 precision scale in
  (castT T (if is_negative then - value1 else value1), result).

(** [StringToDecimal<T>] *)
Definition StringToDecimal (T : DecWidth) (s : span)
    (type_precision type_scale : Z) (round : bool) : Z * ParseResult :=
  match decimal_scan T s type_precision round with
  | inl (is_negative, st) =>
      decimal_finish T type_precision type_scale round is_negative st
  | inr early => early
  end.

(** ** Floating-point parser *)

(** IEEE 754 values are [spec_float]; [double] is binary64, and the target
    type [T] is [float] (binary32) or [double]. *)
Inductive FloatWidth : Set := Float32 | Float64.

Definition double_add : spec_float -> spec_float -> spec_float := SFadd 53 1024.
Definition double_sub : spec_float -> spec_float -> spec_float := SFsub 53 1024.
Definition double_mul : spec_float -> spec_float -> spec_float := SFmul 53 1024.
Definition double_div : spec_float -> spec_float -> spec_float := SFdiv 53 1024.

(** Conversion of an integer to [double]. *)
Definition double_of_Z (z : Z) : spec_float := binary_normalize 53 1024 z 0 false.

Definition infinity : spec_float := S754_infinity false.
Definition quiet_NaN : spec_float := S754_nan.

(** The cast [(T)x] of a [double]. *)
Definition castF (T : FloatWidth) (x : spec_float) : spec_float :=
  match T with
  | Float64 => x
  | Float32 =>
      match x with
      | S754_finite s m e => binary_normalize 24 128 (cond_Zopp s (Zpos m)) e s
      | _ => x
      end
  end.

(** [std::numeric_limits<T>::infinity()] compared with a [double] is
    converted to [double]: it is the infinity of [double] for both types. *)
Definition equals_infinity (T : FloatWidth) (val : spec_float) : bool :=
  SFeqb val infinity.

Definition to_lower (c : ascii) : Z :=
  if is_upper c then code c + 32 else code c.

(** [strncasecmp(s, word, n) == 0] for a span of at least [n] characters and
    a lower-case [word] of [n] letters. *)
Fixpoint matches_ignoring_case (word : list Z) (s : span) : bool :=
  match word, s with
  | [], _ => true
  | k :: word', c :: rest => (to_lower c =? k) && matches_ignoring_case word' rest
  | _ :: _, [] => false
  end.

Definition IsInfinity (s : span) : bool :=
  if (3 <=? Z.of_nat (length s)) && matches_ignoring_case [105; 110; 102] s then
    let i :=
      if (8 <=? Z.of_nat (length s))
         && matches_ignoring_case [105; 110; 105; 116; 121] (skipn 3 s)
      then 8%nat else 3%nat in
    IsAllWhitespace (skipn i s)
  else false.

Definition IsNaN (s : span) : bool :=
  (3 <=? Z.of_nat (length s)) && matches_ignoring_case [110; 97; 110] s
  && IsAllWhitespace (skipn 3 s).

(** The local variables of the accumulation loop. *)
Record FloatScan : Set := mkFloatScan {
  val : spec_float;
  divide : spec_float;
  decimal : bool;
  remainder : Z;
  sig_figs : Z
}.

(** The accumulation loop.  [inl] carries the state and the span from index
    [i] on when the loop is left, [inr] is the early [return 0] with
    [PARSE_FAILURE]. *)
Fixpoint Float_loop (at_first : bool) (s : span) (st : FloatScan)
  : FloatScan * span + unit :=
  match s with
  | [] => inl (st, [])
  | c :: rest =>
      if is_digit c then
        let sig_figs1 :=
          if negb (is_char c 48) || (sig_figs st >? 0)
          then sig_figs st + 1 else sig_figs st in
        if decimal st then
          if sig_figs1 <=? 18 then
            Float_loop false rest
              (mkFloatScan (val st) (double_mul (divide st) (double_of_Z 10)) true
                 (wrap_signed 64 (remainder st * 10 + code c - 48)) sig_figs1)
          else
            Float_loop false rest
              (mkFloatScan (val st) (divide st) true (remainder st) sig_figs1)
        else
          Float_loop false rest
            (mkFloatScan
               (double_sub
                  (double_add (double_mul (val st) (double_of_Z 10))
                              (double_of_Z (code c)))
                  (double_of_Z 48))
               (divide st) false (remainder st) sig_figs1)
      else if negb (decimal st) && is_char c 46 then
        Float_loop false rest
          (mkFloatScan (val st) (divide st) true (remainder st) (sig_figs st))
      else if is_char c 101 || is_char c 69 then inl (st, s)
      else if at_first || negb (IsAllWhitespace s) then inr tt
      else inl (st, s)
  end.

Definition at_exponent_marker (s : span) : bool :=
  match s with
  | c :: _ => is_char c 101 || is_char c 69
  | [] => false
  end.

Section Float.

(** The C library's [strtod], on the characters of the buffer [c_str]: the
    converted value and the number of characters it consumed. *)
Variable strtod : span -> spec_float * nat.

(** [StringToFloatInternal<T>] *)
Definition StringToFloatInternal (T : FloatWidth) (s : span)
  : spec_float * ParseResult :=
  match s with
  | [] => (S754_zero false, PARSE_FAILURE)
  | c :: _ =>
      let negative := is_minus c in
      let i := sign_len c in
      if IsInfinity (skipn i s) then
        (castF T (if negative then SFopp infinity else infinity), PARSE_SUCCESS)
      else if IsNaN (skipn i s) then
        (castF T (if negative then SFopp quiet_NaN else quiet_NaN), PARSE_SUCCESS)
      else
        match Float_loop true (skipn i s)
                (mkFloatScan (S754_zero false) (double_of_Z 1) false 0 0) with
        | inr _ => (S754_zero false, PARSE_FAILURE)
        | inl (st, remaining) =>
            let val1 :=
              double_add (val st)
                         (double_div (double_of_Z (remainder st)) (divide st)) in
            let finish (v : spec_float) :=
              (castF T (if negative then SFopp v else v),
               if equals_infinity T v then PARSE_OVERFLOW else PARSE_SUCCESS) in
            if at_exponent_marker remaining then
              let c_str := skipn (if negative then 1%nat else 0%nat) s in
              let '(val2, consumed) := strtod c_str in
              if negb (Nat.eqb consumed (length c_str))
                 && negb (IsAllWhitespace (skipn consumed c_str))
              then (castF T val2, PARSE_FAILURE)
              else finish val2
            else finish val1
        end
  end.

(** [StringToFloat<T>] *)
Definition StringToFloat (T : FloatWidth) (s : span) : spec_float * ParseResult :=
  let '(ans, result) := StringToFloatInternal T s in
  if ParseResult_eqb result PARSE_SUCCESS then (ans, result)
  else StringToFloatInternal T (skipn (SkipLeadingWhitespace s) s).

End Float.

(** ** Boolean parser *)

(** The character [s[i]]; the parser reads it only below the length it has
    checked. *)
Definition char_at (s : span) (i : nat) : ascii := nth i s zero.

(** [s[i] == lower || s[i] == upper] *)
Definition is_letter (s : span) (i : nat) (lower upper : Z) : bool :=
  is_char (char_at s i) lower || is_char (char_at s i) upper.

(** [StringToBoolInternal] *)
Definition StringToBoolInternal (s : span) : bool * ParseResult :=
  let len := Z.of_nat (length s) in
  if (4 <=? len) && is_letter s 0 116 84 then
    let matched :=
      is_letter s 1 114 82 && is_letter s 2 117 85 && is_letter s 3 101 69 in
    if matched && IsAllWhitespace (skipn 4 s) then (true, PARSE_SUCCESS)
    else (false, PARSE_FAILURE)
  else if (5 <=? len) && is_letter s 0 102 70 then
    let matched :=
      is_letter s 1 97 65 && is_letter s 2 108 76
      && is_letter s 3 115 83 && is_letter s 4 101 69 in
    if matched && IsAllWhitespace (skipn 5 s) then (false, PARSE_SUCCESS)
    else (false, PARSE_FAILURE)
  else (false, PARSE_FAILURE).

(** [StringToBool] *)
Definition StringToBool (s : span) : bool * ParseResult :=
  let '(ans, result) := StringToBoolInternal s in
  if ParseResult_eqb result PARSE_SUCCESS then (ans, result)
  else StringToBoolInternal (skipn (SkipLeadingWhitespace s) s).

(** ** Notions used in the statements *)

(** An alphanumeric character that is a digit of the given base. *)
Definition valid_in_base (base : Z) (c : ascii) : bool :=
  match digit_value c with
  | Some d => d <? base
  | None => false
  end.

Definition is_alnum (c : ascii) : bool :=
  match digit_value c with
  | Some _ => true
  | None => false
  end.

(** The optional sign in front of a number. *)
Definition is_sign_prefix (sign : span) : Prop :=
  sign = [] \/ sign = bytes "+" \/ sign = bytes "-".

(** The value of a string of decimal digits. *)
Definition digits_value (ds : span) : Z :=
  fold_left (fun acc c => acc * 10 + (code c - 48)) ds 0.

(** Modelled from the spec: the fractional part of the canonical rendering
    below, exactly [scale] digits, padded with zeros on the left. *)
Definition fraction_digits (scale m : Z) : span :=
  repeat (digit_char 0) (Z.to_nat scale - length (digits m)) ++ digits m.

(** Modelled from the spec: the canonical rendering of a magnitude, the
    integer part without leading zeros (a single zero when it is zero) and,
    for a positive scale, a dot followed by exactly [scale] digits. *)
Definition render_magnitude (m scale : Z) : span :=
  natural_literal (m / 10 ^ scale)
  ++ (if 0 <? scale then bytes "." ++ fraction_digits scale (m mod 10 ^ scale) else []).

(** Modelled from the spec: the canonical textual rendering of a decimal
    value, for which the sources hold no function.  The spec: the value
    formatted with exactly [scale] fractional digits.  A negative value
    starts with a minus sign. *)
Definition render_decimal (v scale : Z) : span :=
  (if v <? 0 then bytes "-" else []) ++ render_magnitude (Z.abs v) scale.

(** The body of a decimal literal before its exponent: digits and dots. *)
Definition digit_or_dot (c : ascii) : bool := is_digit c || is_char c 46.

Definition dots (s : span) : Z :=
  Z.of_nat (length (filter (fun c => is_char c 46) s)).

Definition is_exponent_marker (c : ascii) : bool := is_char c 101 || is_char c 69.

(** The outcome of [StringToDecimal] when the exponent after the marker did
    not parse with [PARSE_SUCCESS]. *)
Definition exponent_failure (e : Z) (result : ParseResult) : Z * ParseResult :=
  (0, if ParseResult_eqb result PARSE_OVERFLOW && (e <? 0)
      then PARSE_UNDERFLOW else result).

(** What the scan maintains when the type can hold [type_precision] digits:
    the accumulator holds the digits counted up to the precision limit. *)
Definition scan_inv (type_precision : Z) (st : DecimalScan) : Prop :=
  0 <= total_digits_count st /\
  0 <= digits_after_dot_count st /\
  0 <= value st < 10 ^ Z.min (total_digits_count st) type_precision /\
  (found_dot st = 0 \/ found_dot st = 1).

(** Is the sign prefix a minus sign. *)
Definition sign_is_minus (sign : span) : bool :=
  match sign with
  | c :: _ => is_minus c
  | [] => false
  end.

(** [StringToIntInternal] with its fast path taken out: the checked loop on
    every input.  It is what the fast path is compared with. *)
Definition StringToIntInternal_checked (w : IntWidth) (s : span) : Z * ParseResult :=
  match s with
  | [] => (0, PARSE_FAILURE)
  | c :: _ =>
      let negative := is_minus c in
      let max_val := max_val_of w negative in
      Int_loop w negative max_val
               (to_signed w (max_val / 10)) (to_signed w (max_val mod 10))
               true 0 (skipn (sign_len c) s)
  end.

(** The value of a string of digits of a base. *)
Definition base_value (base : Z) (ds : span) : Z :=
  fold_left (fun acc c => acc * base + match digit_value c with
                                        | Some d => d
                                        | None => 0
                                        end) ds 0.

(** What an integer parse returns for a magnitude [m] behind a sign: the
    signed value when it fits the type, the nearest bound otherwise. *)
Definition clamped (w : IntWidth) (negative : bool) (m : Z) : Z * ParseResult :=
  if m <=? max_val_of w negative
  then ((if negative then - m else m), PARSE_SUCCESS)
  else ((if negative then numeric_min w else numeric_max w), PARSE_OVERFLOW).

(** A span that spells a lower-case word up to the case of its letters,
    between leading and trailing whitespace. *)
Definition spells (word : list Z) (s : span) : Prop :=
  exists lead letters trail,
    s = lead ++ letters ++ trail /\
    IsAllWhitespace lead = true /\ IsAllWhitespace trail = true /\
    map to_lower letters = word.

(** * Properties *)

(** ** Characters *)

Ltac bool_to_prop :=
  repeat match goal with
  | H : _ && _ = true |- _ => apply andb_true_iff in H; destruct H
  | H : _ && _ = false |- _ => apply andb_false_iff in H
  | H : _ || _ = true |- _ => apply orb_true_iff in H
  | H : _ || _ = false |- _ => apply orb_false_iff in H; destruct H
  | H : negb _ = true |- _ => apply negb_true_iff in H
  | H : negb _ = false |- _ => apply negb_false_iff in H
  | H : (_ <=? _) = true |- _ => apply Z.leb_le in H
  | H : (_ <=? _) = false |- _ => apply Z.leb_gt in H
  | H : (_ <? _) = true |- _ => apply Z.ltb_lt in H
  | H : (_ <? _) = false |- _ => apply Z.ltb_ge in H
  | H : (_ =? _) = true |- _ => apply Z.eqb_eq in H
  | H : (_ =? _) = false |- _ => apply Z.eqb_neq in H
  | H : (_ >? _) = true |- _ => rewrite Z.gtb_ltb in H
  | H : (_ >? _) = false |- _ => rewrite Z.gtb_ltb in H
  | H : (_ >=? _) = true |- _ => rewrite Z.geb_leb in H
  | H : (_ >=? _) = false |- _ => rewrite Z.geb_leb in H
  end.

Lemma alnum_not_sign : forall c d,
  digit_value c = Some d -> is_minus c = false /\ is_plus c = false.
Proof.
  unfold digit_value, is_digit, is_lower, is_upper, is_minus, is_plus, is_char.
  intros c d H.
  destruct (_ && _) eqn:E1 in H;
    [bool_to_prop; split; apply Z.eqb_neq; lia|].
  destruct (_ && _) eqn:E2 in H;
    [bool_to_prop; split; apply Z.eqb_neq; lia|].
  destruct (_ && _) eqn:E3 in H;
    [bool_to_prop; split; apply Z.eqb_neq; lia|].
  discriminate.
Qed.

Lemma alnum_not_whitespace : forall c d,
  digit_value c = Some d -> IsWhitespace c = false.
Proof.
  unfold digit_value, is_digit, is_lower, is_upper, IsWhitespace, is_char.
  intros c d H.
  assert (48 <= code c) as Hc.
  { destruct (_ && _) eqn:E1 in H; [bool_to_prop; lia|].
    destruct (_ && _) eqn:E2 in H; [bool_to_prop; lia|].
    destruct (_ && _) eqn:E3 in H; [bool_to_prop; lia|].
    discriminate. }
  repeat (apply orb_false_iff; split); apply Z.eqb_neq; lia.
Qed.

(** ** Integer parser: boundaries and sign-only input *)

Example int_literal_examples :
  int_literal 127 = bytes "127" /\ int_literal (-128) = bytes "-128" /\
  int_literal 0 = bytes "0" /\
  int_literal (numeric_min Int64 - 1) = bytes "-9223372036854775809".
Proof. vm_compute. repeat split. Qed.

(** C1: for each of the four signed widths, [parse_int] of the decimal
    literal of the maximum and of the minimum value returns that value with
    [PARSE_SUCCESS], and the literal one beyond either boundary returns
    [PARSE_OVERFLOW] with the boundary value of the same sign. *)
Theorem parse_int_boundaries : forall w : IntWidth,
  StringToInt w (int_literal (numeric_max w)) = (numeric_max w, PARSE_SUCCESS) /\
  StringToInt w (int_literal (numeric_min w)) = (numeric_min w, PARSE_SUCCESS) /\
  StringToInt w (int_literal (numeric_max w + 1)) = (numeric_max w, PARSE_OVERFLOW) /\
  StringToInt w (int_literal (numeric_min w - 1)) = (numeric_min w, PARSE_OVERFLOW).
Proof. intros []; vm_compute; repeat split. Qed.

Lemma converted_base_nonzero : forall w base,
  - 2 ^ 31 <= base < 2 ^ 31 -> base <> 0 -> converted_base w base <> 0.
Proof.
  intros w base Hr Hz. unfold converted_base, to_unsigned.
  destruct w; cbn [promoted bits Z.ltb Z.compare Pos.compare Pos.compare_cont]; try assumption.
  - intros H. pose proof (Z.div_mod base (2 ^ 32) ltac:(lia)) as E.
    rewrite H in E. change (2 ^ 32) with 4294967296 in E.
    change (2 ^ 31) with 2147483648 in Hr. lia.
  - intros H. pose proof (Z.div_mod base (2 ^ 64) ltac:(lia)) as E.
    rewrite H in E. change (2 ^ 64) with 18446744073709551616 in E.
    change (2 ^ 31) with 2147483648 in Hr. lia.
Qed.

(** With base zero the divisions that precede the loop are not defined. *)
Example parse_int_base_zero : forall w,
  StringToIntBase w (bytes "+") 0 = None /\ StringToIntBase w (bytes "") 0 = Some (0, PARSE_FAILURE).
Proof. intros []; split; reflexivity. Qed.

(** C10, as the claim states it, fails: with base 0 the base overload has no
    result on a lone sign, at any width: the divisions by the base that
    precede the loop divide by zero. *)
Lemma sign_only_base_zero_has_no_result :
  converted_base Int8 0 = 0 /\ converted_base Int64 0 = 0 /\
  StringToIntBase Int8 (bytes "+") 0 = None /\
  StringToIntBase Int16 (bytes "-") 0 = None /\
  StringToIntBase Int32 (bytes "+") 0 = None /\
  StringToIntBase Int64 (bytes "-") 0 = None /\
  StringToIntBase Int32 (bytes "+") 0 <> Some (0, PARSE_SUCCESS).
Proof. vm_compute. repeat split; discriminate. Qed.

(** C10, amended: an input that is only a sign character parses as zero with
    [PARSE_SUCCESS], at every width, by [parse_int] and, for every non-zero
    base (any non-zero [int32_t], inside [2,36] or not), by
    [parse_int_base]. *)
Theorem sign_only_parses_as_zero : forall (w : IntWidth) (base : Z),
  - 2 ^ 31 <= base < 2 ^ 31 -> base <> 0 ->
  StringToInt w (bytes "+") = (0, PARSE_SUCCESS) /\
  StringToInt w (bytes "-") = (0, PARSE_SUCCESS) /\
  StringToIntBase w (bytes "+") base = Some (0, PARSE_SUCCESS) /\
  StringToIntBase w (bytes "-") base = Some (0, PARSE_SUCCESS).
Proof.
  intros w base Hr Hz.
  pose proof (converted_base_nonzero w base Hr Hz) as Hb.
  apply Z.eqb_neq in Hb.
  split; [destruct w; vm_compute; reflexivity|].
  split; [destruct w; vm_compute; reflexivity|].
  unfold StringToIntBase, StringToIntInternalBase.
  cbn [bytes list_ascii_of_string].
  rewrite Hb.
  split; destruct w; reflexivity.
Qed.

Lemma sign_only_parses_as_zero_witness :
  StringToInt Int32 (bytes "+") = (0, PARSE_SUCCESS) /\
  StringToInt Int32 (bytes "-") = (0, PARSE_SUCCESS) /\
  StringToIntBase Int32 (bytes "+") 16 = Some (0, PARSE_SUCCESS) /\
  StringToIntBase Int32 (bytes "-") 16 = Some (0, PARSE_SUCCESS).
Proof. apply (sign_only_parses_as_zero Int32 16); lia. Defined.

(** ** Integer parser in a given base *)

Section BaseLoop.

Variables (w : IntWidth) (base : Z) (negative : bool).
Variables (max_val max_div_base max_mod_base : Z).


(** On alphanumeric characters the loop never reports a failure. *)
Lemma Base_loop_alnum : forall s at_first val,
  forallb is_alnum s = true ->
  snd (Base_loop w base negative max_val max_div_base max_mod_base at_first val s)
    = PARSE_SUCCESS \/
  snd (Base_loop w base negative max_val max_div_base max_mod_base at_first val s)
    = PARSE_OVERFLOW.
Proof.
  induction s as [|a s IH]; intros at_first val Hs.
  - left. reflexivity.
  - cbn in Hs. apply andb_true_iff in Hs as [Ha Hs].
    unfold is_alnum in Ha.
    cbn. destruct (digit_value a) as [da|]; [|discriminate].
    destruct (da >=? base); [left; reflexivity|].
    destruct (exceeds _ _ _); [right; reflexivity|].
    apply IH. assumption.
Qed.

End BaseLoop.


(** What [StringToIntInternalBase] does with a sign followed by
    alphanumeric characters. *)
Lemma Internal_base_shape : forall w base sign body,
  is_sign_prefix sign -> forallb is_alnum body = true ->
  sign ++ body <> [] ->
  converted_base w base <> 0 ->
  exists negative max_val max_div max_mod,
    forall tail,
      StringToIntInternalBase w (sign ++ body ++ tail) base =
      Some (Base_loop w base negative max_val max_div max_mod true 0 (body ++ tail)).
Proof.
  intros w base sign body Hsign Hbody Hne Hb.
  apply Z.eqb_neq in Hb.
  destruct Hsign as [-> | [-> | ->]].
  - destruct body as [|a body]; [contradiction|].
    cbn in Hbody. apply andb_true_iff in Hbody as [Ha _].
    unfold is_alnum in Ha. destruct (digit_value a) as [da|] eqn:Ea; [|discriminate].
    destruct (alnum_not_sign a da Ea) as [Hm Hp].
    unfold StringToIntInternalBase. cbn [app].
    unfold sign_len. rewrite Hm, Hp, Hb. cbn [orb skipn].
    do 4 eexists. intros tail. reflexivity.
  - unfold StringToIntInternalBase. cbn [app bytes list_ascii_of_string].
    replace (sign_len "+") with 1%nat by reflexivity.
    replace (is_minus "+") with false by reflexivity.
    rewrite Hb. cbn [skipn].
    do 4 eexists. intros tail. reflexivity.
  - unfold StringToIntInternalBase. cbn [app bytes list_ascii_of_string].
    replace (sign_len "-") with 1%nat by reflexivity.
    replace (is_minus "-") with true by reflexivity.
    rewrite Hb. cbn [skipn].
    do 4 eexists. intros tail. reflexivity.
Qed.

Lemma no_leading_whitespace : forall sign body tail,
  is_sign_prefix sign -> forallb is_alnum body = true ->
  sign ++ body <> [] ->
  skipn (SkipLeadingWhitespace (sign ++ body ++ tail)) (sign ++ body ++ tail)
  = sign ++ body ++ tail.
Proof.
  intros sign body tail Hsign Hbody Htail.
  assert (SkipLeadingWhitespace (sign ++ body ++ tail) = 0%nat) as ->; [|reflexivity].
  destruct Hsign as [-> | [-> | ->]]; try reflexivity.
  destruct body as [|a body]; [contradiction|].
  cbn in Hbody. apply andb_true_iff in Hbody as [Ha _].
  unfold is_alnum in Ha. destruct (digit_value a) as [da|] eqn:Ea; [|discriminate].
  cbn. rewrite (alnum_not_whitespace a da Ea). reflexivity.
Qed.

(** The retry of the public entry point changes nothing when the input has
    no leading whitespace. *)
Lemma StringToIntBase_no_retry : forall w s base,
  skipn (SkipLeadingWhitespace s) s = s ->
  StringToIntBase w s base = StringToIntInternalBase w s base.
Proof.
  intros w s base Hs. unfold StringToIntBase. rewrite Hs.
  destruct (StringToIntInternalBase w s base) as [[ans result]|]; [|reflexivity].
  destruct (ParseResult_eqb result PARSE_SUCCESS); reflexivity.
Qed.

Lemma signed_result_zero : forall w negative, signed_result w negative 0 = 0.
Proof. intros [] []; reflexivity. Qed.

Example parse_int_base_examples :
  StringToIntBase Int32 (bytes "ff") 16 = Some (255, PARSE_SUCCESS) /\
  StringToIntBase Int32 (bytes "z") 36 = Some (35, PARSE_SUCCESS) /\
  StringToIntBase Int32 (bytes "12 ") 10 = Some (12, PARSE_SUCCESS) /\
  StringToIntBase Int32 (bytes "12 z") 10 = Some (0, PARSE_FAILURE).
Proof. vm_compute. repeat split. Qed.




(** C7, as the claim states it, fails: with base 37, outside [2,36], the
    input "1" parses with [PARSE_SUCCESS]. *)
Lemma base_out_of_range_succeeds :
  ~ (2 <= 37 <= 36) /\
  StringToIntBase Int32 (bytes "1") 37 = Some (1, PARSE_SUCCESS).
Proof. split; [lia | vm_compute; reflexivity]. Qed.

(** C7, amended: the base is not checked against [2,36].  For a base outside
    that range (non-zero, so that the division by it is defined) and an input
    made of an optional sign and alphanumeric characters, not empty, the
    parse returns [PARSE_SUCCESS] or [PARSE_OVERFLOW], never
    [PARSE_FAILURE]. *)
Theorem parse_int_base_does_not_check_base :
  forall (w : IntWidth) (base : Z) (sign body : span),
    - 2 ^ 31 <= base < 2 ^ 31 -> base <> 0 ->
    base < 2 \/ 36 < base ->
    is_sign_prefix sign -> forallb is_alnum body = true ->
    sign ++ body <> [] ->
    exists v r,
      StringToIntBase w (sign ++ body) base = Some (v, r)
      /\ (r = PARSE_SUCCESS \/ r = PARSE_OVERFLOW).
Proof.
  intros w base sign body Hr Hz _ Hsign Hbody Hne.
  pose proof (converted_base_nonzero w base Hr Hz) as Hb.
  destruct (Internal_base_shape w base sign body Hsign Hbody Hne Hb)
    as (negative & max_val & max_div & max_mod & Hshape).
  specialize (Hshape []). rewrite !app_nil_r in Hshape.
  rewrite StringToIntBase_no_retry.
  - rewrite Hshape.
    destruct (Base_loop w base negative max_val max_div max_mod true 0 body) as [v r] eqn:E.
    exists v, r. split; [reflexivity|].
    pose proof (Base_loop_alnum w base negative max_val max_div max_mod body true 0 Hbody) as H.
    rewrite E in H. exact H.
  - pose proof (no_leading_whitespace sign body [] Hsign Hbody Hne) as E.
    rewrite !app_nil_r in E. exact E.
Qed.

Lemma parse_int_base_does_not_check_base_witness :
  exists v r,
    StringToIntBase Int8 (bytes "-" ++ bytes "1z") (-3) = Some (v, r)
    /\ (r = PARSE_SUCCESS \/ r = PARSE_OVERFLOW).
Proof.
  apply (parse_int_base_does_not_check_base Int8 (-3) (bytes "-") (bytes "1z")).
  - lia.
  - lia.
  - lia.
  - right. right. reflexivity.
  - reflexivity.
  - discriminate.
Defined.

(** ** Floating-point parser: classification of infinities *)

(** When the accumulation loop is left with no exponent marker ahead, the
    status depends only on whether the [double] accumulator is positive
    infinity, whatever the target type. *)
Lemma StringToFloatInternal_accumulated :
  forall strtod T c s st remaining,
    IsInfinity (skipn (sign_len c) (c :: s)) = false ->
    IsNaN (skipn (sign_len c) (c :: s)) = false ->
    Float_loop true (skipn (sign_len c) (c :: s))
      (mkFloatScan (S754_zero false) (double_of_Z 1) false 0 0) = inl (st, remaining) ->
    at_exponent_marker remaining = false ->
    let v := double_add (val st) (double_div (double_of_Z (remainder st)) (divide st)) in
    StringToFloatInternal strtod T (c :: s) =
      (castF T (if is_minus c then SFopp v else v),
       if SFeqb v infinity then PARSE_OVERFLOW else PARSE_SUCCESS).
Proof.
  intros strtod T c s st remaining Hinf Hnan Hloop Hexp v.
  unfold StringToFloatInternal.
  rewrite Hinf, Hnan, Hloop, Hexp. reflexivity.
Qed.

(** An accumulator that is infinite in [double] is reported as an overflow
    at both widths. *)
Example parse_float_double_overflow : forall strtod T,
  StringToFloat strtod T (bytes "1" ++ repeat "0"%char 309) = (infinity, PARSE_OVERFLOW) /\
  StringToFloat strtod T (bytes "-1" ++ repeat "0"%char 309) = (SFopp infinity, PARSE_OVERFLOW).
Proof. intros strtod []; vm_compute; split; reflexivity. Qed.

(** C8 fails at width [float]: the digits of [10^39] are no infinity or NaN
    literal and hold no exponent marker; their accumulation is finite in
    [double] but beyond the finite range of [float], the returned [float] is
    an infinity, and the status is [PARSE_SUCCESS], not [PARSE_OVERFLOW].
    The same input at width [double] is a finite success. *)
Theorem parse_float_binary32_infinity_is_success : forall strtod,
  let s := bytes "1" ++ repeat "0"%char 39 in
  IsInfinity s = false /\ IsNaN s = false /\
  StringToFloat strtod Float32 s = (infinity, PARSE_SUCCESS) /\
  StringToFloat strtod Float32 (bytes "-" ++ s) = (SFopp infinity, PARSE_SUCCESS) /\
  StringToFloat strtod Float64 s = (S754_finite false 6617444900424220 77, PARSE_SUCCESS).
Proof. intros strtod. vm_compute. repeat split. Qed.

(** ** Decimal parser: worked examples *)

Example parse_decimal_examples : forall T,
  StringToDecimal T (bytes ".") 5 2 true = (0, PARSE_SUCCESS) /\
  StringToDecimal T (bytes "") 5 2 true = (0, PARSE_FAILURE) /\
  StringToDecimal T (bytes "  -12.5 ") 5 2 true = (-1250, PARSE_SUCCESS) /\
  StringToDecimal T (bytes "0.01e2") 1 0 true = (1, PARSE_SUCCESS) /\
  StringToDecimal T (bytes "0.10e2") 1 0 true = (1, PARSE_OVERFLOW).
Proof. intros []; vm_compute; repeat split. Qed.

(** C2: "123.456" parsed for precision 6 and scale 2 is an underflow in both
    rounding modes, with raw value 12346 when rounding and 12345 when
    truncating. *)
Theorem parse_decimal_123_456 : forall T : DecWidth,
  StringToDecimal T (bytes "123.456") 6 2 true = (12346, PARSE_UNDERFLOW) /\
  StringToDecimal T (bytes "123.456") 6 2 false = (12345, PARSE_UNDERFLOW).
Proof. intros []; vm_compute; split; reflexivity. Qed.

(** ** Decimal parser: trimming, sign and leading zeros *)

Lemma drop_leading_whitespace_all : forall lead s,
  IsAllWhitespace lead = true ->
  drop_leading_whitespace (lead ++ s) = drop_leading_whitespace s.
Proof.
  induction lead as [|a lead IH]; intros s H; [reflexivity|].
  cbn in H. destruct (IsWhitespace a) eqn:Ea; [|discriminate].
  cbn in *. rewrite Ea. apply IH. exact H.
Qed.

Lemma drop_leading_whitespace_stop : forall a c b,
  IsWhitespace c = false ->
  drop_leading_whitespace (a ++ c :: b) = drop_leading_whitespace a ++ c :: b.
Proof.
  induction a as [|x a IH]; intros c b Hc.
  - cbn. rewrite Hc. reflexivity.
  - cbn. destruct (IsWhitespace x); [apply IH; exact Hc | reflexivity].
Qed.

Lemma drop_trailing_whitespace_stop : forall a c b,
  IsWhitespace c = false ->
  drop_trailing_whitespace (a ++ c :: b) = a ++ c :: drop_trailing_whitespace b.
Proof.
  intros a c b Hc. unfold drop_trailing_whitespace.
  rewrite rev_app_distr. cbn [rev]. rewrite <- app_assoc. cbn [app].
  rewrite drop_leading_whitespace_stop by exact Hc.
  rewrite rev_app_distr. cbn [rev]. rewrite rev_involutive, <- app_assoc.
  reflexivity.
Qed.

Lemma drop_trailing_whitespace_last : forall a c,
  IsWhitespace c = false -> drop_trailing_whitespace (a ++ [c]) = a ++ [c].
Proof.
  intros a c Hc. rewrite drop_trailing_whitespace_stop by exact Hc. reflexivity.
Qed.

Lemma digit_not_whitespace : forall c, is_digit c = true -> IsWhitespace c = false.
Proof.
  unfold is_digit, IsWhitespace, is_char. intros c H. bool_to_prop.
  repeat (apply orb_false_iff; split); apply Z.eqb_neq; lia.
Qed.

Lemma digit_or_dot_not_whitespace : forall c,
  digit_or_dot c = true -> IsWhitespace c = false.
Proof.
  unfold digit_or_dot, is_digit, IsWhitespace, is_char. intros c H. bool_to_prop.
  repeat (apply orb_false_iff; split); apply Z.eqb_neq;
    destruct H; bool_to_prop; lia.
Qed.

Lemma digit_or_dot_not_sign : forall c,
  digit_or_dot c = true -> is_minus c = false /\ is_plus c = false.
Proof.
  unfold digit_or_dot, is_digit, is_minus, is_plus, is_char. intros c H. bool_to_prop.
  split; apply Z.eqb_neq; destruct H; bool_to_prop; lia.
Qed.

Lemma exponent_marker_plain : forall c,
  is_exponent_marker c = true ->
  IsWhitespace c = false /\ is_minus c = false /\ is_plus c = false /\
  is_digit c = false /\ is_char c 46 = false /\ is_char c 48 = false.
Proof.
  unfold is_exponent_marker, IsWhitespace, is_minus, is_plus, is_digit, is_char.
  intros c H. bool_to_prop.
  assert (code c = 101 \/ code c = 69) as Hc by (destruct H; bool_to_prop; lia).
  repeat split;
    repeat (apply orb_false_iff; split);
    try (apply Z.eqb_neq; lia).
  apply andb_false_iff. right. apply Z.leb_gt. lia.
Qed.

Lemma skip_zeros_count : forall s, 0 <= fst (skip_zeros s).
Proof.
  induction s as [|a s IH]; cbn; [lia|].
  destruct (is_char a 48); [|cbn; lia].
  destruct (skip_zeros s) as [n r]. cbn in *. lia.
Qed.

Lemma dots_cons : forall a s,
  dots (a :: s) = (if is_char a 46 then 1 else 0) + dots s.
Proof.
  intros a s. unfold dots. cbn [filter].
  destruct (is_char a 46); cbn [length]; lia.
Qed.

Lemma dots_nonneg : forall s, 0 <= dots s.
Proof. intros s. unfold dots. lia. Qed.

(** Leading zeros of a literal body followed by a marker: the zeros are
    dropped and a suffix of the body remains in front of the marker. *)
Lemma skip_zeros_body : forall body c post,
  forallb digit_or_dot body = true ->
  is_char c 48 = false ->
  exists n body',
    skip_zeros (body ++ c :: post) = (n, body' ++ c :: post) /\
    forallb digit_or_dot body' = true /\ dots body' <= dots body.
Proof.
  induction body as [|a body IH]; intros c post Hb Hc.
  - exists 0, []. cbn. rewrite Hc. repeat split. lia.
  - cbn in Hb. apply andb_true_iff in Hb as [Ha Hb].
    cbn [app skip_zeros]. destruct (is_char a 48) eqn:Ea.
    + destruct (IH c post Hb Hc) as (n & body' & E & Hb' & Hd).
      rewrite E. exists (n + 1), body'. repeat split; [exact Hb'|].
      rewrite dots_cons. destruct (is_char a 46); lia.
    + exists 0, (a :: body). repeat split; [|lia].
      cbn. rewrite Ha, Hb. reflexivity.
Qed.

(** ** Decimal parser: the exponent *)

(** The main loop at an exponent marker whose exponent does not parse. *)
Lemma decimal_loop_exponent_failure : forall T p round c post st e result,
  is_exponent_marker c = true ->
  found_exponent st = false ->
  StringToIntInternal Int8 post = (e, result) ->
  result <> PARSE_SUCCESS ->
  decimal_loop T p round (c :: post) st = inr (exponent_failure e result).
Proof.
  intros T p round c post st e result Hc Hfe He Hr.
  destruct (exponent_marker_plain c Hc) as (_ & _ & _ & Hd & Hdot & _).
  unfold is_exponent_marker in Hc.
  cbn [decimal_loop]. rewrite Hd, Hdot, Hc, Hfe, He. cbn [andb negb].
  unfold exponent_failure.
  destruct result; cbn; try reflexivity; try contradiction.
  destruct (e <? 0); reflexivity.
Qed.

(** The main loop runs through digits and one dot up to the marker. *)
Lemma decimal_loop_body : forall T p round body c post e result,
  is_exponent_marker c = true ->
  StringToIntInternal Int8 post = (e, result) ->
  result <> PARSE_SUCCESS ->
  forall st,
    forallb digit_or_dot body = true ->
    found_exponent st = false ->
    (found_dot st = 0 \/ found_dot st = 1) ->
    dots body + found_dot st <= 1 ->
    decimal_loop T p round (body ++ c :: post) st = inr (exponent_failure e result).
Proof.
  intros T p round body c post e result Hc He Hr.
  induction body as [|a body IH]; intros st Hb Hfe Hfd Hdots.
  - apply decimal_loop_exponent_failure; assumption.
  - cbn in Hb. apply andb_true_iff in Hb as [Ha Hb].
    rewrite dots_cons in Hdots. pose proof (dots_nonneg body) as Hnn.
    cbn [app decimal_loop].
    destruct (is_digit a) eqn:Ed.
    + apply IH; cbn; try assumption.
      destruct (is_char a 46); lia.
    + unfold digit_or_dot in Ha. rewrite Ed in Ha. cbn in Ha. rewrite Ha in *.
      assert (found_dot st = 0) as Hz by lia.
      rewrite Hz. cbn [Z.eqb andb].
      apply IH; cbn; try assumption; lia.
Qed.

Lemma decimal_prefix_body : forall T p round body c post e result,
  is_exponent_marker c = true ->
  StringToIntInternal Int8 post = (e, result) ->
  result <> PARSE_SUCCESS ->
  forallb digit_or_dot body = true ->
  dots body <= 1 ->
  forall st s,
    decimal_prefix (body ++ c :: post) = (st, s) ->
    decimal_loop T p round s st = inr (exponent_failure e result).
Proof.
  intros T p round body c post e result Hc He Hr Hb Hdots st s Hpre.
  destruct (exponent_marker_plain c Hc) as (_ & _ & _ & _ & Hdot & Hzero).
  unfold decimal_prefix in Hpre.
  destruct (skip_zeros_body body c post Hb Hzero) as (n & body1 & E1 & Hb1 & Hd1).
  rewrite E1 in Hpre.
  destruct body1 as [|a body1].
  - cbn [app] in Hpre. rewrite Hdot in Hpre. injection Hpre as <- <-.
    apply decimal_loop_exponent_failure; [assumption | reflexivity | assumption | assumption].
  - cbn [app] in Hpre. cbn in Hb1. apply andb_true_iff in Hb1 as [Ha Hb1].
    rewrite dots_cons in Hd1.
    destruct (is_char a 46) eqn:Ea.
    + destruct (skip_zeros_body body1 c post Hb1 Hzero) as (m & body2 & E2 & Hb2 & Hd2).
      rewrite E2 in Hpre. injection Hpre as <- <-.
      apply (decimal_loop_body T p round body2 c post e result); try assumption;
        cbn; try reflexivity; [right; reflexivity | lia].
    + injection Hpre as <- <-.
      change (a :: body1 ++ c :: post) with ((a :: body1) ++ c :: post).
      apply (decimal_loop_body T p round (a :: body1) c post e result); try assumption;
        cbn; try reflexivity.
      * rewrite Ha, Hb1. reflexivity.
      * left. reflexivity.
      * rewrite dots_cons, Ea. lia.
Qed.

Lemma decimal_sign_prefix : forall sign body c post,
  is_sign_prefix sign ->
  forallb digit_or_dot body = true ->
  is_exponent_marker c = true ->
  decimal_sign (sign ++ body ++ c :: post) =
  (match sign with a :: _ => is_minus a | [] => false end, body ++ c :: post).
Proof.
  intros sign body c post Hsign Hb Hc.
  destruct Hsign as [-> | [-> | ->]]; try reflexivity.
  cbn [app]. destruct body as [|a body].
  - destruct (exponent_marker_plain c Hc) as (_ & Hm & Hp & _).
    cbn. rewrite Hm, Hp. reflexivity.
  - cbn in Hb. apply andb_true_iff in Hb as [Ha _].
    destruct (digit_or_dot_not_sign a Ha) as [Hm Hp].
    cbn. rewrite Hm, Hp. reflexivity.
Qed.

Lemma trim_literal : forall lead sign body c post,
  IsAllWhitespace lead = true ->
  is_sign_prefix sign ->
  forallb digit_or_dot body = true ->
  is_exponent_marker c = true ->
  drop_trailing_whitespace (drop_leading_whitespace (lead ++ sign ++ body ++ c :: post))
  = sign ++ body ++ c :: drop_trailing_whitespace post.
Proof.
  intros lead sign body c post Hlead Hsign Hb Hc.
  destruct (exponent_marker_plain c Hc) as (Hws & _).
  rewrite drop_leading_whitespace_all by exact Hlead.
  assert (drop_leading_whitespace (sign ++ body ++ c :: post) = sign ++ body ++ c :: post) as ->.
  { destruct Hsign as [-> | [-> | ->]]; try reflexivity.
    cbn [app]. destruct body as [|a body].
    - cbn. rewrite Hws. reflexivity.
    - cbn in Hb. apply andb_true_iff in Hb as [Ha _].
      cbn. rewrite (digit_or_dot_not_whitespace a Ha). reflexivity. }
  rewrite app_assoc.
  rewrite drop_trailing_whitespace_stop by exact Hws.
  rewrite <- app_assoc. reflexivity.
Qed.

Example parse_decimal_exponent_examples : forall T,
  StringToDecimal T (bytes "1e-999") 5 2 true = (0, PARSE_UNDERFLOW) /\
  StringToDecimal T (bytes "1e999") 5 2 true = (0, PARSE_OVERFLOW) /\
  StringToDecimal T (bytes "1e") 5 2 true = (0, PARSE_FAILURE) /\
  StringToDecimal T (bytes " 1.5e1x ") 5 2 true = (0, PARSE_FAILURE) /\
  StringToIntInternal Int8 (bytes "-999") = (-128, PARSE_OVERFLOW) /\
  StringToIntInternal Int8 (bytes "999") = (127, PARSE_OVERFLOW).
Proof. intros []; vm_compute; repeat split. Qed.

(** C5: in a literal made of optional whitespace, an optional sign, digits
    with at most one dot, and an exponent marker, when the substring after
    the marker (up to the trailing whitespace) does not parse as an 8-bit
    integer with [PARSE_SUCCESS], the status of that parse is the status of
    the whole parse, a failure staying a failure, except that an overflow
    with a negative clamped exponent becomes [PARSE_UNDERFLOW]; the returned
    value is zero. *)
Theorem parse_decimal_exponent_failure :
  forall (T : DecWidth) (lead sign body post : span) (c : ascii)
         (p sc : Z) (round : bool) (e : Z) (result : ParseResult),
    IsAllWhitespace lead = true ->
    is_sign_prefix sign ->
    forallb digit_or_dot body = true -> dots body <= 1 ->
    is_exponent_marker c = true ->
    StringToIntInternal Int8 (drop_trailing_whitespace post) = (e, result) ->
    result <> PARSE_SUCCESS ->
    StringToDecimal T (lead ++ sign ++ body ++ c :: post) p sc round =
      (0, if ParseResult_eqb result PARSE_OVERFLOW && (e <? 0)
          then PARSE_UNDERFLOW else result).
Proof.
  intros T lead sign body post c p sc round e result
         Hlead Hsign Hb Hdots Hc He Hr.
  unfold StringToDecimal, decimal_scan.
  rewrite trim_literal by assumption.
  rewrite decimal_sign_prefix by assumption.
  destruct (decimal_prefix (body ++ c :: drop_trailing_whitespace post)) as [st0 s3] eqn:Epre.
  rewrite (decimal_prefix_body T p round body c _ e result Hc He Hr Hb Hdots st0 s3 Epre).
  reflexivity.
Qed.

Lemma parse_decimal_exponent_failure_witness :
  StringToDecimal Dec64 (bytes "  " ++ bytes "-" ++ bytes "0.25" ++ "E"%char :: bytes "-1000 ")
                  10 2 true = (0, PARSE_UNDERFLOW).
Proof.
  apply (parse_decimal_exponent_failure Dec64 (bytes "  ") (bytes "-") (bytes "0.25")
           (bytes "-1000 ") "E"%char 10 2 true (-128) PARSE_OVERFLOW).
  - reflexivity.
  - right. right. reflexivity.
  - reflexivity.
  - vm_compute. discriminate.
  - reflexivity.
  - reflexivity.
  - discriminate.
Defined.

(** ** Arithmetic in [T] *)

Lemma wrap_signed_id : forall n x,
  0 < n -> - 2 ^ (n - 1) <= x < 2 ^ (n - 1) -> wrap_signed n x = x.
Proof.
  intros n x Hn Hx. unfold wrap_signed.
  assert (2 ^ n = 2 * 2 ^ (n - 1)) as E
    by (rewrite <- Z.pow_succ_r by lia; f_equal; lia).
  assert (0 < 2 ^ (n - 1)) as Hpos by (apply Z.pow_pos_nonneg; lia).
  destruct (Z_lt_le_dec x 0) as [Hneg | Hnn].
  - assert (x mod 2 ^ n = x + 2 ^ n) as ->.
    { symmetry. apply (Z.mod_unique_pos _ _ (-1)); lia. }
    destruct (_ <? _) eqn:Hlt; bool_to_prop; lia.
  - rewrite Z.mod_small by lia.
    destruct (_ <? _) eqn:Hlt; bool_to_prop; lia.
Qed.

Lemma wrap_signed_range : forall n x,
  0 < n -> - 2 ^ (n - 1) <= wrap_signed n x < 2 ^ (n - 1).
Proof.
  intros n x Hn. unfold wrap_signed.
  assert (2 ^ n = 2 * 2 ^ (n - 1)) as E
    by (rewrite <- Z.pow_succ_r by lia; f_equal; lia).
  assert (0 < 2 ^ (n - 1)) as Hpos by (apply Z.pow_pos_nonneg; lia).
  pose proof (Z.mod_pos_bound x (2 ^ n) ltac:(lia)) as Hm.
  destruct (_ <? _) eqn:Hlt; bool_to_prop; lia.
Qed.

Lemma wrap_signed_mod : forall n x,
  0 < n -> wrap_signed n x mod 2 ^ n = x mod 2 ^ n.
Proof.
  intros n x Hn. unfold wrap_signed.
  assert (0 < 2 ^ n) as Hpos by (apply Z.pow_pos_nonneg; lia).
  destruct (_ <? _).
  - apply Z.mod_mod. lia.
  - replace (x mod 2 ^ n - 2 ^ n) with (x mod 2 ^ n + (-1) * 2 ^ n) by lia.
    rewrite Z.mod_add by lia. apply Z.mod_mod. lia.
Qed.

(** Two integers that agree modulo [2^n] convert to the same [n]-bit value. *)
Lemma wrap_signed_congr : forall n x y,
  x mod 2 ^ n = y mod 2 ^ n -> wrap_signed n x = wrap_signed n y.
Proof. intros n x y H. unfold wrap_signed. rewrite H. reflexivity. Qed.

Lemma dbits_pos : forall T, 0 < dbits T.
Proof. intros []; reflexivity. Qed.

Lemma castT_id : forall T x,
  - 2 ^ (dbits T - 1) <= x < 2 ^ (dbits T - 1) -> castT T x = x.
Proof. intros T x H. apply wrap_signed_id; [apply dbits_pos | exact H]. Qed.

Lemma castT_range : forall T x,
  - 2 ^ (dbits T - 1) <= castT T x < 2 ^ (dbits T - 1).
Proof. intros T x. apply wrap_signed_range, dbits_pos. Qed.

Lemma castT_congr : forall T x y,
  x mod 2 ^ dbits T = y mod 2 ^ dbits T -> castT T x = castT T y.
Proof. intros T x y. apply wrap_signed_congr. Qed.

Lemma castT_mod : forall T x, castT T x mod 2 ^ dbits T = x mod 2 ^ dbits T.
Proof. intros T x. apply wrap_signed_mod, dbits_pos. Qed.

(** Conversions inside a sum, a product or a negation can be dropped under
    an outer conversion. *)
Lemma castT_add_l : forall T x y, castT T (castT T x + y) = castT T (x + y).
Proof.
  intros T x y. apply castT_congr.
  rewrite Z.add_mod by (pose proof (dbits_pos T); apply Z.pow_nonzero; lia).
  rewrite castT_mod.
  rewrite <- Z.add_mod by (pose proof (dbits_pos T); apply Z.pow_nonzero; lia).
  reflexivity.
Qed.

Lemma castT_mul_l : forall T x y, castT T (castT T x * y) = castT T (x * y).
Proof.
  intros T x y. apply castT_congr.
  rewrite Z.mul_mod by (pose proof (dbits_pos T); apply Z.pow_nonzero; lia).
  rewrite castT_mod.
  rewrite <- Z.mul_mod by (pose proof (dbits_pos T); apply Z.pow_nonzero; lia).
  reflexivity.
Qed.

Lemma castT_opp : forall T x, castT T (- castT T x) = castT T (- x).
Proof.
  intros T x.
  replace (- castT T x) with (castT T x * -1) by lia.
  rewrite castT_mul_l. f_equal. lia.
Qed.

Lemma castT_zero : forall T, castT T 0 = 0.
Proof. intros []; reflexivity. Qed.

Lemma castT_idem : forall T x, castT T (castT T x) = castT T x.
Proof. intros T x. apply castT_id, castT_range. Qed.

(** ** Powers of ten *)

Lemma pow10_pos : forall n, 0 <= n -> 0 < 10 ^ n.
Proof. intros n Hn. apply Z.pow_pos_nonneg; lia. Qed.

Lemma pow10_succ : forall n, 0 <= n -> 10 ^ (n + 1) = 10 * 10 ^ n.
Proof. intros n Hn. rewrite Z.pow_add_r by lia. lia. Qed.

Lemma pow10_le : forall a b, 0 <= a <= b -> 10 ^ a <= 10 ^ b.
Proof. intros a b H. apply Z.pow_le_mono_r; lia. Qed.

Lemma pow10_add : forall a b, 0 <= a -> 0 <= b -> 10 ^ (a + b) = 10 ^ a * 10 ^ b.
Proof. intros a b Ha Hb. apply Z.pow_add_r; assumption. Qed.

(** A product of a number below [10^a] with [10^b] is below [10^c] as soon
    as [a + b <= c]. *)
Lemma mul_pow10_bound : forall x a b c,
  0 <= x < 10 ^ a -> 0 <= a -> 0 <= b -> a + b <= c ->
  0 <= x * 10 ^ b < 10 ^ c.
Proof.
  intros x a b c Hx Ha Hb Hc.
  pose proof (pow10_pos b Hb) as Hpb.
  pose proof (pow10_le (a + b) c ltac:(lia)) as Hle.
  rewrite pow10_add in Hle by assumption.
  split; [apply Z.mul_nonneg_nonneg; lia|].
  apply Z.lt_le_trans with (10 ^ a * 10 ^ b); [|exact Hle].
  apply Z.mul_lt_mono_pos_r; lia.
Qed.

(** ** Decimal parser: what the scan maintains *)

Lemma digit_range : forall c, is_digit c = true -> 0 <= code c - 48 <= 9.
Proof. unfold is_digit. intros c H. bool_to_prop. lia. Qed.

Section ScanInvariant.

Variables (T : DecWidth) (p : Z) (round : bool).
Hypothesis p_nonneg : 0 <= p.
Hypothesis p_fits : 10 ^ p < 2 ^ (dbits T - 1).

Lemma scan_inv_digit : forall st c,
  scan_inv p st -> is_digit c = true ->
  scan_inv p (accumulate_digit T p round st c).
Proof.
  intros st c (Ht & Hd & Hv & Hf) Hc.
  pose proof (digit_range c Hc) as Hdig.
  unfold scan_inv, accumulate_digit. cbn.
  repeat split; try lia; try assumption.
  - destruct (_ <? _) eqn:E; bool_to_prop; [|lia].
    pose proof (castT_range T (value st * 10 + (code c - 48))) as R.
    rewrite Z.min_l in Hv by lia.
    pose proof (pow10_succ (total_digits_count st) Ht) as S.
    pose proof (pow10_le (total_digits_count st + 1) p ltac:(lia)) as L.
    rewrite castT_id by lia. lia.
  - destruct (_ <? _) eqn:E; bool_to_prop.
    + rewrite Z.min_l in Hv by lia. rewrite Z.min_l by lia.
      pose proof (pow10_succ (total_digits_count st) Ht) as S.
      pose proof (pow10_le (total_digits_count st + 1) p ltac:(lia)) as L.
      rewrite castT_id by lia. lia.
    + rewrite Z.min_r in Hv by lia. rewrite Z.min_r by lia. lia.
Qed.

Lemma decimal_loop_inv : forall s st st',
  scan_inv p st ->
  decimal_loop T p round s st = inl st' ->
  scan_inv p st'.
Proof.
  induction s as [|c s IH]; intros st st' Hinv Hloop.
  - cbn in Hloop. injection Hloop as <-. exact Hinv.
  - cbn [decimal_loop] in Hloop.
    destruct (is_digit c) eqn:Ed.
    + eapply IH; [|exact Hloop]. apply scan_inv_digit; assumption.
    + destruct (is_char c 46 && (found_dot st =? 0)).
      * eapply IH; [|exact Hloop].
        destruct Hinv as (Ht & Hd & Hv & Hf).
        unfold scan_inv. cbn. repeat split; lia.
      * destruct ((is_char c 101 || is_char c 69) && negb (found_exponent st));
          [|discriminate].
        destruct (StringToIntInternal Int8 s) as [e result].
        destruct (negb (ParseResult_eqb result PARSE_SUCCESS)).
        -- destruct (_ && _); discriminate.
        -- injection Hloop as <-.
           destruct Hinv as (Ht & Hd & Hv & Hf).
           unfold scan_inv. cbn. repeat split; lia.
Qed.

Lemma decimal_prefix_inv : forall s st s',
  decimal_prefix s = (st, s') -> scan_inv p st.
Proof.
  intros s st s' H. unfold decimal_prefix in H.
  destruct (skip_zeros s) as [zeros s1].
  assert (forall fv, scan_inv p (mkScan fv 0 0 0 false 0 0 0)) as Hplain.
  { intros fv. unfold scan_inv. cbn. rewrite Z.min_l by lia.
    repeat split; lia. }
  destruct s1 as [|c rest]; [injection H as <- _; apply Hplain|].
  destruct (is_char c 46); [|injection H as <- _; apply Hplain].
  pose proof (skip_zeros_count rest) as Hz.
  destruct (skip_zeros rest) as [zeros_after_dot s2].
  injection H as <- _. cbn in Hz.
  unfold scan_inv. cbn. rewrite Z.min_l by lia.
  repeat split; lia.
Qed.

Lemma decimal_scan_inv : forall s is_negative st,
  decimal_scan T s p round = inl (is_negative, st) -> scan_inv p st.
Proof.
  intros s is_negative st H. unfold decimal_scan in H.
  destruct (decimal_sign _) as [neg s2].
  destruct (decimal_prefix s2) as [st0 s3] eqn:Epre.
  destruct (decimal_loop T p round s3 st0) as [st1|early] eqn:Eloop; [|discriminate].
  injection H as _ <-.
  eapply decimal_loop_inv; [|exact Eloop].
  eapply decimal_prefix_inv. exact Epre.
Qed.

End ScanInvariant.

(** ** Decimal parser: runs of digits *)

Lemma decimal_loop_digits : forall T p round ds rest st,
  forallb is_digit ds = true ->
  decimal_loop T p round (ds ++ rest) st =
  decimal_loop T p round rest (fold_left (accumulate_digit T p round) ds st).
Proof.
  induction ds as [|c ds IH]; intros rest st Hds; [reflexivity|].
  cbn in Hds. apply andb_true_iff in Hds as [Hc Hds].
  cbn [app decimal_loop fold_left]. rewrite Hc. apply IH. exact Hds.
Qed.

Lemma fold_digits_counts : forall T p round ds st,
  let st' := fold_left (accumulate_digit T p round) ds st in
  total_digits_count st' = total_digits_count st + Z.of_nat (length ds) /\
  digits_after_dot_count st' =
    digits_after_dot_count st + found_dot st * Z.of_nat (length ds) /\
  found_dot st' = found_dot st /\
  found_exponent st' = found_exponent st /\
  exponent st' = exponent st /\
  found_value st' = (match ds with [] => found_value st | _ :: _ => true end).
Proof.
  induction ds as [|c ds IH]; intros st.
  - cbn. repeat split; lia.
  - cbn [fold_left]. specialize (IH (accumulate_digit T p round st c)).
    cbn zeta in IH. destruct IH as (H1 & H2 & H3 & H4 & H5 & H6).
    cbn zeta. rewrite H1, H2, H3, H4, H5, H6. cbn [accumulate_digit total_digits_count
      digits_after_dot_count found_dot found_exponent exponent found_value length].
    repeat split; try lia.
    destruct ds; reflexivity.
Qed.

(** Below the precision limit every digit is accumulated and no truncated
    digit is recorded. *)
Lemma fold_digits_value : forall T p round ds st,
  total_digits_count st + Z.of_nat (length ds) <= p ->
  let st' := fold_left (accumulate_digit T p round) ds st in
  value st' =
    fold_left (fun acc c => castT T (acc * 10 + (code c - 48))) ds (value st) /\
  first_truncated_digit st' = first_truncated_digit st.
Proof.
  induction ds as [|c ds IH]; intros st Hlen.
  - cbn. split; reflexivity.
  - cbn [fold_left length] in *.
    specialize (IH (accumulate_digit T p round st c)).
    cbn zeta in *.
    assert ((total_digits_count st <? p) = true) as Hlt by (apply Z.ltb_lt; lia).
    destruct IH as [H1 H2].
    { cbn [accumulate_digit total_digits_count]. lia. }
    rewrite H1, H2. cbn [accumulate_digit value first_truncated_digit].
    rewrite Hlt. split; reflexivity.
Qed.

(** At or beyond the precision limit the accumulator no longer changes. *)
Lemma fold_digits_truncated : forall T p round ds st,
  p <= total_digits_count st ->
  value (fold_left (accumulate_digit T p round) ds st) = value st.
Proof.
  induction ds as [|c ds IH]; intros st Hlen; [reflexivity|].
  cbn [fold_left]. rewrite IH by (cbn; lia).
  cbn [accumulate_digit value].
  replace (total_digits_count st <? p) with false
    by (symmetry; apply Z.ltb_ge; lia).
  reflexivity.
Qed.

Lemma digits_value_from : forall ds acc,
  fold_left (fun acc c => acc * 10 + (code c - 48)) ds acc =
  acc * 10 ^ Z.of_nat (length ds) + digits_value ds.
Proof.
  unfold digits_value.
  induction ds as [|c ds IH]; intros acc.
  - cbn. lia.
  - cbn [fold_left length]. rewrite IH. rewrite (IH (0 * 10 + _)).
    rewrite Nat2Z.inj_succ, <- Z.add_1_r, pow10_succ by lia. ring.
Qed.

Lemma digits_value_app : forall a b,
  digits_value (a ++ b) = digits_value a * 10 ^ Z.of_nat (length b) + digits_value b.
Proof.
  intros a b. unfold digits_value at 1. rewrite fold_left_app.
  fold (digits_value a). apply digits_value_from.
Qed.

Lemma digits_value_bound : forall ds,
  forallb is_digit ds = true ->
  0 <= digits_value ds < 10 ^ Z.of_nat (length ds).
Proof.
  induction ds as [|c ds IH] using rev_ind; intros H.
  - cbn. lia.
  - rewrite forallb_app in H. apply andb_true_iff in H as [Hds Hc].
    cbn in Hc. rewrite andb_true_r in Hc.
    pose proof (digit_range c Hc) as Hd. specialize (IH Hds).
    rewrite digits_value_app, length_app. cbn [length].
    replace (digits_value [c]) with (code c - 48) by (unfold digits_value; cbn; lia).
    rewrite Nat2Z.inj_add. change (Z.of_nat 1) with 1.
    rewrite pow10_succ by lia. change (10 ^ 1) with 10. lia.
Qed.

(** The accumulation in [T] agrees with the value of the digits up to the
    conversion to [T]. *)
Lemma accumulate_castT : forall T ds acc,
  castT T (fold_left (fun acc c => castT T (acc * 10 + (code c - 48))) ds acc) =
  castT T (fold_left (fun acc c => acc * 10 + (code c - 48)) ds acc).
Proof.
  intros T ds. induction ds as [|c ds IH] using rev_ind; intros acc.
  - reflexivity.
  - rewrite !fold_left_app. cbn [fold_left].
    rewrite castT_idem.
    rewrite <- castT_add_l, <- castT_mul_l, IH, castT_mul_l, castT_add_l.
    reflexivity.
Qed.

Lemma accumulate_castT_fixed : forall T ds acc,
  castT T acc = acc ->
  castT T (fold_left (fun acc c => castT T (acc * 10 + (code c - 48))) ds acc) =
  fold_left (fun acc c => castT T (acc * 10 + (code c - 48))) ds acc.
Proof.
  intros T ds. induction ds as [|c ds IH] using rev_ind; intros acc Hacc.
  - exact Hacc.
  - rewrite !fold_left_app. cbn [fold_left]. apply castT_idem.
Qed.

(** ** Decimal parser: too many integer digits *)

Lemma nonwhitespace_digits : forall ds,
  forallb is_digit ds = true ->
  forallb (fun c => negb (IsWhitespace c)) ds = true.
Proof.
  induction ds as [|c ds IH]; intros H; [reflexivity|].
  cbn in *. apply andb_true_iff in H as [Hc Hds].
  rewrite (digit_not_whitespace c Hc), (IH Hds). reflexivity.
Qed.

Lemma drop_leading_whitespace_none : forall s,
  match s with c :: _ => IsWhitespace c = false | [] => True end ->
  drop_leading_whitespace s = s.
Proof. intros [|c s] H; [reflexivity|]. cbn. rewrite H. reflexivity. Qed.

Lemma drop_trailing_whitespace_none : forall s,
  forallb (fun c => negb (IsWhitespace c)) s = true ->
  drop_trailing_whitespace s = s.
Proof.
  intros s H. destruct s as [|c s] using rev_ind; [reflexivity|].
  rewrite forallb_app in H. apply andb_true_iff in H as [_ Hc].
  cbn in Hc. rewrite andb_true_r in Hc. apply negb_true_iff in Hc.
  apply drop_trailing_whitespace_last. exact Hc.
Qed.

Lemma trim_none : forall s,
  forallb (fun c => negb (IsWhitespace c)) s = true ->
  drop_trailing_whitespace (drop_leading_whitespace s) = s.
Proof.
  intros s H. rewrite drop_leading_whitespace_none.
  - apply drop_trailing_whitespace_none. exact H.
  - destruct s as [|c s]; [exact I|].
    cbn in H. apply andb_true_iff in H as [Hc _].
    apply negb_true_iff in Hc. exact Hc.
Qed.

(** A run of digits that does not start with a zero, scanned as a whole. *)
Lemma decimal_scan_plain_digits : forall T p round c ds,
  forallb is_digit (c :: ds) = true -> is_char c 48 = false ->
  decimal_scan T (c :: ds) p round =
  inl (false, fold_left (accumulate_digit T p round) (c :: ds)
                (mkScan false 0 0 0 false 0 0 0)).
Proof.
  intros T p round c ds Hds Hnz.
  unfold decimal_scan.
  rewrite trim_none by (apply nonwhitespace_digits; exact Hds).
  pose proof Hds as Hds'. cbn in Hds'. apply andb_true_iff in Hds' as [Hc _].
  assert (is_minus c = false /\ is_plus c = false) as [Hm Hp].
  { apply digit_or_dot_not_sign. unfold digit_or_dot. rewrite Hc. reflexivity. }
  assert (is_char c 46 = false) as Hdot.
  { unfold is_digit, is_char in *. bool_to_prop. apply Z.eqb_neq. lia. }
  unfold decimal_sign. rewrite Hm, Hp.
  unfold decimal_prefix. cbn [skip_zeros]. rewrite Hnz, Hdot.
  cbn [Z.ltb Z.compare].
  rewrite <- (app_nil_r (c :: ds)) at 1.
  rewrite decimal_loop_digits by exact Hds.
  reflexivity.
Qed.

(** C4, as the claim states it, fails: "-12345.6e2" at precision 4 and
    scale 1 has [precision - scale = 7 > 3], the scan has accumulated 1234,
    and the parse returns [PARSE_OVERFLOW] with -12340: [ApplyExponent] has
    multiplied the accumulator by ten before the classification. *)
Lemma overflow_value_scaled_by_exponent :
  let st := mkScan true 1 1 6 true 2 5 1234 in
  decimal_scan Dec32 (bytes "-12345.6e2") 4 true = inl (true, st) /\
  ApplyExponent Dec32 (total_digits_count st) (digits_after_dot_count st)
                (exponent st) (value st) = (12340, 7, 0) /\
  7 - 0 > 4 - 1 /\
  StringToDecimal Dec32 (bytes "-12345.6e2") 4 1 true = (-12340, PARSE_OVERFLOW) /\
  -12340 <> castT Dec32 (- value st).
Proof. vm_compute. repeat split; discriminate. Qed.

(** C4, amended: when the number in the string has more digits to the left
    of the dot than the type allows ([precision - scale > type_precision -
    type_scale]), the status is [PARSE_OVERFLOW] and the value that
    [ApplyExponent] leaves is returned unchanged but for the sign.  That
    value is the accumulator of the scan when the exponent does not exceed
    the count of fractional digits, and the accumulator multiplied in [T] by
    [10^(exponent - digits_after_dot_count)] when it does.  For a plain run
    of digits it is the value of the first [type_precision] digits, the later
    ones having been dropped.  In particular "999999" overflows a precision
    of 5 in both rounding modes. *)
Theorem parse_decimal_integer_digits_overflow :
  (forall (T : DecWidth) (s : span) (p sc : Z) (round is_negative : bool)
          (st : DecimalScan) (value0 precision scale : Z),
     decimal_scan T s p round = inl (is_negative, st) ->
     ApplyExponent T (total_digits_count st) (digits_after_dot_count st)
                   (exponent st) (value st) = (value0, precision, scale) ->
     precision - scale > p - sc ->
     StringToDecimal T s p sc round =
       (castT T (if is_negative then - value0 else value0), PARSE_OVERFLOW)
     /\ (exponent st <= digits_after_dot_count st -> value0 = value st)
     /\ (exponent st > digits_after_dot_count st ->
         value0 = castT T (value st * GetScaleMultiplier T
                             (exponent st - digits_after_dot_count st))))
  /\ (forall (T : DecWidth) (c : ascii) (ds : span) (p sc : Z) (round : bool),
        forallb is_digit (c :: ds) = true -> is_char c 48 = false ->
        0 <= p -> 10 ^ p < 2 ^ (dbits T - 1) ->
        Z.of_nat (length (c :: ds)) > p - sc ->
        StringToDecimal T (c :: ds) p sc round =
          (digits_value (firstn (Z.to_nat p) (c :: ds)), PARSE_OVERFLOW))
  /\ (forall (T : DecWidth) (round : bool),
        StringToDecimal T (bytes "999999") 5 0 round = (99999, PARSE_OVERFLOW)).
Proof.
  split; [|split].
  - intros T s p sc round is_negative st value0 precision scale Hscan Happ Hover.
    split.
    + unfold StringToDecimal. rewrite Hscan.
      unfold decimal_finish. rewrite Happ.
      unfold decimal_classify.
      replace (precision - scale >? p - sc) with true
        by (symmetry; rewrite Z.gtb_ltb; apply Z.ltb_lt; lia).
      reflexivity.
    + split; intros Hexp; unfold ApplyExponent in Happ.
      * replace (exponent st >? digits_after_dot_count st) with false in Happ
          by (symmetry; rewrite Z.gtb_ltb; apply Z.ltb_ge; lia).
        injection Happ as <- _ _. reflexivity.
      * replace (exponent st >? digits_after_dot_count st) with true in Happ
          by (symmetry; rewrite Z.gtb_ltb; apply Z.ltb_lt; lia).
        injection Happ as <- _ _. reflexivity.
  - intros T c ds p sc round Hds Hnz Hp Hfit Hlen.
    unfold StringToDecimal.
    rewrite decimal_scan_plain_digits by assumption.
    set (s := c :: ds) in *.
    set (st0 := mkScan false 0 0 0 false 0 0 0).
    rewrite <- (firstn_skipn (Z.to_nat p) s) at 1.
    rewrite fold_left_app.
    set (kept := firstn (Z.to_nat p) s).
    set (dropped := skipn (Z.to_nat p) s).
    assert (forallb is_digit kept = true) as Hkept.
    { rewrite <- (firstn_skipn (Z.to_nat p) s), forallb_app in Hds.
      apply andb_true_iff in Hds as [H _]. exact H. }
    assert (Z.of_nat (length kept) <= p) as Hklen.
    { unfold kept. rewrite length_firstn. lia. }
    assert (Z.of_nat (length kept) < p -> dropped = []) as Hshort.
    { intros Hlt. unfold dropped. apply skipn_all2.
      unfold kept in Hlt. rewrite length_firstn in Hlt. lia. }
    set (st1 := fold_left (accumulate_digit T p round) kept st0).
    destruct (fold_digits_counts T p round kept st0) as (Ht1 & Hd1 & Hf1 & _ & He1 & _).
    destruct (fold_digits_value T p round kept st0) as [Hv1 _]; [cbn; lia|].
    fold st1 in Ht1, Hd1, Hf1, He1, Hv1. cbn in Ht1, Hd1, Hf1, He1, Hv1.
    set (st2 := fold_left (accumulate_digit T p round) dropped st1).
    destruct (fold_digits_counts T p round dropped st1) as (Ht2 & Hd2 & _ & _ & He2 & _).
    fold st2 in Ht2, Hd2, He2.
    assert (value st2 = value st1) as Hv2.
    { destruct (Z_lt_le_dec (Z.of_nat (length kept)) p) as [Hlt | Hge].
      - unfold st2. rewrite (Hshort Hlt). reflexivity.
      - apply fold_digits_truncated. lia. }
    assert (value st1 = digits_value kept) as Hval.
    { rewrite Hv1.
      rewrite <- accumulate_castT_fixed by apply castT_zero.
      rewrite accumulate_castT. fold (digits_value kept).
      apply castT_id. pose proof (digits_value_bound kept Hkept) as B.
      pose proof (pow10_le (Z.of_nat (length kept)) p ltac:(lia)). lia. }
    assert (Z.of_nat (length s) = Z.of_nat (length kept) + Z.of_nat (length dropped)) as Hsplit.
    { assert (length s = length (kept ++ dropped)) as E
        by (unfold kept, dropped; rewrite firstn_skipn; reflexivity).
      rewrite length_app in E. lia. }
    unfold decimal_finish, ApplyExponent.
    rewrite He2, He1, Hd2, Hd1, Hf1, Ht2, Ht1, Hv2, Hval.
    cbn [Z.gtb Z.compare Z.add Z.mul Z.sub Z.opp].
    match goal with |- context [?x <? 0] =>
      replace (x <? 0) with false by (symmetry; apply Z.ltb_ge; lia) end.
    unfold decimal_classify.
    match goal with |- context [?x >? p - sc] =>
      replace (x >? p - sc) with true
        by (symmetry; rewrite Z.gtb_ltb; apply Z.ltb_lt; lia) end.
    f_equal. apply castT_id.
    pose proof (digits_value_bound kept Hkept) as B.
    pose proof (pow10_le (Z.of_nat (length kept)) p ltac:(lia)). lia.
  - intros [] []; vm_compute; reflexivity.
Qed.

Lemma parse_decimal_integer_digits_overflow_witness :
  StringToDecimal Dec32 (bytes "-12345.6e2") 4 1 true = (-12340, PARSE_OVERFLOW)
  /\ StringToDecimal Dec32 (bytes "7654321") 5 2 false =
       (digits_value (firstn (Z.to_nat 5) (bytes "7654321")), PARSE_OVERFLOW).
Proof.
  split.
  - refine (proj1 (proj1 parse_decimal_integer_digits_overflow
             Dec32 (bytes "-12345.6e2") 4 1 true true
             (mkScan true 1 1 6 true 2 5 1234) 12340 7 0 _ _ _)).
    + reflexivity.
    + reflexivity.
    + lia.
  - refine (proj1 (proj2 parse_decimal_integer_digits_overflow)
             Dec32 "7"%char (bytes "654321") 5 2 false _ _ _ _ _).
    + reflexivity.
    + reflexivity.
    + lia.
    + reflexivity.
    + cbn. lia.
Defined.

(** ** Decimal parser: rounding at the precision limit *)

(** C3: when rounding, with too many fractional digits for the type and an
    accumulator already at the type's scale (the shift is zero), the
    magnitude is the accumulator plus one exactly when the first truncated
    digit is 5 or more; the status is [PARSE_OVERFLOW] when that magnitude
    is [10^type_precision] and [PARSE_UNDERFLOW] otherwise.  The overflow is
    reached by "99999.9" for precision 5 and scale 0.  The precision is one
    the type [T] can hold. *)
Theorem parse_decimal_round_at_precision_limit :
  (forall (T : DecWidth) (s : span) (p sc : Z) (is_negative : bool)
          (st : DecimalScan) (value0 precision scale : Z),
     0 <= p -> 10 ^ p < 2 ^ (dbits T - 1) ->
     decimal_scan T s p true = inl (is_negative, st) ->
     ApplyExponent T (total_digits_count st) (digits_after_dot_count st)
                   (exponent st) (value st) = (value0, precision, scale) ->
     precision - scale <= p - sc -> scale > sc ->
     scale - Z.max (total_digits_count st - p) 0 - sc = 0 ->
     let magnitude := value0 + (if 5 <=? first_truncated_digit st then 1 else 0) in
     value0 = value st /\
     StringToDecimal T s p sc true =
       ((if is_negative then - magnitude else magnitude),
        if magnitude =? 10 ^ p then PARSE_OVERFLOW else PARSE_UNDERFLOW))
  /\ (forall T : DecWidth,
        StringToDecimal T (bytes "99999.9") 5 0 true = (100000, PARSE_OVERFLOW) /\
        StringToDecimal T (bytes "99998.9") 5 0 true = (99999, PARSE_UNDERFLOW) /\
        StringToDecimal T (bytes "99999.4") 5 0 true = (99999, PARSE_UNDERFLOW)).
Proof.
  split; [|intros []; vm_compute; repeat split].
  intros T s p sc is_negative st value0 precision scale
         Hp Hfit Hscan Happ Hprec Hscale Hshift magnitude.
  destruct (decimal_scan_inv T p true Hp Hfit s is_negative st Hscan)
    as (Ht & Hd & Hv & Hf).
  assert (value0 = value st) as Hvalue.
  { unfold ApplyExponent in Happ.
    destruct (exponent st >? digits_after_dot_count st) eqn:E.
    - injection Happ as _ Hpr Hsc. bool_to_prop. lia.
    - injection Happ as <- _ _. reflexivity. }
  split; [exact Hvalue|].
  assert (0 <= value0 < 10 ^ p) as Hbound.
  { rewrite Hvalue.
    pose proof (pow10_le (Z.min (total_digits_count st) p) p ltac:(lia)). lia. }
  assert (0 <= magnitude <= 10 ^ p) as Hmag.
  { unfold magnitude. destruct (5 <=? _); lia. }
  unfold StringToDecimal. rewrite Hscan.
  unfold decimal_finish. rewrite Happ.
  unfold decimal_classify.
  replace (precision - scale >? p - sc) with false
    by (symmetry; rewrite Z.gtb_ltb; apply Z.ltb_ge; lia).
  replace (scale >? sc) with true
    by (symmetry; rewrite Z.gtb_ltb; apply Z.ltb_lt; lia).
  rewrite Hshift. cbn [Z.gtb Z.compare].
  unfold GetScaleMultiplier.
  rewrite (castT_id T (10 ^ p)) by lia.
  replace (b2z (first_truncated_digit st >=? 5))
    with (if 5 <=? first_truncated_digit st then 1 else 0)
    by (rewrite Z.geb_leb; unfold b2z; reflexivity).
  fold magnitude.
  rewrite (castT_id T magnitude) by lia.
  destruct (magnitude =? 10 ^ p); f_equal; apply castT_id;
    destruct is_negative; lia.
Qed.

Lemma parse_decimal_round_at_precision_limit_witness :
  let magnitude := 129 + (if 5 <=? 5 then 1 else 0) in
  129 = value (mkScan true 1 2 4 false 0 5 129) /\
  StringToDecimal Dec64 (bytes "-12.95") 3 1 true =
    (- magnitude, if magnitude =? 10 ^ 3 then PARSE_OVERFLOW else PARSE_UNDERFLOW).
Proof.
  refine (proj1 parse_decimal_round_at_precision_limit
            Dec64 (bytes "-12.95") 3 1 true
            (mkScan true 1 2 4 false 0 5 129) 129 4 2 _ _ _ _ _ _ _).
  - lia.
  - vm_compute. reflexivity.
  - reflexivity.
  - reflexivity.
  - lia.
  - lia.
  - reflexivity.
Defined.

(** ** Decimal literals *)

Lemma code_digit_char : forall d, 0 <= d <= 9 -> code (digit_char d) = 48 + d.
Proof.
  intros d Hd. unfold code, digit_char.
  rewrite N_ascii_embedding by lia. lia.
Qed.

Lemma is_digit_digit_char : forall d, 0 <= d <= 9 -> is_digit (digit_char d) = true.
Proof.
  intros d Hd. unfold is_digit. rewrite code_digit_char by exact Hd.
  apply andb_true_iff. split; apply Z.leb_le; lia.
Qed.

Lemma digits_fuel_nonpositive : forall fuel n, n <= 0 -> digits_fuel fuel n = [].
Proof.
  intros [|fuel] n Hn; [reflexivity|].
  cbn. replace (n <=? 0) with true by (symmetry; apply Z.leb_le; exact Hn).
  reflexivity.
Qed.

(** The digits of a positive number: all digits, no leading zero, the right
    value and the right count. *)
Lemma digits_fuel_spec : forall fuel n,
  0 < n -> n < 2 ^ Z.of_nat fuel ->
  exists c ds,
    digits_fuel fuel n = c :: ds /\
    forallb is_digit (c :: ds) = true /\
    is_char c 48 = false /\
    digits_value (c :: ds) = n /\
    10 ^ Z.of_nat (length ds) <= n < 10 ^ Z.of_nat (length (c :: ds)).
Proof.
  induction fuel as [|fuel IH]; intros n Hpos Hlt.
  - cbn in Hlt. lia.
  - cbn [digits_fuel].
    replace (n <=? 0) with false by (symmetry; apply Z.leb_gt; exact Hpos).
    pose proof (Z.div_mod n 10 ltac:(lia)) as Hdm.
    pose proof (Z.mod_pos_bound n 10 ltac:(lia)) as Hmod.
    destruct (Z_le_gt_dec (n / 10) 0) as [Hsmall | Hbig].
    + rewrite digits_fuel_nonpositive by exact Hsmall.
      assert (n / 10 = 0) as Hq by (pose proof (Z.div_pos n 10); lia).
      exists (digit_char (n mod 10)), []. cbn [app].
      assert (n mod 10 = n) as Hn by lia.
      repeat split.
      * cbn. rewrite is_digit_digit_char by lia. reflexivity.
      * unfold is_char. rewrite code_digit_char by lia. apply Z.eqb_neq. lia.
      * unfold digits_value. cbn. rewrite code_digit_char by lia. lia.
      * cbn. lia.
      * cbn [length]. change (10 ^ Z.of_nat 1) with 10. lia.
    + assert (n / 10 < 2 ^ Z.of_nat fuel) as Hq.
      { rewrite Nat2Z.inj_succ, Z.pow_succ_r in Hlt by lia. lia. }
      destruct (IH (n / 10) ltac:(lia) Hq) as (c & ds & E & Hall & Hnz & Hval & Hlen).
      rewrite E. exists c, (ds ++ [digit_char (n mod 10)]). cbn [app].
      repeat split.
      * change (c :: ds ++ [digit_char (n mod 10)])
          with ((c :: ds) ++ [digit_char (n mod 10)]).
        rewrite forallb_app, Hall. cbn.
        rewrite is_digit_digit_char by lia. reflexivity.
      * exact Hnz.
      * change (c :: ds ++ [digit_char (n mod 10)])
          with ((c :: ds) ++ [digit_char (n mod 10)]).
        rewrite digits_value_app, Hval. unfold digits_value. cbn.
        rewrite code_digit_char by lia. lia.
      * rewrite length_app. cbn [length]. rewrite Nat2Z.inj_add.
        change (Z.of_nat 1) with 1. rewrite pow10_succ by lia. lia.
      * cbn [length]. rewrite length_app. cbn [length].
        rewrite Nat2Z.inj_succ, Nat2Z.inj_add. change (Z.of_nat 1) with 1.
        rewrite <- Z.add_1_r, pow10_succ by lia.
        cbn [length] in Hlen. rewrite Nat2Z.inj_succ, <- Z.add_1_r in Hlen. lia.
Qed.

Lemma digits_spec : forall n,
  0 < n ->
  exists c ds,
    digits n = c :: ds /\
    forallb is_digit (c :: ds) = true /\
    is_char c 48 = false /\
    digits_value (c :: ds) = n /\
    10 ^ Z.of_nat (length ds) <= n < 10 ^ Z.of_nat (length (c :: ds)).
Proof.
  intros n Hn. unfold digits. apply digits_fuel_spec; [exact Hn|].
  pose proof (Z.log2_spec n Hn) as [_ H].
  pose proof (Z.log2_nonneg n).
  rewrite Nat2Z.inj_succ, Z2Nat.id by assumption. exact H.
Qed.

Lemma digits_zero : digits 0 = [].
Proof. reflexivity. Qed.

(** The digits of a number below [10^k] are at most [k]. *)
Lemma digits_length_le : forall n k,
  0 <= n < 10 ^ k -> 0 <= k -> Z.of_nat (length (digits n)) <= k.
Proof.
  intros n k Hn Hk.
  destruct (Z.eq_dec n 0) as [-> | Hnz]; [rewrite digits_zero; cbn; lia|].
  destruct (digits_spec n ltac:(lia)) as (c & ds & E & _ & _ & _ & Hlen).
  rewrite E. cbn [length] in *. rewrite Nat2Z.inj_succ.
  destruct (Z_lt_le_dec (Z.of_nat (length ds)) k) as [H | H]; [lia|].
  pose proof (pow10_le k (Z.of_nat (length ds)) ltac:(lia)). lia.
Qed.

(** ** Decimal parser: scanning a canonical rendering *)

(** The state after a run of digits that stays within the precision. *)
Lemma after_digits : forall T p round ds st,
  forallb is_digit ds = true ->
  total_digits_count st + Z.of_nat (length ds) <= p ->
  castT T (value st) = value st ->
  let st' := fold_left (accumulate_digit T p round) ds st in
  total_digits_count st' = total_digits_count st + Z.of_nat (length ds) /\
  digits_after_dot_count st' =
    digits_after_dot_count st + found_dot st * Z.of_nat (length ds) /\
  found_dot st' = found_dot st /\
  exponent st' = exponent st /\
  found_value st' = (match ds with [] => found_value st | _ :: _ => true end) /\
  value st' = castT T (value st * 10 ^ Z.of_nat (length ds) + digits_value ds).
Proof.
  intros T p round ds st Hds Hlen Hfix st'.
  destruct (fold_digits_counts T p round ds st) as (H1 & H2 & H3 & _ & H5 & H6).
  destruct (fold_digits_value T p round ds st Hlen) as [Hv _].
  fold st' in H1, H2, H3, H5, H6, Hv.
  repeat split; try assumption.
  rewrite Hv, <- accumulate_castT_fixed by exact Hfix.
  rewrite accumulate_castT, digits_value_from. reflexivity.
Qed.

Lemma skip_zeros_repeat : forall k s,
  match s with c :: _ => is_char c 48 = false | [] => True end ->
  skip_zeros (repeat (digit_char 0) k ++ s) = (Z.of_nat k, s).
Proof.
  induction k as [|k IH]; intros s Hs.
  - cbn [repeat app]. destruct s as [|c s]; [reflexivity|].
    cbn. rewrite Hs. reflexivity.
  - cbn [repeat app skip_zeros].
    replace (is_char (digit_char 0) 48) with true by reflexivity.
    rewrite IH by exact Hs. f_equal. lia.
Qed.

Lemma digits_value_zeros : forall k, digits_value (repeat (digit_char 0) k) = 0.
Proof.
  induction k as [|k IH]; [reflexivity|].
  change (repeat (digit_char 0) (S k)) with ([digit_char 0] ++ repeat (digit_char 0) k).
  rewrite digits_value_app, IH. reflexivity.
Qed.

Lemma is_digit_zeros : forall k, forallb is_digit (repeat (digit_char 0) k) = true.
Proof. induction k as [|k IH]; [reflexivity|]. cbn [repeat forallb]. rewrite IH. reflexivity. Qed.

Lemma digits_all_digits : forall n, forallb is_digit (digits n) = true.
Proof.
  intros n. destruct (Z_lt_le_dec 0 n) as [Hn | Hn].
  - destruct (digits_spec n Hn) as (c & ds & E & Hall & _). rewrite E. exact Hall.
  - unfold digits. rewrite digits_fuel_nonpositive by exact Hn. reflexivity.
Qed.

Lemma digits_value_digits : forall n, 0 <= n -> digits_value (digits n) = n.
Proof.
  intros n Hn. destruct (Z.eq_dec n 0) as [-> | Hnz]; [reflexivity|].
  destruct (digits_spec n ltac:(lia)) as (c & ds & E & _ & _ & Hval & _).
  rewrite E. exact Hval.
Qed.

Lemma digits_no_leading_zero : forall n,
  match digits n with c :: _ => is_char c 48 = false | [] => True end.
Proof.
  intros n. destruct (Z_lt_le_dec 0 n) as [Hn | Hn].
  - destruct (digits_spec n Hn) as (c & ds & E & _ & Hnz & _). rewrite E. exact Hnz.
  - unfold digits. rewrite digits_fuel_nonpositive by exact Hn. exact I.
Qed.

(** The fractional part of a rendering: [scale] digits with the value [m]. *)
Lemma fraction_digits_spec : forall scale m,
  0 <= scale -> 0 <= m < 10 ^ scale ->
  forallb is_digit (fraction_digits scale m) = true /\
  Z.of_nat (length (fraction_digits scale m)) = scale /\
  digits_value (fraction_digits scale m) = m.
Proof.
  intros scale m Hs Hm. unfold fraction_digits.
  pose proof (digits_length_le m scale Hm Hs) as Hlen.
  repeat split.
  - rewrite forallb_app, is_digit_zeros, digits_all_digits. reflexivity.
  - rewrite length_app, repeat_length. lia.
  - rewrite digits_value_app, digits_value_zeros, digits_value_digits by lia. lia.
Qed.

Lemma pow10_lt_inv : forall a b, 0 <= a -> 0 <= b -> 10 ^ a < 10 ^ b -> a < b.
Proof. intros a b Ha Hb H. apply (Z.pow_lt_mono_r_iff 10); lia. Qed.

Lemma decimal_prefix_nonzero_digit : forall c s,
  is_digit c = true -> is_char c 48 = false ->
  decimal_prefix (c :: s) = (mkScan false 0 0 0 false 0 0 0, c :: s).
Proof.
  intros c s Hc Hnz.
  assert (is_char c 46 = false) as Hdot.
  { unfold is_digit, is_char in *. bool_to_prop. apply Z.eqb_neq. lia. }
  unfold decimal_prefix. cbn [skip_zeros]. rewrite Hnz, Hdot. reflexivity.
Qed.

(** The scan of the magnitude of a canonical rendering: every digit is
    accumulated, the fractional digits are counted, nothing else happens. *)
Lemma scan_render_magnitude : forall T p round m sc,
  0 <= sc <= p -> 0 <= m < 10 ^ p ->
  exists st0 s3 st,
    decimal_prefix (render_magnitude m sc) = (st0, s3) /\
    decimal_loop T p round s3 st0 = inl st /\
    exponent st = 0 /\
    digits_after_dot_count st = sc /\
    0 <= total_digits_count st <= p /\
    value st = castT T m /\
    found_value st = true.
Proof.
  intros T p round m sc Hsc Hm.
  pose proof (pow10_pos sc ltac:(lia)) as Hpow.
  pose proof (Z.div_mod m (10 ^ sc) ltac:(lia)) as Hdm.
  pose proof (Z.mod_pos_bound m (10 ^ sc) Hpow) as Hfp.
  assert (0 <= m / 10 ^ sc) as Hip by (apply Z.div_pos; lia).
  unfold render_magnitude.
  set (ip := m / 10 ^ sc) in *. set (fp := m mod 10 ^ sc) in *.
  destruct (fraction_digits_spec sc fp ltac:(lia) Hfp) as (HFd & HFl & HFv).
  unfold natural_literal.
  destruct (ip =? 0) eqn:Eip; bool_to_prop.
  - (* the integer part is zero *)
    assert (m = fp) as Hmfp by lia.
    destruct (0 <? sc) eqn:Esc; bool_to_prop.
    + cbn [app bytes list_ascii_of_string].
      unfold decimal_prefix.
      cbn [skip_zeros].
      replace (is_char (digit_char 0) 48) with true by reflexivity.
      replace (is_char "." 48) with false by reflexivity.
      replace (is_char "." 46) with true by reflexivity.
      unfold fraction_digits in *.
      rewrite skip_zeros_repeat by apply digits_no_leading_zero.
      set (k := (Z.to_nat sc - length (digits fp))%nat) in *.
      set (st0 := mkScan (_ || _) 1 (Z.of_nat k) 0 false 0 0 0).
      pose proof (digits_length_le fp sc Hfp ltac:(lia)) as Hdl.
      destruct (after_digits T p round (digits fp) st0 (digits_all_digits fp))
        as (H1 & H2 & H3 & H4 & H5 & H6);
        [change (total_digits_count st0) with 0; lia | apply castT_zero |].
      exists st0, (digits fp), (fold_left (accumulate_digit T p round) (digits fp) st0).
      split; [reflexivity|].
      split.
      { rewrite <- (app_nil_r (digits fp)) at 1.
        rewrite decimal_loop_digits by apply digits_all_digits. reflexivity. }
      rewrite H1, H2, H4, H5, H6. cbn [st0 total_digits_count digits_after_dot_count
        found_dot exponent value found_value].
      rewrite digits_value_digits by lia.
      repeat split; try lia.
      * f_equal. lia.
      * destruct (digits fp); reflexivity.
    + assert (sc = 0) as -> by lia.
      change (10 ^ 0) with 1 in *.
      assert (m = 0) as -> by lia.
      exists (mkScan true 0 0 0 false 0 0 0), [], (mkScan true 0 0 0 false 0 0 0).
      cbn. rewrite castT_zero. repeat split; lia.
  - (* the integer part is positive *)
    destruct (digits_spec ip ltac:(lia)) as (c & ds & E & Hall & Hnz & Hval & Hlen).
    rewrite E.
    pose proof Hall as Hall'. cbn in Hall'. apply andb_true_iff in Hall' as [Hc _].
    assert (Z.of_nat (length (c :: ds)) + sc <= p) as Hbound.
    { cbn [length] in *. rewrite Nat2Z.inj_succ.
      assert (10 ^ (Z.of_nat (length ds) + sc) < 10 ^ p) as Hlt.
      { rewrite pow10_add by lia.
        apply Z.le_lt_trans with (ip * 10 ^ sc); [|lia].
        apply Z.mul_le_mono_nonneg_r; lia. }
      apply pow10_lt_inv in Hlt; lia. }
    set (st0 := mkScan false 0 0 0 false 0 0 0).
    destruct (after_digits T p round (c :: ds) st0 Hall)
      as (H1 & H2 & H3 & H4 & H5 & H6);
      [change (total_digits_count st0) with 0; lia | apply castT_zero |].
    set (st1 := fold_left (accumulate_digit T p round) (c :: ds) st0) in *.
    cbn [st0 total_digits_count digits_after_dot_count found_dot exponent value
         found_value] in H1, H2, H3, H4, H5, H6.
    rewrite Hval in H6.
    destruct (0 <? sc) eqn:Esc; bool_to_prop.
    + cbn [bytes list_ascii_of_string].
      set (F := fraction_digits sc fp) in *.
      set (st2 := mkScan (found_value st1) 1 (digits_after_dot_count st1)
                    (total_digits_count st1) (found_exponent st1) (exponent st1)
                    (first_truncated_digit st1) (value st1)).
      destruct (after_digits T p round F st2 HFd)
        as (G1 & G2 & G3 & G4 & G5 & G6).
      { cbn [st2 total_digits_count]. lia. }
      { cbn [st2 value]. rewrite H6. apply castT_idem. }
      exists st0, ((c :: ds) ++ ["."%char] ++ F),
        (fold_left (accumulate_digit T p round) F st2).
      split; [apply decimal_prefix_nonzero_digit; assumption|].
      split.
      { rewrite decimal_loop_digits by exact Hall. fold st1.
        cbn [app decimal_loop].
        replace (is_digit ".") with false by reflexivity.
        replace (is_char "." 46) with true by reflexivity.
        rewrite H3. cbn [Z.eqb andb]. fold st2.
        rewrite <- (app_nil_r F) at 1.
        rewrite decimal_loop_digits by exact HFd. reflexivity. }
      rewrite G1, G2, G4, G5, G6.
      cbn [st2 total_digits_count digits_after_dot_count found_dot exponent value
           found_value].
      rewrite H1, H2, H4, H6, HFl, HFv.
      rewrite Z.mul_0_l, Z.add_0_l.
      rewrite <- castT_add_l, castT_mul_l, castT_add_l.
      repeat split; try lia.
      * f_equal. lia.
      * destruct F; [exact H5 | reflexivity].
    + assert (sc = 0) as -> by lia.
      change (10 ^ 0) with 1 in *.
      exists st0, ((c :: ds) ++ []), st1.
      split; [apply decimal_prefix_nonzero_digit; assumption|].
      split.
      { rewrite decimal_loop_digits by exact Hall. reflexivity. }
      rewrite H1, H2, H4, H5, H6.
      repeat split; try lia.
      f_equal. lia.
Qed.

Lemma natural_literal_digits : forall n,
  0 <= n ->
  forallb is_digit (natural_literal n) = true /\ natural_literal n <> [].
Proof.
  intros n Hn. unfold natural_literal.
  destruct (n =? 0) eqn:E; bool_to_prop.
  - split; [reflexivity | discriminate].
  - destruct (digits_spec n ltac:(lia)) as (c & ds & Ed & Hall & _).
    rewrite Ed. split; [exact Hall | discriminate].
Qed.

Lemma render_magnitude_shape : forall m sc,
  0 <= m -> 0 <= sc ->
  forallb (fun c => negb (IsWhitespace c)) (render_magnitude m sc) = true /\
  exists c rest, render_magnitude m sc = c :: rest /\ is_digit c = true.
Proof.
  intros m sc Hm Hsc.
  pose proof (pow10_pos sc Hsc) as Hpow.
  assert (0 <= m / 10 ^ sc) as Hip by (apply Z.div_pos; lia).
  destruct (natural_literal_digits (m / 10 ^ sc) Hip) as [Hall Hne].
  unfold render_magnitude. split.
  - rewrite forallb_app, (nonwhitespace_digits _ Hall).
    destruct (0 <? sc); [|reflexivity].
    cbn [bytes list_ascii_of_string app forallb andb].
    replace (negb (IsWhitespace ".")) with true by reflexivity.
    apply nonwhitespace_digits.
    apply (fraction_digits_spec sc (m mod 10 ^ sc) Hsc).
    apply Z.mod_pos_bound. exact Hpow.
  - destruct (natural_literal (m / 10 ^ sc)) as [|c rest]; [contradiction|].
    exists c, (rest ++ (if 0 <? sc
                        then bytes "." ++ fraction_digits sc (m mod 10 ^ sc)
                        else [])).
    split; [reflexivity|].
    cbn in Hall. apply andb_true_iff in Hall as [Hc _]. exact Hc.
Qed.

(** Parsing a canonical rendering gives back the rendered value. *)
Lemma parse_render : forall T p sc round v,
  0 <= sc <= p -> castT T v = v -> Z.abs v < 10 ^ p ->
  StringToDecimal T (render_decimal v sc) p sc round = (v, PARSE_SUCCESS).
Proof.
  intros T p sc round v Hsc Hfix Habs.
  destruct (render_magnitude_shape (Z.abs v) sc ltac:(lia) ltac:(lia))
    as (Hnws & c & rest & Ehead & Hc).
  destruct (scan_render_magnitude T p round (Z.abs v) sc Hsc ltac:(lia))
    as (st0 & s3 & st & Epre & Eloop & Hexp & Hdad & Htot & Hval & Hfv).
  assert (decimal_scan T (render_decimal v sc) p round = inl (v <? 0, st)) as Hscan.
  { unfold decimal_scan, render_decimal.
    rewrite trim_none.
    - destruct (v <? 0).
      + cbn [bytes list_ascii_of_string app decimal_sign].
        replace (is_minus "-") with true by reflexivity.
        rewrite Epre, Eloop. reflexivity.
      + cbn [app]. rewrite Ehead in *.
        assert (is_minus c = false /\ is_plus c = false) as [Hm Hp].
        { apply digit_or_dot_not_sign. unfold digit_or_dot. rewrite Hc. reflexivity. }
        unfold decimal_sign. rewrite Hm, Hp, Epre, Eloop. reflexivity.
    - rewrite forallb_app, Hnws. destruct (v <? 0); reflexivity. }
  unfold StringToDecimal. rewrite Hscan.
  unfold decimal_finish, ApplyExponent.
  rewrite Hexp, Hdad, Hval, Z.sub_0_r.
  replace (0 >? sc) with false
    by (symmetry; rewrite Z.gtb_ltb; apply Z.ltb_ge; lia).
  unfold decimal_classify.
  match goal with |- context [?x - sc >? p - sc] =>
    replace (x - sc >? p - sc) with false
      by (symmetry; rewrite Z.gtb_ltb; apply Z.ltb_ge;
          destruct (total_digits_count st <? sc); lia) end.
  replace (sc >? sc) with false
    by (symmetry; rewrite Z.gtb_ltb; apply Z.ltb_irrefl).
  rewrite Hfv. cbn [negb andb].
  f_equal.
  destruct (v <? 0) eqn:Ev; bool_to_prop.
  - rewrite castT_opp. rewrite <- Hfix at 2. f_equal. lia.
  - rewrite castT_idem. rewrite <- Hfix at 2. f_equal. lia.
Qed.

(** ** Decimal parser: what a success tells about the value *)

Lemma decimal_loop_early : forall T p round s st x r,
  decimal_loop T p round s st = inr (x, r) -> r <> PARSE_SUCCESS.
Proof.
  induction s as [|c s IH]; intros st x r H; [discriminate|].
  cbn [decimal_loop] in H.
  destruct (is_digit c); [eapply IH; exact H|].
  destruct (is_char c 46 && (found_dot st =? 0)); [eapply IH; exact H|].
  destruct ((is_char c 101 || is_char c 69) && negb (found_exponent st)).
  - destruct (StringToIntInternal Int8 s) as [e result].
    destruct result; cbn in H; try discriminate;
      try (destruct (e <? 0)); injection H as _ <-; discriminate.
  - injection H as _ <-. discriminate.
Qed.

Lemma decimal_loop_total : forall T p round s st st',
  decimal_loop T p round s st = inl st' ->
  total_digits_count st <= total_digits_count st'.
Proof.
  induction s as [|c s IH]; intros st st' H.
  - injection H as <-. lia.
  - cbn [decimal_loop] in H.
    destruct (is_digit c); [apply IH in H; cbn in H; lia|].
    destruct (is_char c 46 && (found_dot st =? 0)); [apply IH in H; cbn in H; lia|].
    destruct ((is_char c 101 || is_char c 69) && negb (found_exponent st));
      [|discriminate].
    destruct (StringToIntInternal Int8 s) as [e result].
    destruct (negb (ParseResult_eqb result PARSE_SUCCESS)).
    + destruct (_ && _); discriminate.
    + injection H as <-. cbn. lia.
Qed.

Lemma decimal_prefix_total : forall s st s',
  decimal_prefix s = (st, s') -> total_digits_count st = 0.
Proof.
  intros s st s' H. unfold decimal_prefix in H.
  destruct (skip_zeros s) as [zeros s1].
  destruct s1 as [|c rest]; [injection H as <- _; reflexivity|].
  destruct (is_char c 46); [|injection H as <- _; reflexivity].
  destruct (skip_zeros rest) as [zeros_after_dot s2].
  injection H as <- _. reflexivity.
Qed.

Lemma decimal_scan_total : forall T s p round is_negative st,
  decimal_scan T s p round = inl (is_negative, st) -> 0 <= total_digits_count st.
Proof.
  intros T s p round is_negative st H. unfold decimal_scan in H.
  destruct (decimal_sign _) as [neg s2].
  destruct (decimal_prefix s2) as [st0 s3] eqn:Epre.
  destruct (decimal_loop T p round s3 st0) as [st1|early] eqn:Eloop; [|discriminate].
  injection H as _ <-.
  apply decimal_loop_total in Eloop. apply decimal_prefix_total in Epre. lia.
Qed.

Lemma decimal_scan_early : forall T s p round x r,
  decimal_scan T s p round = inr (x, r) -> r <> PARSE_SUCCESS.
Proof.
  intros T s p round x r H. unfold decimal_scan in H.
  destruct (decimal_sign _) as [neg s2].
  destruct (decimal_prefix s2) as [st0 s3].
  destruct (decimal_loop T p round s3 st0) as [st1|early] eqn:Eloop; [discriminate|].
  injection H as ->. eapply decimal_loop_early. exact Eloop.
Qed.

(** No power of ten is the bound [2^(bits - 1)] of a storage type. *)
Lemma pow10_not_type_bound : forall T p, 0 <= p -> 10 ^ p <> 2 ^ (dbits T - 1).
Proof.
  intros T p Hp H.
  destruct (Z.eq_dec p 0) as [-> | Hnz].
  - destruct T; vm_compute in H; discriminate.
  - assert ((10 ^ p) mod 5 = 0) as Hmod.
    { replace p with (p - 1 + 1) by lia. rewrite pow10_succ by lia.
      replace (10 * 10 ^ (p - 1)) with (2 * 10 ^ (p - 1) * 5) by lia.
      apply Z.mod_mul. lia. }
    rewrite H in Hmod. destruct T; vm_compute in Hmod; discriminate.
Qed.

(** What [ApplyExponent] computes, as relations between its results. *)
Lemma ApplyExponent_cases : forall T total dad e v value0 precision scale,
  ApplyExponent T total dad e v = (value0, precision, scale) ->
  (dad < e /\ scale = 0 /\ precision = total + (e - dad) /\
   value0 = castT T (v * GetScaleMultiplier T (e - dad)))
  \/ (e <= dad /\ scale = dad - e /\ precision = Z.max total scale /\ value0 = v).
Proof.
  intros T total dad e v value0 precision scale H. unfold ApplyExponent in H.
  destruct (e >? dad) eqn:E; bool_to_prop.
  - injection H as <- <- <-. left. repeat split; lia.
  - injection H as <- <- <-. right. repeat split; try lia.
    destruct (total <? dad - e) eqn:E2; bool_to_prop; lia.
Qed.

(** The classification returns [PARSE_SUCCESS] in two branches only. *)
Lemma decimal_classify_success :
  forall T p sc round st truncated value0 precision scale value1,
    decimal_classify T p sc round st truncated value0 precision scale
      = (value1, PARSE_SUCCESS) ->
    precision - scale <= p - sc /\ scale <= sc /\
    value1 = (if sc >? scale
              then castT T (value0 * GetScaleMultiplier T (sc - scale))
              else value0).
Proof.
  intros T p sc round st truncated value0 precision scale value1 H.
  unfold decimal_classify in H.
  destruct (precision - scale >? p - sc) eqn:E1; [discriminate|].
  destruct (scale >? sc) eqn:E2.
  - destruct (_ >? 0); [discriminate|]. destruct (_ =? _); discriminate.
  - destruct (negb (found_value st) && (found_dot st =? 0)); [discriminate|].
    bool_to_prop.
    destruct (sc >? scale); injection H as <-; repeat split; lia.
Qed.

Lemma success_bounds : forall T s p sc round v,
  StringToDecimal T s p sc round = (v, PARSE_SUCCESS) ->
  0 <= sc <= p /\ castT T v = v /\ Z.abs v < 10 ^ p.
Proof.
  intros T s p sc round v H. unfold StringToDecimal in H.
  destruct (decimal_scan T s p round) as [[is_negative st]|[x r]] eqn:Hscan.
  2:{ injection H as _ ->. apply decimal_scan_early in Hscan. contradiction. }
  pose proof (decimal_scan_total T s p round is_negative st Hscan) as Htot.
  unfold decimal_finish in H.
  destruct (ApplyExponent _ _ _ _ _) as [[value0 precision] scale] eqn:Happ.
  destruct (decimal_classify _ _ _ _ _ _ _ _ _) as [value1 result] eqn:Hcls.
  injection H as Hv ->.
  apply decimal_classify_success in Hcls as (Hprec & Hscale & Hvalue1).
  apply ApplyExponent_cases in Happ.
  assert (0 <= sc <= p) as Hsc by (destruct Happ as [H | H]; lia).
  split; [exact Hsc|].
  split; [rewrite <- Hv; apply castT_idem|].
  pose proof (castT_range T (if is_negative then - value1 else value1)) as Hrange.
  rewrite Hv in Hrange.
  destruct (Z_lt_le_dec (10 ^ p) (2 ^ (dbits T - 1))) as [Hfit | Hbig].
  - (* the type holds [p] digits: nothing wraps *)
    destruct (decimal_scan_inv T p round ltac:(lia) Hfit s is_negative st Hscan)
      as (_ & Hdad & Hval & _).
    assert (forall n, 0 <= n <= p -> GetScaleMultiplier T n = 10 ^ n) as Hmul.
    { intros n Hn. unfold GetScaleMultiplier. apply castT_id.
      pose proof (pow10_pos n ltac:(lia)). pose proof (pow10_le n p Hn). lia. }
    assert (forall x, 0 <= x < 10 ^ p -> castT T x = x) as Hid
      by (intros x Hx; apply castT_id; lia).
    set (a := Z.min (total_digits_count st) p) in *.
    assert (0 <= a <= total_digits_count st) as Ha by (unfold a; lia).
    assert (0 <= value1 < 10 ^ p) as Hbound.
    { destruct Happ as [(Hlt & -> & -> & ->) | (Hle & -> & -> & ->)].
      - set (k := exponent st - digits_after_dot_count st) in *.
        pose proof (mul_pow10_bound (value st) a k (p - sc) Hval
                      ltac:(lia) ltac:(lia) ltac:(lia)) as B1.
        pose proof (pow10_le (p - sc) p ltac:(lia)) as L1.
        rewrite Hvalue1. destruct (sc >? 0) eqn:E; bool_to_prop.
        + rewrite Z.sub_0_r, (Hmul k), (Hmul sc) by lia.
          rewrite (Hid (value st * 10 ^ k)) by lia.
          pose proof (mul_pow10_bound (value st * 10 ^ k) (p - sc) sc p B1
                        ltac:(lia) ltac:(lia) ltac:(lia)) as B2.
          rewrite Hid by lia. exact B2.
        + rewrite (Hmul k) by lia. rewrite Hid by lia. lia.
      - set (scale := digits_after_dot_count st - exponent st) in *.
        rewrite Hvalue1. destruct (sc >? scale) eqn:E; bool_to_prop.
        + rewrite Hmul by lia.
          pose proof (mul_pow10_bound (value st) a (sc - scale) p Hval
                        ltac:(lia) ltac:(lia) ltac:(lia)) as B2.
          rewrite Hid by lia. exact B2.
        + pose proof (pow10_le a p ltac:(lia)). lia. }
    rewrite <- Hv. rewrite castT_id by (destruct is_negative; lia).
    destruct is_negative; lia.
  - (* otherwise every value of the type is below [10^p] *)
    pose proof (pow10_not_type_bound T p ltac:(lia)). lia.
Qed.

(** ** Decimal parser: idempotence on canonical renderings *)

Example render_decimal_examples :
  render_decimal 12345 2 = bytes "123.45" /\
  render_decimal (-5) 2 = bytes "-0.05" /\
  render_decimal 0 0 = bytes "0" /\
  render_decimal 0 3 = bytes "0.000" /\
  render_decimal (-1250) 0 = bytes "-1250".
Proof. vm_compute. repeat split. Qed.

(** C9: when a parse succeeds with raw value [v], parsing the canonical
    rendering of [v] at the same scale, with the same precision, scale and
    rounding flag, succeeds again with the same raw value. *)
Theorem parse_decimal_render_idempotent :
  forall (T : DecWidth) (s : span) (p sc : Z) (round : bool) (v : Z),
    StringToDecimal T s p sc round = (v, PARSE_SUCCESS) ->
    StringToDecimal T (render_decimal v sc) p sc round = (v, PARSE_SUCCESS).
Proof.
  intros T s p sc round v H.
  apply success_bounds in H as (Hsc & Hfix & Habs).
  apply parse_render; assumption.
Qed.

Lemma parse_decimal_render_idempotent_witness :
  StringToDecimal Dec64 (bytes "  -012.5e1 ") 6 2 true = (-12500, PARSE_SUCCESS) /\
  render_decimal (-12500) 2 = bytes "-125.00" /\
  StringToDecimal Dec64 (render_decimal (-12500) 2) 6 2 true = (-12500, PARSE_SUCCESS).
Proof.
  split; [reflexivity|]. split; [reflexivity|].
  apply (parse_decimal_render_idempotent Dec64 (bytes "  -012.5e1 ") 6 2 true (-12500)).
  reflexivity.
Defined.

(** * Further properties *)

Lemma max_val_of_bounds : forall w negative,
  127 <= max_val_of w negative <= 2 ^ (bits w - 1) /\ 2 ^ bits w = 2 * 2 ^ (bits w - 1).
Proof. intros [] []; vm_compute; repeat split; discriminate. Qed.

Lemma to_signed_id : forall w x,
  - 2 ^ (bits w - 1) <= x < 2 ^ (bits w - 1) -> to_signed w x = x.
Proof. intros w x H. apply wrap_signed_id; [destruct w; reflexivity | exact H]. Qed.

Lemma to_unsigned_id : forall w x, 0 <= x < 2 ^ bits w -> to_unsigned w x = x.
Proof. intros w x H. apply Z.mod_small. exact H. Qed.

Lemma overflow_check_spec : forall w negative b val d,
  2 <= b <= 36 -> 0 <= val -> 0 <= d < b ->
  exceeds w val
    (overflow_bound w (to_signed w (max_val_of w negative / b))
                      (to_signed w (max_val_of w negative mod b)) d)
  = (max_val_of w negative <? val * b + d).
Proof.
  intros w negative b val d Hb Hval Hd.
  destruct (max_val_of_bounds w negative) as [[Hlo Hhi] Hpow].
  set (M := max_val_of w negative) in *.
  set (P := 2 ^ (bits w - 1)) in *.
  pose proof (Z.div_mod M b ltac:(lia)) as Hdm.
  pose proof (Z.mod_pos_bound M b ltac:(lia)) as Hr.
  assert (3 <= M / b) as Hq3 by nia.
  assert (M / b < P) as HqP by nia.
  rewrite (to_signed_id w (M / b)) by (fold P; lia).
  rewrite (to_signed_id w (M mod b)) by (fold P; lia).
  unfold exceeds, overflow_bound.
  set (e := M / b - b2z (d >? M mod b)).
  assert (M / b - 1 <= e <= M / b) as He by (unfold e, b2z; destruct (_ >? _); lia).
  assert ((if promoted w then e else to_signed w e) = e) as ->
    by (destruct (promoted w); [reflexivity | apply to_signed_id; fold P; lia]).
  assert ((if promoted w then val >? e else val >? to_unsigned w e) = (val >? e)) as ->
    by (destruct (promoted w); [reflexivity | rewrite to_unsigned_id by lia; reflexivity]).
  rewrite Z.gtb_ltb.
  assert (e = if M mod b <? d then M / b - 1 else M / b) as He'
    by (unfold e, b2z; rewrite Z.gtb_ltb; destruct (_ <? _); lia).
  clearbody e.
  destruct (Z.ltb_spec (M mod b) d); subst e;
    destruct (Z.ltb_spec (M / b - 1) val); destruct (Z.ltb_spec (M / b) val);
    destruct (Z.ltb_spec M (val * b + d)); try reflexivity; try lia; nia.
Qed.

Lemma digit_value_digit : forall c, is_digit c = true -> digit_value c = Some (code c - 48).
Proof. intros c H. unfold digit_value. rewrite H. reflexivity. Qed.

Lemma valid_digit_range : forall base c,
  valid_in_base base c = true ->
  exists d, digit_value c = Some d /\ 0 <= d < base.
Proof.
  intros base c H. unfold valid_in_base in H.
  destruct (digit_value c) as [d|] eqn:E; [|discriminate].
  exists d. split; [reflexivity|]. bool_to_prop. split; [|exact H].
  unfold digit_value, is_digit, is_lower, is_upper in E.
  destruct (_ && _) eqn:E1 in E; [injection E as <-; bool_to_prop; lia|].
  destruct (_ && _) eqn:E2 in E; [injection E as <-; bool_to_prop; lia|].
  destruct (_ && _) eqn:E3 in E; [injection E as <-; bool_to_prop; lia|].
  discriminate.
Qed.

(** The value accumulated over digits of a base never decreases. *)
Lemma base_fold_ge : forall base ds acc,
  1 <= base -> forallb (valid_in_base base) ds = true -> 0 <= acc ->
  acc <= fold_left (fun acc c => acc * base + match digit_value c with
                                               | Some d => d
                                               | None => 0
                                               end) ds acc.
Proof.
  induction ds as [|c ds IH]; intros acc Hb Hds Hacc; [cbn; lia|].
  cbn in Hds. apply andb_true_iff in Hds as [Hc Hds].
  destruct (valid_digit_range base c Hc) as (d & Ed & Hd).
  cbn [fold_left]. rewrite Ed.
  assert (acc * 1 <= acc * base) as H1 by (apply Z.mul_le_mono_nonneg_l; lia).
  eapply Z.le_trans; [|apply IH; try assumption; lia]. lia.
Qed.

Lemma max_val_of_eq : forall w negative,
  max_val_of w negative =
  (if negative then 2 ^ (bits w - 1) else 2 ^ (bits w - 1) - 1).
Proof. intros [] []; reflexivity. Qed.

Lemma signed_result_in_range : forall w negative m,
  0 <= m <= max_val_of w negative ->
  signed_result w negative m = (if negative then - m else m).
Proof.
  intros w negative m Hm. unfold signed_result.
  apply to_signed_id. rewrite max_val_of_eq in Hm.
  assert (0 < 2 ^ (bits w - 1)) by (destruct w; reflexivity).
  destruct negative; lia.
Qed.

Lemma signed_result_max : forall w negative,
  signed_result w negative (max_val_of w negative) =
  (if negative then numeric_min w else numeric_max w).
Proof. intros [] []; reflexivity. Qed.

(** ** Integer parser: the checked loops on runs of digits *)

Lemma Int_loop_digits : forall w negative ds tail at_first val,
  forallb is_digit ds = true ->
  0 <= val <= max_val_of w negative ->
  let M := max_val_of w negative in
  let total := fold_left (fun acc c => acc * 10 + (code c - 48)) ds val in
  Int_loop w negative M (to_signed w (M / 10)) (to_signed w (M mod 10))
           at_first val (ds ++ tail)
  = if total <=? M
    then Int_loop w negative M (to_signed w (M / 10)) (to_signed w (M mod 10))
                  (match ds with [] => at_first | _ :: _ => false end) total tail
    else (signed_result w negative M, PARSE_OVERFLOW).
Proof.
  intros w negative ds tail at_first val Hds Hval. cbv zeta.
  set (M := max_val_of w negative) in *.
  revert at_first val Hds Hval.
  induction ds as [|c ds IH]; intros at_first val Hds Hval.
  - cbn [fold_left app].
    replace (val <=? M) with true by (symmetry; apply Z.leb_le; lia).
    reflexivity.
  - cbn in Hds. apply andb_true_iff in Hds as [Hc Hds].
    pose proof (digit_range c Hc) as Hd.
    cbn [fold_left app Int_loop]. rewrite Hc.
    unfold M. rewrite overflow_check_spec by lia. fold M.
    destruct (Z.ltb_spec M (val * 10 + (code c - 48))) as [Hover | Hfit].
    + assert (forallb (valid_in_base 10) ds = true) as Hvalid.
      { clear - Hds. induction ds as [|a ds IH]; [reflexivity|].
        cbn in *. apply andb_true_iff in Hds as [Ha Hds].
        rewrite (IH Hds), andb_true_r. unfold valid_in_base.
        rewrite (digit_value_digit a Ha). apply Z.ltb_lt.
        pose proof (digit_range a Ha). lia. }
      pose proof (base_fold_ge 10 ds (val * 10 + (code c - 48))
                    ltac:(lia) Hvalid ltac:(lia)) as Hge.
      assert (fold_left (fun acc c0 => acc * 10 + (code c0 - 48)) ds
                (val * 10 + (code c - 48))
              = fold_left (fun acc c0 => acc * 10 + match digit_value c0 with
                                                     | Some d => d
                                                     | None => 0
                                                     end) ds
                  (val * 10 + (code c - 48))) as E.
      { clear - Hds. generalize (val * 10 + (code c - 48)) as acc.
        induction ds as [|a ds IH]; intros acc; [reflexivity|].
        cbn in Hds. apply andb_true_iff in Hds as [Ha Hds].
        cbn [fold_left]. rewrite (digit_value_digit a Ha). apply IH. exact Hds. }
      rewrite E.
      replace (_ <=? M) with false by (symmetry; apply Z.leb_gt; lia).
      reflexivity.
    + destruct (max_val_of_bounds w negative) as [[_ Hhi] Hpow]. fold M in Hhi.
      assert (0 < 2 ^ (bits w - 1)) by (destruct w; reflexivity).
      rewrite to_unsigned_id by lia.
      rewrite IH by (try exact Hds; lia).
      destruct ds; reflexivity.
Qed.

Lemma Base_loop_digits : forall w negative base ds tail at_first val,
  2 <= base <= 36 ->
  forallb (valid_in_base base) ds = true ->
  0 <= val <= max_val_of w negative ->
  let M := max_val_of w negative in
  let total := fold_left (fun acc c => acc * base + match digit_value c with
                                                     | Some d => d
                                                     | None => 0
                                                     end) ds val in
  Base_loop w base negative M (to_signed w (M / base)) (to_signed w (M mod base))
            at_first val (ds ++ tail)
  = if total <=? M
    then Base_loop w base negative M (to_signed w (M / base)) (to_signed w (M mod base))
                   (match ds with [] => at_first | _ :: _ => false end) total tail
    else (signed_result w negative M, PARSE_OVERFLOW).
Proof.
  intros w negative base ds tail at_first val Hbase Hds Hval. cbv zeta.
  set (M := max_val_of w negative) in *.
  revert at_first val Hds Hval.
  induction ds as [|c ds IH]; intros at_first val Hds Hval.
  - cbn [fold_left app].
    replace (val <=? M) with true by (symmetry; apply Z.leb_le; lia).
    reflexivity.
  - cbn in Hds. apply andb_true_iff in Hds as [Hc Hds].
    destruct (valid_digit_range base c Hc) as (d & Ed & Hd).
    cbn [fold_left app Base_loop]. rewrite Ed.
    replace (d >=? base) with false
      by (symmetry; rewrite Z.geb_leb; apply Z.leb_gt; lia).
    unfold M. rewrite overflow_check_spec by lia. fold M.
    destruct (Z.ltb_spec M (val * base + d)) as [Hover | Hfit].
    + assert (0 <= val * base) by (apply Z.mul_nonneg_nonneg; lia).
      pose proof (base_fold_ge base ds (val * base + d)
                    ltac:(lia) Hds ltac:(lia)) as Hge.
      replace (_ <=? M) with false by (symmetry; apply Z.leb_gt; lia).
      reflexivity.
    + destruct (max_val_of_bounds w negative) as [[_ Hhi] Hpow]. fold M in Hhi.
      assert (0 < 2 ^ (bits w - 1)) by (destruct w; reflexivity).
      assert (0 <= val * base) by (apply Z.mul_nonneg_nonneg; lia).
      rewrite to_unsigned_id by lia.
      rewrite IH by (try exact Hds; lia).
      destruct ds; reflexivity.
Qed.

Lemma IsAllWhitespace_app : forall a b,
  IsAllWhitespace (a ++ b) = IsAllWhitespace a && IsAllWhitespace b.
Proof.
  induction a as [|c a IH]; intros b; [reflexivity|].
  cbn. destruct (IsWhitespace c); cbn; [apply IH | reflexivity].
Qed.

Lemma whitespace_not_digit : forall c, IsWhitespace c = true -> digit_value c = None.
Proof.
  intros c H. destruct (digit_value c) as [d|] eqn:E; [|reflexivity].
  rewrite (alnum_not_whitespace c d E) in H. discriminate.
Qed.

Lemma whitespace_is_not_digit : forall c, IsWhitespace c = true -> is_digit c = false.
Proof.
  intros c H. destruct (is_digit c) eqn:E; [|reflexivity].
  rewrite (digit_not_whitespace c E) in H. discriminate.
Qed.

(** After at least one character, trailing whitespace ends either loop with
    the accumulated value. *)
Lemma Int_loop_whitespace : forall w negative M q r val trail,
  IsAllWhitespace trail = true ->
  Int_loop w negative M q r false val trail = (signed_result w negative val, PARSE_SUCCESS).
Proof.
  intros w negative M q r val [|c trail] H; [reflexivity|].
  cbn [Int_loop]. rewrite H. cbn in H.
  destruct (IsWhitespace c) eqn:Ec; [|discriminate].
  rewrite (whitespace_is_not_digit c Ec). reflexivity.
Qed.

Lemma Base_loop_whitespace : forall w base negative M q r val trail,
  IsAllWhitespace trail = true ->
  Base_loop w base negative M q r false val trail
  = (signed_result w negative val, PARSE_SUCCESS).
Proof.
  intros w base negative M q r val [|c trail] H; [reflexivity|].
  cbn [Base_loop]. rewrite H. cbn in H.
  destruct (IsWhitespace c) eqn:Ec; [|discriminate].
  rewrite (whitespace_not_digit c Ec). reflexivity.
Qed.

(** ** Integer parser: the fast path *)

Lemma fast_path_bound : forall w negative,
  10 ^ (max_ascii_len w - 1) - 1 <= max_val_of w negative.
Proof. intros [] []; vm_compute; discriminate. Qed.

Lemma NoOverflow_loop_agrees : forall w negative s val,
  0 <= val ->
  (val + 1) * 10 ^ Z.of_nat (length s) - 1 <= max_val_of w negative ->
  let M := max_val_of w negative in
  Int_loop w negative M (to_signed w (M / 10)) (to_signed w (M mod 10)) false val s
  = (let '(v, result) := NoOverflow_loop w val s in
     (signed_result w negative v, result)).
Proof.
  intros w negative s val Hval Hbound. cbv zeta.
  set (M := max_val_of w negative) in *.
  revert val Hval Hbound.
  induction s as [|c s IH]; intros val Hval Hbound; [reflexivity|].
  cbn [Int_loop NoOverflow_loop].
  destruct (is_digit c) eqn:Hc.
  - pose proof (digit_range c Hc) as Hd.
    cbn [length] in Hbound. rewrite Nat2Z.inj_succ, <- Z.add_1_r, pow10_succ in Hbound by lia.
    pose proof (pow10_pos (Z.of_nat (length s)) ltac:(lia)) as Hpow.
    assert ((val * 10 + (code c - 48) + 1) * 10 ^ Z.of_nat (length s)
            <= (val + 1) * (10 * 10 ^ Z.of_nat (length s))) as Hstep.
    { replace ((val + 1) * (10 * 10 ^ Z.of_nat (length s)))
        with ((val * 10 + 10) * 10 ^ Z.of_nat (length s)) by ring.
      apply Z.mul_le_mono_nonneg_r; lia. }
    assert (val * 10 + (code c - 48) + 1 <= (val * 10 + (code c - 48) + 1) * 10 ^ Z.of_nat (length s)) as Hone.
    { rewrite <- (Z.mul_1_r (val * 10 + (code c - 48) + 1)) at 1.
      apply Z.mul_le_mono_nonneg_l; lia. }
    unfold M. rewrite overflow_check_spec by lia. fold M.
    replace (M <? val * 10 + (code c - 48)) with false
      by (symmetry; apply Z.ltb_ge; lia).
    destruct (max_val_of_bounds w negative) as [[_ Hhi] Hp2]. fold M in Hhi.
    assert (0 < 2 ^ (bits w - 1)) by (destruct w; reflexivity).
    rewrite to_unsigned_id by lia.
    apply IH; lia.
  - cbn [orb]. destruct (negb (IsAllWhitespace (c :: s))); [|reflexivity].
    rewrite signed_result_zero. reflexivity.
Qed.

(** The fast path returns what the checked loop returns. *)
Lemma fast_path_agrees : forall w negative s,
  Z.of_nat (length s) < max_ascii_len w ->
  let M := max_val_of w negative in
  (let '(v, result) := StringToIntNoOverflow w s in
   (signed_result w negative v, result))
  = Int_loop w negative M (to_signed w (M / 10)) (to_signed w (M mod 10)) true 0 s.
Proof.
  intros w negative s Hlen. cbv zeta.
  set (M := max_val_of w negative) in *.
  destruct s as [|c s]; [cbn; rewrite signed_result_zero; reflexivity|].
  cbn [StringToIntNoOverflow Int_loop].
  destruct (is_digit c) eqn:Hc.
  - pose proof (digit_range c Hc) as Hd.
    pose proof (fast_path_bound w negative) as Hfast. fold M in Hfast.
    cbn [length] in Hlen. rewrite Nat2Z.inj_succ in Hlen.
    pose proof (pow10_pos (Z.of_nat (length s)) ltac:(lia)) as Hpow.
    pose proof (pow10_le (Z.of_nat (length s) + 1) (max_ascii_len w - 1) ltac:(lia)) as Hle.
    rewrite pow10_succ in Hle by lia.
    assert ((code c - 48 + 1) * 10 ^ Z.of_nat (length s) <= 10 * 10 ^ Z.of_nat (length s)) as Hstep
      by (apply Z.mul_le_mono_nonneg_r; lia).
    assert (code c - 48 + 1 <= (code c - 48 + 1) * 10 ^ Z.of_nat (length s)) as Hone.
    { rewrite <- (Z.mul_1_r (code c - 48 + 1)) at 1.
      apply Z.mul_le_mono_nonneg_l; lia. }
    unfold M. rewrite overflow_check_spec by lia. fold M.
    replace (M <? 0 * 10 + (code c - 48)) with false
      by (symmetry; apply Z.ltb_ge; lia).
    destruct (max_val_of_bounds w negative) as [[_ Hhi] Hp2]. fold M in Hhi.
    assert (0 < 2 ^ (bits w - 1)) by (destruct w; reflexivity).
    rewrite to_unsigned_id by lia.
    cbn [Z.mul Z.add].
    symmetry. apply (NoOverflow_loop_agrees w negative s (code c - 48)); fold M; lia.
  - cbn [orb]. rewrite signed_result_zero. reflexivity.
Qed.

Lemma checked_path_eq : forall w s,
  StringToIntInternal w s = StringToIntInternal_checked w s.
Proof.
  intros w [|c s]; [reflexivity|].
  unfold StringToIntInternal, StringToIntInternal_checked.
  destruct (_ <? max_ascii_len w) eqn:E; [|reflexivity].
  apply Z.ltb_lt in E.
  apply fast_path_agrees.
  rewrite length_skipn.
  assert (sign_len c <= length (c :: s))%nat
    by (unfold sign_len; destruct (_ || _); cbn; lia).
  lia.
Qed.

(** X1: the fast path of [StringToIntInternal] (at most [max_ascii_len]
    characters, parsed by [StringToIntNoOverflow] without any overflow test)
    returns on every input what the overflow-checking loop returns. *)
Theorem fast_path_is_checked_path : forall (w : IntWidth) (s : span),
  StringToIntInternal w s = StringToIntInternal_checked w s.
Proof. exact checked_path_eq. Qed.

(** ** Integer parser: leading whitespace and the retry *)

Lemma skip_is_drop : forall s,
  skipn (SkipLeadingWhitespace s) s = drop_leading_whitespace s.
Proof.
  induction s as [|c s IH]; [reflexivity|].
  cbn. destruct (IsWhitespace c); [exact IH | reflexivity].
Qed.

Lemma whitespace_not_sign : forall c, IsWhitespace c = true -> sign_len c = 0%nat /\ is_minus c = false.
Proof.
  unfold IsWhitespace, sign_len, is_minus, is_plus, is_char. intros c H.
  assert (code c <> 45 /\ code c <> 43) as [H1 H2].
  { bool_to_prop. destruct H as [H | H]; bool_to_prop; [lia|].
    repeat (destruct H as [H | H]; bool_to_prop; try lia). }
  apply Z.eqb_neq in H1, H2. rewrite H1, H2. split; reflexivity.
Qed.

Lemma drop_leading_whitespace_head : forall s,
  match drop_leading_whitespace s with
  | c :: _ => IsWhitespace c = false
  | [] => True
  end.
Proof.
  induction s as [|c s IH]; [exact I|].
  cbn. destruct (IsWhitespace c) eqn:E; [exact IH | exact E].
Qed.

Lemma StringToIntInternal_whitespace_first : forall w c s,
  IsWhitespace c = true -> StringToIntInternal w (c :: s) = (0, PARSE_FAILURE).
Proof.
  intros w c s Hc. rewrite checked_path_eq.
  unfold StringToIntInternal_checked.
  destruct (whitespace_not_sign c Hc) as [-> ->].
  cbn [skipn Int_loop]. rewrite (whitespace_is_not_digit c Hc). reflexivity.
Qed.

(** The retry of the public entry point amounts to dropping the leading
    whitespace before the one parse. *)
Lemma StringToInt_trims : forall w s,
  StringToInt w s = StringToIntInternal w (drop_leading_whitespace s).
Proof.
  intros w s. unfold StringToInt. rewrite skip_is_drop.
  destruct s as [|c s]; [reflexivity|].
  cbn [drop_leading_whitespace].
  destruct (IsWhitespace c) eqn:Ec.
  - rewrite (StringToIntInternal_whitespace_first w c s Ec). reflexivity.
  - destruct (StringToIntInternal w (c :: s)) as [ans result].
    destruct (ParseResult_eqb result PARSE_SUCCESS); reflexivity.
Qed.

(** ** Integer parser: what a well-formed number parses to *)

Lemma digit_plain : forall c,
  is_digit c = true -> sign_len c = 0%nat /\ is_minus c = false /\ IsWhitespace c = false.
Proof.
  intros c Hc.
  assert (is_minus c = false /\ is_plus c = false) as [Hm Hp]
    by (apply digit_or_dot_not_sign; unfold digit_or_dot; rewrite Hc; reflexivity).
  unfold sign_len. rewrite Hm, Hp. repeat split. apply digit_not_whitespace. exact Hc.
Qed.

Lemma checked_shape : forall w sign rest,
  is_sign_prefix sign ->
  match sign, rest with
  | [], c :: _ => sign_len c = 0%nat /\ is_minus c = false
  | [], [] => False
  | _ :: _, _ => True
  end ->
  let negative := sign_is_minus sign in
  let M := max_val_of w negative in
  StringToIntInternal_checked w (sign ++ rest) =
  Int_loop w negative M (to_signed w (M / 10)) (to_signed w (M mod 10)) true 0 rest.
Proof.
  intros w sign rest Hsign Hrest. cbv zeta.
  destruct Hsign as [-> | [-> | ->]].
  - destruct rest as [|c rest]; [contradiction|]. destruct Hrest as [Hl Hm].
    unfold StringToIntInternal_checked. cbn [app sign_is_minus].
    rewrite Hl, Hm. reflexivity.
  - reflexivity.
  - reflexivity.
Qed.

Lemma sign_prefix_no_whitespace : forall sign rest,
  is_sign_prefix sign ->
  match sign, rest with
  | [], c :: _ => IsWhitespace c = false
  | _, _ => True
  end ->
  drop_leading_whitespace (sign ++ rest) = sign ++ rest.
Proof.
  intros sign rest Hsign Hrest.
  destruct Hsign as [-> | [-> | ->]]; try reflexivity.
  destruct rest as [|c rest]; [reflexivity|].
  cbn. rewrite Hrest. reflexivity.
Qed.

Lemma clamped_spec : forall w negative m,
  0 <= m ->
  clamped w negative m =
  if m <=? max_val_of w negative
  then (signed_result w negative m, PARSE_SUCCESS)
  else (signed_result w negative (max_val_of w negative), PARSE_OVERFLOW).
Proof.
  intros w negative m Hm. unfold clamped.
  destruct (Z.leb_spec m (max_val_of w negative)).
  - rewrite signed_result_in_range by lia. reflexivity.
  - rewrite signed_result_max. reflexivity.
Qed.

Lemma parse_int_number_shape :
  forall (w : IntWidth) (lead sign ds tail : span),
    IsAllWhitespace lead = true ->
    is_sign_prefix sign ->
    forallb is_digit ds = true -> ds <> [] ->
    IsAllWhitespace tail = true \/ max_val_of w (sign_is_minus sign) < digits_value ds ->
    StringToInt w (lead ++ sign ++ ds ++ tail) =
    clamped w (sign_is_minus sign) (digits_value ds).
Proof.
  intros w lead sign ds tail Hlead Hsign Hds Hne Htail.
  destruct ds as [|c ds]; [contradiction|].
  pose proof Hds as Hds'. cbn in Hds'. apply andb_true_iff in Hds' as [Hc _].
  destruct (digit_plain c Hc) as (Hl & Hm & Hw).
  rewrite StringToInt_trims, drop_leading_whitespace_all by exact Hlead.
  rewrite (sign_prefix_no_whitespace sign ((c :: ds) ++ tail) Hsign)
    by (destruct sign; [exact Hw | exact I]).
  rewrite checked_path_eq.
  rewrite (checked_shape w sign ((c :: ds) ++ tail) Hsign)
    by (destruct sign; [split; assumption | exact I]).
  pose proof (max_val_of_bounds w (sign_is_minus sign)) as [[Hlo _] _].
  rewrite Int_loop_digits by (try exact Hds; lia).
  fold (digits_value (c :: ds)).
  pose proof (digits_value_bound (c :: ds) Hds) as [Hnn _].
  rewrite clamped_spec by exact Hnn.
  destruct (Z.leb_spec (digits_value (c :: ds)) (max_val_of w (sign_is_minus sign)))
    as [Hfit | Hover]; [|reflexivity].
  destruct Htail as [Htail | Htail]; [|lia].
  apply Int_loop_whitespace. exact Htail.
Qed.

(** X2: an optional run of whitespace, an optional sign, a non-empty run of
    decimal digits and a tail parse as the number the digits denote, clamped
    to the type: [PARSE_SUCCESS] with the signed value when the magnitude is
    at most the bound of its sign, [PARSE_OVERFLOW] with that bound
    otherwise.  The tail is whitespace, or anything at all once the digits
    have overflowed. *)
Theorem parse_int_number :
  forall (w : IntWidth) (lead sign ds tail : span),
    IsAllWhitespace lead = true ->
    is_sign_prefix sign ->
    forallb is_digit ds = true -> ds <> [] ->
    IsAllWhitespace tail = true \/ max_val_of w (sign_is_minus sign) < digits_value ds ->
    StringToInt w (lead ++ sign ++ ds ++ tail) =
    clamped w (sign_is_minus sign) (digits_value ds).
Proof. exact parse_int_number_shape. Qed.

Lemma parse_int_number_witness :
  StringToInt Int32 (bytes "  -0042 ") = (-42, PARSE_SUCCESS) /\
  StringToInt Int8 (bytes "300x") = (127, PARSE_OVERFLOW).
Proof.
  split.
  - apply (parse_int_number Int32 (bytes "  ") (bytes "-") (bytes "0042") (bytes " "));
      [reflexivity | right; right; reflexivity | reflexivity | discriminate
      | left; reflexivity].
  - apply (parse_int_number Int8 [] [] (bytes "300") (bytes "x"));
      [reflexivity | left; reflexivity | reflexivity | discriminate
      | right; reflexivity].
Defined.

Lemma digits_value_natural_literal : forall n,
  0 <= n -> digits_value (natural_literal n) = n.
Proof.
  intros n Hn. unfold natural_literal.
  destruct (n =? 0) eqn:E; bool_to_prop; [subst; reflexivity|].
  apply digits_value_digits. exact Hn.
Qed.

Lemma StringToInt_int_literal : forall (w : IntWidth) (v : Z),
  StringToInt w (int_literal v) =
  if v <? numeric_min w then (numeric_min w, PARSE_OVERFLOW)
  else if numeric_max w <? v then (numeric_max w, PARSE_OVERFLOW)
  else (v, PARSE_SUCCESS).
Proof.
  intros w v. unfold int_literal.
  destruct (natural_literal_digits (Z.abs v) ltac:(lia)) as [Hds Hne].
  rewrite <- (app_nil_r (natural_literal (Z.abs v))).
  change (StringToInt w ((if v <? 0 then bytes "-" else []) ++ natural_literal (Z.abs v) ++ []))
    with (StringToInt w ([] ++ (if v <? 0 then bytes "-" else [])
                            ++ natural_literal (Z.abs v) ++ [])).
  rewrite parse_int_number_shape; try assumption; try reflexivity.
  - rewrite digits_value_natural_literal by lia.
    unfold clamped. rewrite max_val_of_eq. unfold numeric_min, numeric_max.
    assert (0 < 2 ^ (bits w - 1)) by (destruct w; reflexivity).
    set (P := 2 ^ (bits w - 1)) in *.
    destruct (Z.ltb_spec v 0).
    + change (sign_is_minus (bytes "-")) with true. cbv iota.
      destruct (Z.leb_spec (Z.abs v) P);
        destruct (Z.ltb_spec v (- P)); destruct (Z.ltb_spec (P - 1) v);
        try lia; repeat f_equal; lia.
    + change (sign_is_minus []) with false. cbv iota.
      destruct (Z.leb_spec (Z.abs v) (P - 1));
        destruct (Z.ltb_spec v (- P)); destruct (Z.ltb_spec (P - 1) v);
        try lia; repeat f_equal; lia.
  - destruct (v <? 0); [right; right; reflexivity | left; reflexivity].
  - left. reflexivity.
Qed.

(** X3: parsing the decimal literal of any integer [v] gives [v] back with
    [PARSE_SUCCESS] when [v] is a value of the type, and the boundary of the
    sign of [v] with [PARSE_OVERFLOW] otherwise. *)
Theorem parse_int_literal_round_trip : forall (w : IntWidth) (v : Z),
  StringToInt w (int_literal v) =
  if v <? numeric_min w then (numeric_min w, PARSE_OVERFLOW)
  else if numeric_max w <? v then (numeric_max w, PARSE_OVERFLOW)
  else (v, PARSE_SUCCESS).
Proof. exact StringToInt_int_literal. Qed.

(** ** Integer parser in a base: what a well-formed number parses to *)

Lemma converted_base_in_range : forall w base,
  2 <= base <= 36 -> converted_base w base = base.
Proof.
  intros w base Hb. unfold converted_base.
  destruct (promoted w); [reflexivity|].
  apply to_unsigned_id.
  destruct (max_val_of_bounds w false) as [[Hlo Hhi] Hpow]. lia.
Qed.

Lemma base_shape : forall w base sign rest,
  2 <= base <= 36 ->
  is_sign_prefix sign ->
  match sign, rest with
  | [], c :: _ => sign_len c = 0%nat /\ is_minus c = false
  | [], [] => False
  | _ :: _, _ => True
  end ->
  let negative := sign_is_minus sign in
  let M := max_val_of w negative in
  StringToIntInternalBase w (sign ++ rest) base =
  Some (Base_loop w base negative M (to_signed w (M / base)) (to_signed w (M mod base))
                  true 0 rest).
Proof.
  intros w base sign rest Hbase Hsign Hrest. cbv zeta.
  assert (forall negative,
            Z.quot (max_val_of w negative) base = max_val_of w negative / base /\
            Z.rem (max_val_of w negative) base = max_val_of w negative mod base) as Hq.
  { intros negative. destruct (max_val_of_bounds w negative) as [[Hlo _] _].
    split; [apply Z.quot_div_nonneg | apply Z.rem_mod_nonneg]; lia. }
  assert ((base =? 0) = false) as Hz by (apply Z.eqb_neq; lia).
  destruct Hsign as [-> | [-> | ->]].
  - destruct rest as [|c rest]; [contradiction|]. destruct Hrest as [Hl Hm].
    unfold StringToIntInternalBase. cbn [app sign_is_minus].
    rewrite converted_base_in_range, Hz, Hl, Hm by exact Hbase.
    destruct (Hq false) as [-> ->]. reflexivity.
  - unfold StringToIntInternalBase. cbn [app bytes list_ascii_of_string sign_is_minus].
    rewrite converted_base_in_range, Hz by exact Hbase.
    replace (is_minus "+") with false by reflexivity.
    destruct (Hq false) as [-> ->]. reflexivity.
  - unfold StringToIntInternalBase. cbn [app bytes list_ascii_of_string sign_is_minus].
    rewrite converted_base_in_range, Hz by exact Hbase.
    replace (is_minus "-") with true by reflexivity.
    destruct (Hq true) as [-> ->]. reflexivity.
Qed.

Lemma StringToIntInternalBase_whitespace_first : forall w c s base,
  2 <= base <= 36 ->
  IsWhitespace c = true ->
  StringToIntInternalBase w (c :: s) base = Some (0, PARSE_FAILURE).
Proof.
  intros w c s base Hbase Hc.
  destruct (whitespace_not_sign c Hc) as [Hl Hm].
  pose proof (base_shape w base [] (c :: s) Hbase (or_introl eq_refl) (conj Hl Hm)) as E.
  cbv zeta in E. cbn [app] in E. rewrite E.
  cbn [Base_loop]. rewrite (whitespace_not_digit c Hc). reflexivity.
Qed.

Lemma StringToIntBase_trims : forall w s base,
  2 <= base <= 36 ->
  StringToIntBase w s base = StringToIntInternalBase w (drop_leading_whitespace s) base.
Proof.
  intros w s base Hbase. unfold StringToIntBase. rewrite skip_is_drop.
  destruct s as [|c s]; [reflexivity|].
  cbn [drop_leading_whitespace].
  destruct (IsWhitespace c) eqn:Ec.
  - rewrite (StringToIntInternalBase_whitespace_first w c s base Hbase Ec). reflexivity.
  - destruct (StringToIntInternalBase w (c :: s) base) as [[ans result]|]; [|reflexivity].
    destruct (ParseResult_eqb result PARSE_SUCCESS); reflexivity.
Qed.

(** X4: in a base from 2 to 36, an optional run of whitespace, an optional
    sign, a non-empty run of digits valid in the base and a tail parse as the
    number the digits denote in that base, clamped to the type as in base
    ten. *)
Theorem parse_int_base_number :
  forall (w : IntWidth) (base : Z) (lead sign ds tail : span),
    2 <= base <= 36 ->
    IsAllWhitespace lead = true ->
    is_sign_prefix sign ->
    forallb (valid_in_base base) ds = true -> ds <> [] ->
    IsAllWhitespace tail = true \/ max_val_of w (sign_is_minus sign) < base_value base ds ->
    StringToIntBase w (lead ++ sign ++ ds ++ tail) base =
    Some (clamped w (sign_is_minus sign) (base_value base ds)).
Proof.
  intros w base lead sign ds tail Hbase Hlead Hsign Hds Hne Htail.
  destruct ds as [|c ds]; [contradiction|].
  pose proof Hds as Hds'. cbn in Hds'. apply andb_true_iff in Hds' as [Hc _].
  destruct (valid_digit_range base c Hc) as (d & Ed & Hd).
  destruct (alnum_not_sign c d Ed) as [Hm Hp].
  pose proof (alnum_not_whitespace c d Ed) as Hw.
  assert (sign_len c = 0%nat) as Hl by (unfold sign_len; rewrite Hm, Hp; reflexivity).
  rewrite StringToIntBase_trims, drop_leading_whitespace_all by assumption.
  rewrite (sign_prefix_no_whitespace sign ((c :: ds) ++ tail) Hsign)
    by (destruct sign; [exact Hw | exact I]).
  rewrite (base_shape w base sign ((c :: ds) ++ tail) Hbase Hsign)
    by (destruct sign; [split; assumption | exact I]).
  pose proof (max_val_of_bounds w (sign_is_minus sign)) as [[Hlo _] _].
  rewrite Base_loop_digits by (try assumption; lia).
  fold (base_value base (c :: ds)).
  pose proof (base_fold_ge base (c :: ds) 0 ltac:(lia) Hds ltac:(lia)) as Hnn.
  fold (base_value base (c :: ds)) in Hnn.
  rewrite clamped_spec by exact Hnn.
  destruct (Z.leb_spec (base_value base (c :: ds)) (max_val_of w (sign_is_minus sign)))
    as [Hfit | Hover]; [|reflexivity].
  destruct Htail as [Htail | Htail]; [|lia].
  rewrite Base_loop_whitespace by exact Htail. reflexivity.
Qed.

Lemma parse_int_base_number_witness :
  StringToIntBase Int32 (bytes "  -fF ") 16 = Some (-255, PARSE_SUCCESS).
Proof.
  apply (parse_int_base_number Int32 16 (bytes "  ") (bytes "-") (bytes "fF") (bytes " "));
    [lia | reflexivity | right; right; reflexivity | reflexivity | discriminate
    | left; reflexivity].
Defined.

(** ** Base 10 against the plain integer parser *)


Lemma Base_loop_10 : forall w negative M q r s at_first val,
  forallb (fun c => negb (is_lower c || is_upper c)) s = true ->
  Base_loop w 10 negative M q r at_first val s = Int_loop w negative M q r at_first val s.
Proof.
  intros w negative M q r.
  induction s as [|c s IH]; intros at_first val Hs; [reflexivity|].
  cbn in Hs. apply andb_true_iff in Hs as [Hc Hs].
  apply negb_true_iff, orb_false_iff in Hc as [Hlo Hup].
  cbn [Base_loop Int_loop]. unfold digit_value. rewrite Hlo, Hup.
  destruct (is_digit c) eqn:Ed; [|reflexivity].
  pose proof (digit_range c Ed) as Hd.
  replace (code c - 48 >=? 10) with false
    by (symmetry; rewrite Z.geb_leb; apply Z.leb_gt; lia).
  destruct (exceeds _ _ _); [reflexivity|]. apply IH. exact Hs.
Qed.

Lemma letter_free_skipn : forall n s,
  forallb (fun c => negb (is_lower c || is_upper c)) s = true ->
  forallb (fun c => negb (is_lower c || is_upper c)) (skipn n s) = true.
Proof.
  induction n as [|n IH]; intros [|c s] H; try exact H.
  cbn in H. apply andb_true_iff in H as [_ H]. apply IH. exact H.
Qed.

Lemma letter_free_drop : forall s,
  forallb (fun c => negb (is_lower c || is_upper c)) s = true ->
  forallb (fun c => negb (is_lower c || is_upper c)) (drop_leading_whitespace s) = true.
Proof.
  intros s H. rewrite <- skip_is_drop. apply letter_free_skipn. exact H.
Qed.

(** X5: on an input without letters, the parse in base 10 is the plain
    [StringToInt] parse. *)
Theorem parse_int_base_10_is_parse_int : forall (w : IntWidth) (s : span),
  forallb (fun c => negb (is_lower c || is_upper c)) s = true ->
  StringToIntBase w s 10 = Some (StringToInt w s).
Proof.
  intros w s Hs.
  rewrite StringToIntBase_trims, StringToInt_trims by lia.
  apply letter_free_drop in Hs.
  destruct (drop_leading_whitespace s) as [|c t]; [reflexivity|].
  rewrite checked_path_eq.
  unfold StringToIntInternalBase, StringToIntInternal_checked.
  rewrite converted_base_in_range by lia. cbn [Z.eqb].
  destruct (max_val_of_bounds w (is_minus c)) as [[Hlo _] _].
  rewrite Z.quot_div_nonneg, Z.rem_mod_nonneg by lia.
  rewrite Base_loop_10 by (apply letter_free_skipn; exact Hs).
  reflexivity.
Qed.

Lemma parse_int_base_10_is_parse_int_witness :
  StringToIntBase Int16 (bytes " -42 ") 10 = Some (StringToInt Int16 (bytes " -42 ")).
Proof. apply (parse_int_base_10_is_parse_int Int16 (bytes " -42 ")). reflexivity. Defined.

(** ** Decimal parser: surrounding whitespace *)

Lemma IsAllWhitespace_rev : forall s, IsAllWhitespace (rev s) = IsAllWhitespace s.
Proof.
  induction s as [|c s IH]; [reflexivity|].
  cbn [rev]. rewrite IsAllWhitespace_app, IH. cbn.
  destruct (IsWhitespace c); cbn; [apply andb_true_r | apply andb_false_r].
Qed.

Lemma drop_leading_whitespace_only : forall s,
  IsAllWhitespace s = true -> drop_leading_whitespace s = [].
Proof.
  induction s as [|c s IH]; intros H; [reflexivity|].
  cbn in *. destruct (IsWhitespace c); [apply IH; exact H | discriminate].
Qed.

Lemma drop_trailing_whitespace_app : forall s trail,
  IsAllWhitespace trail = true ->
  drop_trailing_whitespace (s ++ trail) = drop_trailing_whitespace s.
Proof.
  intros s trail H. unfold drop_trailing_whitespace.
  rewrite rev_app_distr, drop_leading_whitespace_all; [reflexivity|].
  rewrite IsAllWhitespace_rev. exact H.
Qed.

Lemma drop_leading_whitespace_app : forall s trail,
  IsAllWhitespace trail = true ->
  drop_leading_whitespace (s ++ trail) =
  match drop_leading_whitespace s with
  | [] => []
  | c :: t => (c :: t) ++ trail
  end.
Proof.
  induction s as [|c s IH]; intros trail H.
  - cbn. apply drop_leading_whitespace_only. exact H.
  - cbn. destruct (IsWhitespace c); [apply IH; exact H | reflexivity].
Qed.

Lemma trim_whitespace_around : forall lead s trail,
  IsAllWhitespace lead = true -> IsAllWhitespace trail = true ->
  drop_trailing_whitespace (drop_leading_whitespace (lead ++ s ++ trail))
  = drop_trailing_whitespace (drop_leading_whitespace s).
Proof.
  intros lead s trail Hlead Htrail.
  rewrite drop_leading_whitespace_all by exact Hlead.
  rewrite drop_leading_whitespace_app by exact Htrail.
  destruct (drop_leading_whitespace s) as [|c t]; [reflexivity|].
  apply drop_trailing_whitespace_app. exact Htrail.
Qed.

Lemma StringToDecimal_whitespace_around :
  forall (T : DecWidth) (lead s trail : span) (p sc : Z) (round : bool),
    IsAllWhitespace lead = true -> IsAllWhitespace trail = true ->
    StringToDecimal T (lead ++ s ++ trail) p sc round = StringToDecimal T s p sc round.
Proof.
  intros T lead s trail p sc round Hlead Htrail.
  unfold StringToDecimal, decimal_scan.
  rewrite trim_whitespace_around by assumption. reflexivity.
Qed.

(** X6: [StringToDecimal] ignores whitespace before and after its input. *)
Theorem parse_decimal_ignores_surrounding_whitespace :
  forall (T : DecWidth) (lead s trail : span) (p sc : Z) (round : bool),
    IsAllWhitespace lead = true -> IsAllWhitespace trail = true ->
    StringToDecimal T (lead ++ s ++ trail) p sc round = StringToDecimal T s p sc round.
Proof. exact StringToDecimal_whitespace_around. Qed.

Lemma parse_decimal_ignores_surrounding_whitespace_witness :
  StringToDecimal Dec64 (bytes " " ++ bytes "1.5" ++ bytes "  ") 5 2 true =
  StringToDecimal Dec64 (bytes "1.5") 5 2 true.
Proof.
  apply (parse_decimal_ignores_surrounding_whitespace Dec64 (bytes " ") (bytes "1.5")
           (bytes "  ") 5 2 true); reflexivity.
Defined.

(** ** Decimal parser: the sign *)

Lemma decimal_trim_head : forall c t,
  IsWhitespace c = false ->
  drop_trailing_whitespace (drop_leading_whitespace (c :: t))
  = c :: drop_trailing_whitespace t.
Proof.
  intros c t Hc. cbn [drop_leading_whitespace]. rewrite Hc.
  apply (drop_trailing_whitespace_stop [] c t Hc).
Qed.

Lemma decimal_loop_early_zero : forall T p round s st v r,
  decimal_loop T p round s st = inr (v, r) -> v = 0.
Proof.
  induction s as [|c s IH]; intros st v r H; [discriminate|].
  cbn [decimal_loop] in H.
  destruct (is_digit c); [eapply IH; exact H|].
  destruct (is_char c 46 && (found_dot st =? 0)); [eapply IH; exact H|].
  destruct ((is_char c 101 || is_char c 69) && negb (found_exponent st)).
  - destruct (StringToIntInternal Int8 s) as [e result].
    destruct (negb (ParseResult_eqb result PARSE_SUCCESS)); [|discriminate].
    destruct (_ && _); injection H as <- _; reflexivity.
  - injection H as <- _. reflexivity.
Qed.

(** X7: before an input that does not itself start with whitespace or a
    sign, a leading [+] changes nothing, and a leading [-] negates the value
    in [T] and keeps the status. *)
Theorem parse_decimal_sign :
  forall (T : DecWidth) (s : span) (p sc : Z) (round : bool),
    match s with
    | c :: _ => IsWhitespace c = false /\ is_minus c = false /\ is_plus c = false
    | [] => True
    end ->
    StringToDecimal T (bytes "+" ++ s) p sc round = StringToDecimal T s p sc round /\
    StringToDecimal T (bytes "-" ++ s) p sc round =
      (castT T (- fst (StringToDecimal T s p sc round)),
       snd (StringToDecimal T s p sc round)).
Proof.
  intros T s p sc round Hs.
  assert (exists body,
            drop_trailing_whitespace (drop_leading_whitespace s) = body /\
            decimal_sign body = (false, body) /\
            forall c, IsWhitespace c = false ->
              drop_trailing_whitespace (drop_leading_whitespace (c :: s)) = c :: body)
    as (body & Ebody & Esign & Econs).
  { destruct s as [|c t].
    - exists []. repeat split. intros c Hc.
      rewrite decimal_trim_head by exact Hc. reflexivity.
    - destruct Hs as (Hw & Hm & Hp).
      exists (c :: drop_trailing_whitespace t).
      split; [apply decimal_trim_head; exact Hw|].
      split; [cbn; rewrite Hm, Hp; reflexivity|].
      intros c0 Hc0. rewrite decimal_trim_head by exact Hc0.
      f_equal. rewrite <- decimal_trim_head by exact Hw.
      cbn [drop_leading_whitespace]. rewrite Hw. reflexivity. }
  unfold StringToDecimal, decimal_scan.
  cbn [bytes list_ascii_of_string app].
  rewrite !Econs by reflexivity. rewrite Ebody, Esign.
  cbn [decimal_sign].
  replace (is_minus "+") with false by reflexivity.
  replace (is_plus "+") with true by reflexivity.
  replace (is_minus "-") with true by reflexivity.
  destruct (decimal_prefix body) as [st0 s3].
  destruct (decimal_loop T p round s3 st0) as [st|[v res]] eqn:Eloop.
  - split; [reflexivity|].
    unfold decimal_finish.
    destruct (ApplyExponent _ _ _ _ _) as [[value0 precision] scale].
    destruct (decimal_classify _ _ _ _ _ _ _ _ _) as [value1 result].
    cbn [fst snd]. rewrite castT_opp. reflexivity.
  - split; [reflexivity|]. cbn [fst snd].
    rewrite (decimal_loop_early_zero T p round s3 st0 v res Eloop).
    rewrite castT_zero. reflexivity.
Qed.

Lemma parse_decimal_sign_witness :
  StringToDecimal Dec64 (bytes "+" ++ bytes "1.5") 5 2 true =
    StringToDecimal Dec64 (bytes "1.5") 5 2 true /\
  StringToDecimal Dec64 (bytes "-" ++ bytes "1.5") 5 2 true =
    (castT Dec64 (- fst (StringToDecimal Dec64 (bytes "1.5") 5 2 true)),
     snd (StringToDecimal Dec64 (bytes "1.5") 5 2 true)).
Proof.
  apply (parse_decimal_sign Dec64 (bytes "1.5") 5 2 true).
  repeat split; reflexivity.
Defined.

(** ** Decimal parser: the assertions of the source *)

Lemma decimal_loop_truncated_digit : forall T p round s st st',
  (0 <= first_truncated_digit st <= 9 /\
   (first_truncated_digit st <> 0 -> round = true /\ p < total_digits_count st)) ->
  decimal_loop T p round s st = inl st' ->
  0 <= first_truncated_digit st' <= 9 /\
  (first_truncated_digit st' <> 0 -> round = true /\ p < total_digits_count st').
Proof.
  induction s as [|c s IH]; intros st st' Hinv Hloop.
  - injection Hloop as <-. exact Hinv.
  - cbn [decimal_loop] in Hloop.
    destruct (is_digit c) eqn:Ed.
    + eapply IH; [|exact Hloop].
      pose proof (digit_range c Ed) as Hd. destruct Hinv as [Hr Hi].
      unfold accumulate_digit. cbn [first_truncated_digit total_digits_count].
      destruct (total_digits_count st <? p) eqn:E1; bool_to_prop.
      * split; [exact Hr|]. intros Hnz. destruct (Hi Hnz). lia.
      * destruct round; cbn [andb].
        -- destruct (total_digits_count st =? p) eqn:E2; bool_to_prop.
           ++ split; [lia|]. intros _. split; [reflexivity | lia].
           ++ split; [exact Hr|]. intros Hnz. destruct (Hi Hnz). split; [reflexivity|lia].
        -- split; [exact Hr|]. intros Hnz. destruct (Hi Hnz). discriminate.
    + destruct (is_char c 46 && (found_dot st =? 0)).
      * eapply IH; [|exact Hloop]. exact Hinv.
      * destruct ((is_char c 101 || is_char c 69) && negb (found_exponent st));
          [|discriminate].
        destruct (StringToIntInternal Int8 s) as [e result].
        destruct (negb (ParseResult_eqb result PARSE_SUCCESS)).
        -- destruct (_ && _); discriminate.
        -- injection Hloop as <-. exact Hinv.
Qed.

Lemma decimal_prefix_fresh : forall s st s',
  decimal_prefix s = (st, s') ->
  first_truncated_digit st = 0 /\ value st = 0 /\ total_digits_count st = 0 /\
  exponent st = 0 /\ found_exponent st = false.
Proof.
  intros s st s' H. unfold decimal_prefix in H.
  destruct (skip_zeros s) as [zeros s1].
  destruct s1 as [|c rest]; [injection H as <- _; repeat split|].
  destruct (is_char c 46); [|injection H as <- _; repeat split].
  destruct (skip_zeros rest) as [zeros_after_dot s2].
  injection H as <- _. repeat split.
Qed.

(** X8: what [StringToDecimal] asserts about its scan holds whenever the scan
    completes: the first truncated digit is a digit, it is zero unless some
    digit was truncated, and unless rounding was asked for; and for a
    precision the storage type holds, the accumulated value is non-negative
    and below [10^type_precision]. *)
Theorem parse_decimal_scan_assertions :
  forall (T : DecWidth) (s : span) (p : Z) (round is_negative : bool) (st : DecimalScan),
    decimal_scan T s p round = inl (is_negative, st) ->
    (0 <= first_truncated_digit st <= 9) /\
    (first_truncated_digit st = 0 \/ Z.max (total_digits_count st - p) 0 <> 0) /\
    (first_truncated_digit st = 0 \/ round = true) /\
    (0 <= p -> 10 ^ p < 2 ^ (dbits T - 1) -> 0 <= value st < 10 ^ p).
Proof.
  intros T s p round is_negative st H.
  assert (0 <= first_truncated_digit st <= 9 /\
          (first_truncated_digit st <> 0 -> round = true /\ p < total_digits_count st))
    as [Hr Hi].
  { unfold decimal_scan in H.
    destruct (decimal_sign _) as [neg s2].
    destruct (decimal_prefix s2) as [st0 s3] eqn:Epre.
    destruct (decimal_loop T p round s3 st0) as [st1|early] eqn:Eloop; [|discriminate].
    injection H as _ <-.
    eapply decimal_loop_truncated_digit; [|exact Eloop].
    destruct (decimal_prefix_fresh _ _ _ Epre) as (-> & _). split; [lia|].
    intros Hnz. contradiction. }
  split; [exact Hr|].
  split; [destruct (Z.eq_dec (first_truncated_digit st) 0) as [E | E];
          [left; exact E | right; destruct (Hi E); lia]|].
  split; [destruct (Z.eq_dec (first_truncated_digit st) 0) as [E | E];
          [left; exact E | right; destruct (Hi E); assumption]|].
  intros Hp Hfit.
  destruct (decimal_scan_inv T p round Hp Hfit s is_negative st H) as (Ht & _ & Hv & _).
  pose proof (pow10_le (Z.min (total_digits_count st) p) p ltac:(lia)). lia.
Qed.

Lemma parse_decimal_scan_assertions_witness :
  let st := mkScan true 1 3 5 false 0 5 1234 in
  decimal_scan Dec64 (bytes "12.345") 4 true = inl (false, st) /\
  (0 <= first_truncated_digit st <= 9) /\
  (first_truncated_digit st = 0 \/ Z.max (total_digits_count st - 4) 0 <> 0) /\
  (first_truncated_digit st = 0 \/ true = true) /\
  (0 <= 4 -> 10 ^ 4 < 2 ^ (dbits Dec64 - 1) -> 0 <= value st < 10 ^ 4).
Proof.
  split; [reflexivity|].
  apply (parse_decimal_scan_assertions Dec64 (bytes "12.345") 4 true false).
  reflexivity.
Defined.

(** X9: what [ApplyExponent] and the classification assert holds after every
    completed scan: the scale is non-negative and at most the precision; in
    the underflow branch the shift is non-negative; in the scale-up branch no
    digit was truncated. *)
Theorem parse_decimal_classification_assertions :
  forall (T : DecWidth) (s : span) (p sc : Z) (round is_negative : bool)
         (st : DecimalScan) (value0 precision scale : Z),
    decimal_scan T s p round = inl (is_negative, st) ->
    ApplyExponent T (total_digits_count st) (digits_after_dot_count st)
                  (exponent st) (value st) = (value0, precision, scale) ->
    0 <= scale <= precision /\
    (precision - scale <= p - sc -> sc < scale ->
       0 <= scale - Z.max (total_digits_count st - p) 0 - sc) /\
    (precision - scale <= p - sc -> scale < sc ->
       Z.max (total_digits_count st - p) 0 = 0).
Proof.
  intros T s p sc round is_negative st value0 precision scale Hscan Happ.
  pose proof (decimal_scan_total T s p round is_negative st Hscan) as Htot.
  apply ApplyExponent_cases in Happ.
  destruct Happ as [(H1 & H2 & H3 & _) | (H1 & H2 & H3 & _)]; repeat split; lia.
Qed.

Lemma parse_decimal_classification_assertions_witness :
  let st := mkScan true 1 3 5 true 1 5 1234 in
  decimal_scan Dec64 (bytes "12.345e1") 4 true = inl (false, st) /\
  ApplyExponent Dec64 5 3 1 1234 = (1234, 5, 2) /\
  0 <= 2 <= 5 /\
  (5 - 2 <= 4 - 1 -> 1 < 2 -> 0 <= 2 - Z.max (total_digits_count st - 4) 0 - 1) /\
  (5 - 2 <= 4 - 1 -> 2 < 1 -> Z.max (total_digits_count st - 4) 0 = 0).
Proof.
  split; [reflexivity|]. split; [reflexivity|].
  apply (parse_decimal_classification_assertions Dec64 (bytes "12.345e1") 4 1 true false
           (mkScan true 1 3 5 true 1 5 1234) 1234 5 2); reflexivity.
Defined.

(** ** Decimal parser: the counts do not depend on the precision *)

Lemma decimal_loop_counts : forall T p1 p2 round1 round2 s st1 st2,
  total_digits_count st1 = total_digits_count st2 ->
  digits_after_dot_count st1 = digits_after_dot_count st2 ->
  found_dot st1 = found_dot st2 ->
  found_exponent st1 = found_exponent st2 ->
  match decimal_loop T p1 round1 s st1, decimal_loop T p2 round2 s st2 with
  | inl a, inl b =>
      total_digits_count a = total_digits_count b /\
      digits_after_dot_count a = digits_after_dot_count b
  | inr x, inr y => x = y
  | _, _ => False
  end.
Proof.
  intros T p1 p2 round1 round2.
  induction s as [|c s IH]; intros st1 st2 Ht Hd Hf He.
  - cbn. split; assumption.
  - cbn [decimal_loop].
    destruct (is_digit c).
    + specialize (IH (accumulate_digit T p1 round1 st1 c)
                     (accumulate_digit T p2 round2 st2 c)).
      cbn in IH. specialize (IH ltac:(lia) ltac:(lia) Hf He).
      destruct (decimal_loop T p1 round1 s _), (decimal_loop T p2 round2 s _);
        try exact IH.
    + rewrite <- Hf. destruct (is_char c 46 && (found_dot st1 =? 0)).
      * specialize (IH (mkScan (found_value st1) 1 (digits_after_dot_count st1)
                          (total_digits_count st1) (found_exponent st1) (exponent st1)
                          (first_truncated_digit st1) (value st1))
                       (mkScan (found_value st2) 1 (digits_after_dot_count st2)
                          (total_digits_count st2) (found_exponent st2) (exponent st2)
                          (first_truncated_digit st2) (value st2))).
        cbn in IH. specialize (IH Ht Hd eq_refl He).
        destruct (decimal_loop T p1 round1 s _), (decimal_loop T p2 round2 s _);
          try exact IH.
      * rewrite <- He.
        destruct ((is_char c 101 || is_char c 69) && negb (found_exponent st1));
          [|reflexivity].
        destruct (StringToIntInternal Int8 s) as [e result].
        destruct (negb (ParseResult_eqb result PARSE_SUCCESS)).
        -- destruct (_ && _); reflexivity.
        -- cbn. split; assumption.
Qed.

(** ** Decimal parser: a literal with fewer fractional digits than the scale *)

Lemma decimal_scan_render : forall T p round v k,
  0 <= k <= p -> Z.abs v < 10 ^ p ->
  exists st,
    decimal_scan T (render_decimal v k) p round = inl (v <? 0, st) /\
    exponent st = 0 /\
    digits_after_dot_count st = k /\
    value st = castT T (Z.abs v) /\
    found_value st = true /\
    forall q, k <= q -> Z.abs v < 10 ^ q -> 0 <= total_digits_count st <= q.
Proof.
  intros T p round v k Hk Habs.
  destruct (render_magnitude_shape (Z.abs v) k ltac:(lia) ltac:(lia))
    as (Hnws & c & rest & Ehead & Hc).
  destruct (scan_render_magnitude T p round (Z.abs v) k Hk ltac:(lia))
    as (st0 & s3 & st & Epre & Eloop & Hexp & Hdad & Htot & Hval & Hfv).
  exists st.
  split.
  { unfold decimal_scan, render_decimal.
    rewrite trim_none.
    - destruct (v <? 0).
      + cbn [bytes list_ascii_of_string app decimal_sign].
        replace (is_minus "-") with true by reflexivity.
        rewrite Epre, Eloop. reflexivity.
      + cbn [app]. rewrite Ehead in *.
        assert (is_minus c = false /\ is_plus c = false) as [Hm Hp].
        { apply digit_or_dot_not_sign. unfold digit_or_dot. rewrite Hc. reflexivity. }
        unfold decimal_sign. rewrite Hm, Hp, Epre, Eloop. reflexivity.
    - rewrite forallb_app, Hnws. destruct (v <? 0); reflexivity. }
  do 4 (split; [assumption|]).
  intros q Hq Hvq.
  destruct (scan_render_magnitude T q round (Z.abs v) k ltac:(lia) ltac:(lia))
    as (st0' & s3' & st' & Epre' & Eloop' & _ & _ & Htot' & _).
  rewrite Epre in Epre'. injection Epre' as <- <-.
  pose proof (decimal_loop_counts T p q round round s3 st0 st0
                eq_refl eq_refl eq_refl eq_refl) as H.
  rewrite Eloop, Eloop' in H. destruct H as [H _]. lia.
Qed.

(** X10: the rendering of [v] with [k] fractional digits, [k] at most the
    type's scale, parses to [v] scaled up by [10^(type_scale - k)] with
    [PARSE_SUCCESS], when the integer digits fit the type. *)
Theorem parse_decimal_scales_up :
  forall (T : DecWidth) (p sc k : Z) (round : bool) (v : Z),
    0 <= k <= sc -> sc <= p ->
    10 ^ p < 2 ^ (dbits T - 1) ->
    Z.abs v < 10 ^ (p - sc + k) ->
    StringToDecimal T (render_decimal v k) p sc round
    = (v * 10 ^ (sc - k), PARSE_SUCCESS).
Proof.
  intros T p sc k round v Hk Hsc Hfit Habs.
  pose proof (pow10_le (p - sc + k) p ltac:(lia)) as Hle.
  destruct (decimal_scan_render T p round v k ltac:(lia) ltac:(lia))
    as (st & Hscan & Hexp & Hdad & Hval & Hfv & Htot).
  specialize (Htot (p - sc + k) ltac:(lia) Habs).
  unfold StringToDecimal. rewrite Hscan.
  unfold decimal_finish, ApplyExponent.
  rewrite Hexp, Hdad, Hval, Z.sub_0_r.
  replace (0 >? k) with false
    by (symmetry; rewrite Z.gtb_ltb; apply Z.ltb_ge; lia).
  unfold decimal_classify.
  match goal with |- context [?x - k >? p - sc] =>
    replace (x - k >? p - sc) with false
      by (symmetry; rewrite Z.gtb_ltb; apply Z.ltb_ge;
          destruct (total_digits_count st <? k); lia) end.
  replace (k >? sc) with false
    by (symmetry; rewrite Z.gtb_ltb; apply Z.ltb_ge; lia).
  rewrite Hfv. cbn [negb andb].
  pose proof (mul_pow10_bound (Z.abs v) (p - sc + k) (sc - k) p
                ltac:(lia) ltac:(lia) ltac:(lia) ltac:(lia)) as Hbound.
  pose proof (pow10_pos (sc - k) ltac:(lia)) as Hpos.
  assert (Z.abs v <= Z.abs v * 10 ^ (sc - k)) as Hmono.
  { rewrite <- (Z.mul_1_r (Z.abs v)) at 1. apply Z.mul_le_mono_nonneg_l; lia. }
  assert (castT T (Z.abs v) = Z.abs v) as Habs_id by (apply castT_id; lia).
  assert (Z.abs (v * 10 ^ (sc - k)) = Z.abs v * 10 ^ (sc - k)) as Habs_mul
    by (rewrite Z.abs_mul, (Z.abs_eq (10 ^ (sc - k))) by lia; reflexivity).
  assert (castT T (if v <? 0 then - (Z.abs v * 10 ^ (sc - k))
                   else Z.abs v * 10 ^ (sc - k)) = v * 10 ^ (sc - k)) as Hfinal.
  { rewrite castT_id by (destruct (v <? 0); lia).
    destruct (Z.ltb_spec v 0).
    - rewrite Z.abs_neq by lia. ring.
    - rewrite Z.abs_eq by lia. reflexivity. }
  destruct (sc >? k) eqn:E; bool_to_prop.
  - unfold GetScaleMultiplier.
    rewrite (castT_id T (10 ^ (sc - k)))
      by (pose proof (pow10_le (sc - k) p ltac:(lia)); lia).
    rewrite Habs_id, (castT_id T (Z.abs v * 10 ^ (sc - k))) by lia.
    rewrite Hfinal. reflexivity.
  - assert (sc - k = 0) as E0 by lia.
    rewrite E0 in Hfinal |- *. change (10 ^ 0) with 1 in Hfinal |- *.
    rewrite !Z.mul_1_r in Hfinal. rewrite Z.mul_1_r.
    rewrite Habs_id, Hfinal. reflexivity.
Qed.

Lemma parse_decimal_scales_up_witness :
  render_decimal (-125) 1 = bytes "-12.5" /\
  StringToDecimal Dec64 (render_decimal (-125) 1) 6 3 true
  = (-125 * 10 ^ (3 - 1), PARSE_SUCCESS).
Proof.
  split; [reflexivity|].
  apply (parse_decimal_scales_up Dec64 6 3 1 true (-125)); [lia | lia | reflexivity | reflexivity].
Defined.

(** ** Boolean parser *)

Lemma to_lower_letter : forall c k upper,
  97 <= k <= 122 -> upper = k - 32 ->
  (is_char c k || is_char c upper) = (to_lower c =? k).
Proof.
  intros c k upper Hk ->. unfold to_lower, is_char, is_upper.
  destruct ((65 <=? code c) && (code c <=? 90)) eqn:E; bool_to_prop.
  - destruct (Z.eqb_spec (code c) k); [lia|].
    destruct (Z.eqb_spec (code c) (k - 32)); destruct (Z.eqb_spec (code c + 32) k);
      try reflexivity; lia.
  - destruct (Z.eqb_spec (code c) (k - 32)).
    + destruct E; lia.
    + rewrite orb_false_r. reflexivity.
Qed.

Lemma letter_not_whitespace : forall c k,
  97 <= k <= 122 -> to_lower c = k -> IsWhitespace c = false.
Proof.
  intros c k Hk H. unfold to_lower, is_upper in H. unfold IsWhitespace, is_char.
  assert (65 <= code c).
  { destruct ((65 <=? code c) && (code c <=? 90)) eqn:E; bool_to_prop; lia. }
  repeat (apply orb_false_iff; split); apply Z.eqb_neq; lia.
Qed.

Lemma leading_whitespace_split : forall s,
  exists lead, s = lead ++ drop_leading_whitespace s /\ IsAllWhitespace lead = true.
Proof.
  induction s as [|c s (lead & E & H)]; [exists []; split; reflexivity|].
  cbn [drop_leading_whitespace]. destruct (IsWhitespace c) eqn:Ec.
  - exists (c :: lead). split; [cbn; f_equal; exact E|]. cbn. rewrite Ec. exact H.
  - exists []. split; reflexivity.
Qed.

Lemma StringToBoolInternal_whitespace_first : forall c s,
  IsWhitespace c = true -> StringToBoolInternal (c :: s) = (false, PARSE_FAILURE).
Proof.
  intros c s Hc. unfold StringToBoolInternal, is_letter, char_at. cbn [nth].
  assert (is_char c 116 || is_char c 84 = false) as ->.
  { rewrite (to_lower_letter c 116 84) by lia.
    destruct (Z.eqb_spec (to_lower c) 116) as [E|]; [|reflexivity].
    rewrite (letter_not_whitespace c 116 ltac:(lia) E) in Hc. discriminate. }
  assert (is_char c 102 || is_char c 70 = false) as ->.
  { rewrite (to_lower_letter c 102 70) by lia.
    destruct (Z.eqb_spec (to_lower c) 102) as [E|]; [|reflexivity].
    rewrite (letter_not_whitespace c 102 ltac:(lia) E) in Hc. discriminate. }
  rewrite !andb_false_r. reflexivity.
Qed.

Lemma StringToBool_trims : forall s,
  StringToBool s = StringToBoolInternal (drop_leading_whitespace s).
Proof.
  intros s. unfold StringToBool. rewrite skip_is_drop.
  destruct s as [|c s]; [reflexivity|].
  cbn [drop_leading_whitespace].
  destruct (IsWhitespace c) eqn:Ec.
  - rewrite (StringToBoolInternal_whitespace_first c s Ec). reflexivity.
  - destruct (StringToBoolInternal (c :: s)) as [ans result].
    destruct (ParseResult_eqb result PARSE_SUCCESS); reflexivity.
Qed.

(** What [StringToBoolInternal] returns, read on the letters. *)
Lemma StringToBoolInternal_spec : forall s,
  StringToBoolInternal s =
  match s with
  | a :: b :: c :: d :: rest =>
      if to_lower a =? 116 then
        if (to_lower b =? 114) && (to_lower c =? 117) && (to_lower d =? 101)
           && IsAllWhitespace rest
        then (true, PARSE_SUCCESS) else (false, PARSE_FAILURE)
      else
        match rest with
        | e :: rest' =>
            if (to_lower a =? 102) && (to_lower b =? 97) && (to_lower c =? 108)
               && (to_lower d =? 115) && (to_lower e =? 101)
               && IsAllWhitespace rest'
            then (false, PARSE_SUCCESS) else (false, PARSE_FAILURE)
        | [] => (false, PARSE_FAILURE)
        end
  | _ => (false, PARSE_FAILURE)
  end.
Proof.
  intros s. unfold StringToBoolInternal, is_letter, char_at.
  destruct s as [|a [|b [|c [|d rest]]]]; try reflexivity.
  cbn [nth skipn].
    rewrite <- (to_lower_letter a 116 84), <- (to_lower_letter b 114 82),
            <- (to_lower_letter c 117 85), <- (to_lower_letter d 101 69),
            <- (to_lower_letter a 102 70), <- (to_lower_letter b 97 65),
            <- (to_lower_letter c 108 76), <- (to_lower_letter d 115 83) by lia.
    replace (4 <=? Z.of_nat (length (a :: b :: c :: d :: rest))) with true
      by (symmetry; apply Z.leb_le; cbn [length]; lia).
    cbn [andb].
    destruct (is_char a 116 || is_char a 84); [reflexivity|].
    destruct rest as [|e rest'].
  - replace (5 <=? Z.of_nat (length [a; b; c; d])) with false by reflexivity.
      reflexivity.
  - cbn [nth skipn]. rewrite <- (to_lower_letter e 101 69) by lia.
      replace (5 <=? Z.of_nat (length (a :: b :: c :: d :: e :: rest'))) with true
        by (symmetry; apply Z.leb_le; cbn [length]; lia).
      cbn [andb].
      destruct (is_char a 102 || is_char a 70); [|reflexivity].
      cbn [andb]. rewrite <- !andb_assoc. reflexivity.
Qed.

Lemma spells_trimmed : forall k word s,
  97 <= k <= 122 ->
  (spells (k :: word) s <->
   exists letters trail,
     drop_leading_whitespace s = letters ++ trail /\
     IsAllWhitespace trail = true /\ map to_lower letters = k :: word).
Proof.
  intros k word s Hk. split.
  - intros (lead & letters & trail & -> & Hlead & Htrail & Hmap).
    exists letters, trail. repeat split; try assumption.
    rewrite drop_leading_whitespace_all by exact Hlead.
    destruct letters as [|a letters]; [discriminate|].
    injection Hmap as Ha _.
    cbn. rewrite (letter_not_whitespace a k Hk Ha). reflexivity.
  - intros (letters & trail & E & Htrail & Hmap).
    destruct (leading_whitespace_split s) as (lead & Es & Hlead).
    exists lead, letters, trail. rewrite <- E. repeat split; assumption.
Qed.

Lemma StringToBoolInternal_true : forall s,
  StringToBoolInternal s = (true, PARSE_SUCCESS) <->
  exists letters trail,
    s = letters ++ trail /\ IsAllWhitespace trail = true /\
    map to_lower letters = [116; 114; 117; 101].
Proof.
  intros s. rewrite StringToBoolInternal_spec. split.
  - destruct s as [|a [|b [|c [|d rest]]]]; try discriminate.
    destruct (Z.eqb_spec (to_lower a) 116) as [Ea|].
    + destruct (Z.eqb_spec (to_lower b) 114) as [Eb|]; [|discriminate].
      destruct (Z.eqb_spec (to_lower c) 117) as [Ec|]; [|discriminate].
      destruct (Z.eqb_spec (to_lower d) 101) as [Ed|]; [|discriminate].
      destruct (IsAllWhitespace rest) eqn:Er; [|discriminate].
      intros _. exists [a; b; c; d], rest. cbn. rewrite Ea, Eb, Ec, Ed.
      repeat split; (reflexivity || assumption).
    + destruct rest as [|e rest']; [discriminate|].
      destruct (_ && _); discriminate.
  - intros (letters & trail & -> & Htrail & Hmap).
    destruct letters as [|a [|b [|c [|d [|e letters]]]]]; try discriminate.
    injection Hmap as Ea Eb Ec Ed. cbn [app].
    rewrite Ea, Eb, Ec, Ed, Htrail. reflexivity.
Qed.

Lemma StringToBoolInternal_false : forall s,
  StringToBoolInternal s = (false, PARSE_SUCCESS) <->
  exists letters trail,
    s = letters ++ trail /\ IsAllWhitespace trail = true /\
    map to_lower letters = [102; 97; 108; 115; 101].
Proof.
  intros s. rewrite StringToBoolInternal_spec. split.
  - destruct s as [|a [|b [|c [|d rest]]]]; try discriminate.
    destruct (Z.eqb_spec (to_lower a) 116) as [Ea|].
    + destruct (_ && _); discriminate.
    + destruct rest as [|e rest']; [discriminate|].
      destruct (Z.eqb_spec (to_lower a) 102) as [Ea'|]; [|discriminate].
      destruct (Z.eqb_spec (to_lower b) 97) as [Eb|]; [|discriminate].
      destruct (Z.eqb_spec (to_lower c) 108) as [Ec|]; [|discriminate].
      destruct (Z.eqb_spec (to_lower d) 115) as [Ed|]; [|discriminate].
      destruct (Z.eqb_spec (to_lower e) 101) as [Ee|]; [|discriminate].
      destruct (IsAllWhitespace rest') eqn:Er; [|discriminate].
      intros _. exists [a; b; c; d; e], rest'. cbn. rewrite Ea', Eb, Ec, Ed, Ee.
      repeat split; (reflexivity || assumption).
  - intros (letters & trail & -> & Htrail & Hmap).
    destruct letters as [|a [|b [|c [|d [|e [|f letters]]]]]]; try discriminate.
    injection Hmap as Ea Eb Ec Ed Ee. cbn [app].
    rewrite Ea, Eb, Ec, Ed, Ee, Htrail. reflexivity.
Qed.

Lemma StringToBoolInternal_outcomes : forall s,
  StringToBoolInternal s = (true, PARSE_SUCCESS) \/
  StringToBoolInternal s = (false, PARSE_SUCCESS) \/
  StringToBoolInternal s = (false, PARSE_FAILURE).
Proof.
  intros s. rewrite StringToBoolInternal_spec.
  destruct s as [|a [|b [|c [|d rest]]]]; auto.
  destruct (to_lower a =? 116).
  - destruct (_ && _); auto.
  - destruct rest as [|e rest']; auto. destruct (_ && _); auto.
Qed.

(** X11: [StringToBool] returns [true] with [PARSE_SUCCESS] exactly on the
    inputs that spell [true] in any letter case between runs of whitespace,
    [false] with [PARSE_SUCCESS] exactly on those that spell [false], and
    [false] with [PARSE_FAILURE] on every other input. *)
Theorem parse_bool_spec : forall s : span,
  (StringToBool s = (true, PARSE_SUCCESS) <-> spells [116; 114; 117; 101] s) /\
  (StringToBool s = (false, PARSE_SUCCESS) <-> spells [102; 97; 108; 115; 101] s) /\
  (~ spells [116; 114; 117; 101] s -> ~ spells [102; 97; 108; 115; 101] s ->
   StringToBool s = (false, PARSE_FAILURE)).
Proof.
  intros s. rewrite StringToBool_trims.
  rewrite (spells_trimmed 116) by lia. rewrite (spells_trimmed 102) by lia.
  rewrite <- StringToBoolInternal_true, <- StringToBoolInternal_false.
  split; [reflexivity|]. split; [reflexivity|].
  intros Ht Hf.
  destruct (StringToBoolInternal_outcomes (drop_leading_whitespace s)) as [H | [H | H]];
    [contradiction | contradiction | exact H].
Qed.

Lemma parse_bool_spec_witness :
  StringToBool (bytes " TrUe ") = (true, PARSE_SUCCESS) /\
  StringToBool (bytes "FALSE") = (false, PARSE_SUCCESS).
Proof.
  split.
  - apply (proj1 (parse_bool_spec (bytes " TrUe "))).
    exists (bytes " "), (bytes "TrUe"), (bytes " "). repeat split; reflexivity.
  - apply (proj1 (proj2 (parse_bool_spec (bytes "FALSE")))).
    exists [], (bytes "FALSE"), []. repeat split; reflexivity.
Defined.

(** ** A failure carries the value zero *)

Lemma Int_loop_failure : forall w negative M q r s at_first val v,
  Int_loop w negative M q r at_first val s = (v, PARSE_FAILURE) -> v = 0.
Proof.
  induction s as [|c s IH]; intros at_first val v H.
  - discriminate.
  - cbn [Int_loop] in H. destruct (is_digit c).
    + destruct (exceeds _ _ _); [discriminate|]. eapply IH. exact H.
    + destruct (at_first || negb (IsAllWhitespace (c :: s)));
        [injection H as <-; reflexivity | discriminate].
Qed.

Lemma Base_loop_failure : forall w base negative M q r s at_first val v,
  Base_loop w base negative M q r at_first val s = (v, PARSE_FAILURE) -> v = 0.
Proof.
  induction s as [|c s IH]; intros at_first val v H.
  - discriminate.
  - cbn [Base_loop] in H. destruct (digit_value c) as [d|].
    + destruct (d >=? base); [discriminate|].
      destruct (exceeds _ _ _); [discriminate|]. eapply IH. exact H.
    + destruct (at_first || negb (IsAllWhitespace (c :: s)));
        [injection H as <-; reflexivity | discriminate].
Qed.

Lemma decimal_loop_no_digit : forall T p round s st st',
  (found_value st = false -> value st = 0) ->
  decimal_loop T p round s st = inl st' ->
  (found_value st' = false -> value st' = 0).
Proof.
  induction s as [|c s IH]; intros st st' Hinv Hloop.
  - injection Hloop as <-. exact Hinv.
  - cbn [decimal_loop] in Hloop.
    destruct (is_digit c).
    + eapply IH; [|exact Hloop]. cbn. discriminate.
    + destruct (is_char c 46 && (found_dot st =? 0)).
      * eapply IH; [|exact Hloop]. exact Hinv.
      * destruct ((is_char c 101 || is_char c 69) && negb (found_exponent st));
          [|discriminate].
        destruct (StringToIntInternal Int8 s) as [e result].
        destruct (negb (ParseResult_eqb result PARSE_SUCCESS)).
        -- destruct (_ && _); discriminate.
        -- injection Hloop as <-. exact Hinv.
Qed.

(** X12: with [PARSE_FAILURE] the integer parsers and the decimal parser
    return zero, and the boolean parser [false]. *)
Theorem parse_failure_returns_zero :
  (forall w s v, StringToInt w s = (v, PARSE_FAILURE) -> v = 0) /\
  (forall w s base v, StringToIntBase w s base = Some (v, PARSE_FAILURE) -> v = 0) /\
  (forall s b, StringToBool s = (b, PARSE_FAILURE) -> b = false) /\
  (forall T s p sc round v,
     StringToDecimal T s p sc round = (v, PARSE_FAILURE) -> v = 0).
Proof.
  split; [|split; [|split]].
  - intros w s v H. rewrite StringToInt_trims, checked_path_eq in H.
    unfold StringToIntInternal_checked in H.
    destruct (drop_leading_whitespace s) as [|c t];
      [injection H as <-; reflexivity|].
    eapply Int_loop_failure. exact H.
  - intros w s base v H.
    assert (forall t, StringToIntInternalBase w t base = Some (v, PARSE_FAILURE) -> v = 0)
      as Hint.
    { intros t Ht. unfold StringToIntInternalBase in Ht.
      destruct t as [|c t]; [injection Ht as <-; reflexivity|].
      destruct (converted_base w base =? 0); [discriminate|].
      injection Ht as Ht. eapply Base_loop_failure. exact Ht. }
    unfold StringToIntBase in H.
    destruct (StringToIntInternalBase w s base) as [[ans result]|] eqn:E; [|discriminate].
    destruct result; cbn in H; try (apply Hint in H; exact H).
    discriminate.
  - intros s b H. rewrite StringToBool_trims in H.
    destruct (StringToBoolInternal_outcomes (drop_leading_whitespace s)) as [E | [E | E]];
      rewrite E in H; try discriminate.
    injection H as <-. reflexivity.
  - intros T s p sc round v H. unfold StringToDecimal in H.
    destruct (decimal_scan T s p round) as [[is_negative st]|[x r]] eqn:Hscan.
    + assert (found_value st = false -> value st = 0) as Hinv.
      { unfold decimal_scan in Hscan.
        destruct (decimal_sign _) as [neg s2].
        destruct (decimal_prefix s2) as [st0 s3] eqn:Epre.
        destruct (decimal_loop T p round s3 st0) as [st1|early] eqn:Eloop; [|discriminate].
        injection Hscan as _ <-.
        eapply decimal_loop_no_digit; [|exact Eloop].
        destruct (decimal_prefix_fresh _ _ _ Epre) as (_ & -> & _). reflexivity. }
      unfold decimal_finish in H.
      destruct (ApplyExponent _ _ _ _ _) as [[value0 precision] scale] eqn:Happ.
      destruct (decimal_classify _ _ _ _ _ _ _ _ _) as [value1 result] eqn:Hcls.
      injection H as <- ->.
      unfold decimal_classify in Hcls.
      destruct (precision - scale >? p - sc); [discriminate|].
      destruct (scale >? sc).
      { destruct (_ >? 0); [discriminate|]. destruct (_ =? _); discriminate. }
      destruct (negb (found_value st) && (found_dot st =? 0)) eqn:Ef.
      2:{ destruct (sc >? scale); discriminate. }
      injection Hcls as <-.
      apply andb_true_iff in Ef as [Ef _]. apply negb_true_iff in Ef.
      rewrite (Hinv Ef) in Happ.
      apply ApplyExponent_cases in Happ.
      destruct Happ as [(_ & _ & _ & ->) | (_ & _ & _ & ->)].
      * rewrite Z.mul_0_l, castT_zero. destruct is_negative; apply castT_zero.
      * destruct is_negative; apply castT_zero.
    + injection H as -> ->. unfold decimal_scan in Hscan.
      destruct (decimal_sign _) as [neg s2].
      destruct (decimal_prefix s2) as [st0 s3].
      destruct (decimal_loop T p round s3 st0) as [st1|early] eqn:Eloop; [discriminate|].
      injection Hscan as ->. eapply decimal_loop_early_zero. exact Eloop.
Qed.

Lemma parse_failure_returns_zero_witness :
  fst (StringToInt Int32 (bytes "12x")) = 0 /\
  fst (StringToDecimal Dec64 (bytes "1.2.3") 5 2 true) = 0.
Proof.
  split.
  - apply (proj1 parse_failure_returns_zero Int32 (bytes "12x")). reflexivity.
  - apply (proj2 (proj2 (proj2 parse_failure_returns_zero)) Dec64 (bytes "1.2.3") 5 2 true).
    reflexivity.
Defined.

(** ** Decimal parser: a success fits the declared precision *)

(** X13: a [PARSE_SUCCESS] of [StringToDecimal] means that the type's scale
    lies between zero and its precision, and that the value is below
    [10^type_precision] in magnitude. *)
Theorem parse_decimal_success_fits :
  forall (T : DecWidth) (s : span) (p sc : Z) (round : bool) (v : Z),
    StringToDecimal T s p sc round = (v, PARSE_SUCCESS) ->
    0 <= sc <= p /\ Z.abs v < 10 ^ p.
Proof.
  intros T s p sc round v H.
  destruct (success_bounds T s p sc round v H) as (Hsc & Hfix & Habs).
  split; assumption.
Qed.

Lemma parse_decimal_success_fits_witness :
  StringToDecimal Dec64 (bytes "12.5") 6 2 true = (1250, PARSE_SUCCESS) /\
  0 <= 2 <= 6 /\ Z.abs 1250 < 10 ^ 6.
Proof.
  split; [reflexivity|].
  apply (parse_decimal_success_fits Dec64 (bytes "12.5") 6 2 true 1250). reflexivity.
Defined.

(** ** Integer parser: trailing whitespace and the bare sign *)

Lemma Int_loop_trailing : forall w negative M q r trail x at_first val,
  IsAllWhitespace trail = true ->
  (at_first = true -> x <> []) ->
  Int_loop w negative M q r at_first val (x ++ trail)
  = Int_loop w negative M q r at_first val x.
Proof.
  intros w negative M q r trail.
  induction x as [|c x IH]; intros at_first val Htrail Hfirst.
  - destruct at_first; [exfalso; apply Hfirst; reflexivity|].
    cbn [app]. apply Int_loop_whitespace. exact Htrail.
  - cbn [app Int_loop]. destruct (is_digit c).
    + destruct (exceeds _ _ _); [reflexivity|].
      apply IH; [exact Htrail | discriminate].
    + change (c :: x ++ trail) with ((c :: x) ++ trail).
      rewrite IsAllWhitespace_app, Htrail, andb_true_r. reflexivity.
Qed.

(** X14: [StringToInt] ignores trailing whitespace, except after a bare
    sign: a sign alone parses as zero, a sign followed by whitespace is a
    [PARSE_FAILURE]. *)
Theorem parse_int_trailing_whitespace :
  (forall (w : IntWidth) (s trail : span),
     IsAllWhitespace trail = true ->
     drop_leading_whitespace s <> bytes "+" ->
     drop_leading_whitespace s <> bytes "-" ->
     StringToInt w (s ++ trail) = StringToInt w s)
  /\ (forall (w : IntWidth) (lead sign trail : span),
        IsAllWhitespace lead = true ->
        sign = bytes "+" \/ sign = bytes "-" ->
        IsAllWhitespace trail = true -> trail <> [] ->
        StringToInt w (lead ++ sign) = (0, PARSE_SUCCESS) /\
        StringToInt w (lead ++ sign ++ trail) = (0, PARSE_FAILURE)).
Proof.
  split.
  - intros w s trail Htrail Hplus Hminus.
    rewrite !StringToInt_trims, drop_leading_whitespace_app by exact Htrail.
    destruct (drop_leading_whitespace s) as [|c t] eqn:E; [reflexivity|].
    rewrite !checked_path_eq.
    unfold StringToIntInternal_checked. cbn [app].
    unfold sign_len.
    destruct (is_minus c || is_plus c) eqn:Es.
    + cbn [skipn]. apply Int_loop_trailing; [exact Htrail|].
      intros _ ->.
      unfold is_minus, is_plus, is_char in Es. bool_to_prop.
      destruct Es as [Es | Es]; bool_to_prop.
      * apply Hminus. unfold code in Es.
        apply (f_equal Z.to_N) in Es. rewrite N2Z.id in Es.
        apply (f_equal ascii_of_N) in Es. rewrite ascii_N_embedding in Es.
        rewrite Es. reflexivity.
      * apply Hplus. unfold code in Es.
        apply (f_equal Z.to_N) in Es. rewrite N2Z.id in Es.
        apply (f_equal ascii_of_N) in Es. rewrite ascii_N_embedding in Es.
        rewrite Es. reflexivity.
    + cbn [skipn]. change (c :: t ++ trail) with ((c :: t) ++ trail).
      apply Int_loop_trailing; [exact Htrail | discriminate].
  - intros w lead sign trail Hlead Hsign Htrail Hne.
    rewrite !StringToInt_trims, !drop_leading_whitespace_all by exact Hlead.
    destruct trail as [|c trail]; [contradiction|].
    cbn in Htrail. destruct (IsWhitespace c) eqn:Ec; [|discriminate].
    rewrite !checked_path_eq.
    destruct Hsign as [-> | ->]; cbn [bytes list_ascii_of_string app drop_leading_whitespace].
    + replace (IsWhitespace "+") with false by reflexivity.
      unfold StringToIntInternal_checked.
      replace (sign_len "+") with 1%nat by reflexivity. cbn [skipn Int_loop].
      rewrite (whitespace_is_not_digit c Ec), signed_result_zero. split; reflexivity.
    + replace (IsWhitespace "-") with false by reflexivity.
      unfold StringToIntInternal_checked.
      replace (sign_len "-") with 1%nat by reflexivity. cbn [skipn Int_loop].
      rewrite (whitespace_is_not_digit c Ec), signed_result_zero. split; reflexivity.
Qed.

Lemma parse_int_trailing_whitespace_witness :
  StringToInt Int32 (bytes " 12" ++ bytes "  ") = StringToInt Int32 (bytes " 12") /\
  StringToInt Int32 (bytes " " ++ bytes "+") = (0, PARSE_SUCCESS) /\
  StringToInt Int32 (bytes " " ++ bytes "+" ++ bytes " ") = (0, PARSE_FAILURE).
Proof.
  split.
  - apply (proj1 parse_int_trailing_whitespace Int32 (bytes " 12") (bytes "  "));
      [reflexivity | discriminate | discriminate].
  - apply (proj2 parse_int_trailing_whitespace Int32 (bytes " ") (bytes "+") (bytes " "));
      [reflexivity | left; reflexivity | reflexivity | discriminate].
Defined.

(** ** Floating-point parser: signs, infinities and NaN *)

Lemma binary_round_opp : forall prec emax sx mx ex,
  SFopp (binary_round prec emax sx mx ex) = binary_round prec emax (negb sx) mx ex.
Proof.
  intros prec emax sx mx ex. unfold binary_round.
  destruct (shl_align _ _ _) as [mz ez]. unfold binary_round_aux.
  destruct (shr_fexp prec emax (Z.pos mz) ez loc_Exact) as [mrs' e'].
  destruct (shr_fexp prec emax _ e' loc_Exact) as [mrs'' e''].
  destruct (shr_m mrs''); try reflexivity.
  destruct (e'' <=? emax - prec); reflexivity.
Qed.

Lemma castF_opp : forall T v, castF T (SFopp v) = SFopp (castF T v).
Proof.
  intros [] v; [|reflexivity].
  destruct v as [s | s | | s m e]; try reflexivity.
  cbn [castF SFopp]. unfold binary_normalize.
  destruct s; cbn [cond_Zopp negb Z.opp].
  - rewrite binary_round_opp. reflexivity.
  - rewrite binary_round_opp. reflexivity.
Qed.

Lemma whitespace_not_letter : forall c k,
  97 <= k <= 122 -> IsWhitespace c = true -> (to_lower c =? k) = false.
Proof.
  intros c k Hk Hc. destruct (Z.eqb_spec (to_lower c) k) as [E|]; [|reflexivity].
  rewrite (letter_not_whitespace c k Hk E) in Hc. discriminate.
Qed.

Lemma whitespace_not_dot_or_exponent : forall c,
  IsWhitespace c = true ->
  is_char c 46 = false /\ is_char c 101 = false /\ is_char c 69 = false.
Proof.
  unfold IsWhitespace, is_char. intros c H.
  assert (code c = 32 \/ 9 <= code c <= 13) as Hc.
  { bool_to_prop. destruct H as [H | H]; bool_to_prop; [lia|].
    repeat (destruct H as [H | H]; bool_to_prop; try lia). }
  repeat split; apply Z.eqb_neq; lia.
Qed.

Lemma StringToFloatInternal_whitespace_first : forall strtod T c s,
  IsWhitespace c = true ->
  StringToFloatInternal strtod T (c :: s) = (S754_zero false, PARSE_FAILURE).
Proof.
  intros strtod T c s Hc.
  destruct (whitespace_not_sign c Hc) as [Hl Hm].
  destruct (whitespace_not_dot_or_exponent c Hc) as (Hd & He1 & He2).
  unfold StringToFloatInternal. rewrite Hl, Hm. cbn [skipn].
  unfold IsInfinity, IsNaN. cbn [matches_ignoring_case].
  rewrite (whitespace_not_letter c 105), (whitespace_not_letter c 110) by (assumption || lia).
  rewrite !andb_false_r. cbn [andb].
  cbn [Float_loop decimal negb]. rewrite (whitespace_is_not_digit c Hc), Hd, He1, He2.
  reflexivity.
Qed.

Lemma StringToFloat_trims : forall strtod T s,
  StringToFloat strtod T s = StringToFloatInternal strtod T (drop_leading_whitespace s).
Proof.
  intros strtod T s. unfold StringToFloat. rewrite skip_is_drop.
  destruct s as [|c s]; [reflexivity|].
  cbn [drop_leading_whitespace].
  destruct (IsWhitespace c) eqn:Ec.
  - rewrite (StringToFloatInternal_whitespace_first strtod T c s Ec). reflexivity.
  - destruct (StringToFloatInternal strtod T (c :: s)) as [ans result].
    destruct (ParseResult_eqb result PARSE_SUCCESS); reflexivity.
Qed.

(** X15: a leading [-] negates the value [StringToFloat] returns for the
    rest of the input and keeps its status; with [PARSE_FAILURE] the value is
    returned as it is. *)
Theorem parse_float_negation :
  forall (strtod : span -> spec_float * nat) (T : FloatWidth) (c : ascii) (s : span),
    IsWhitespace c = false -> is_minus c = false -> is_plus c = false ->
    StringToFloat strtod T (bytes "-" ++ c :: s) =
    (let '(v, result) := StringToFloat strtod T (c :: s) in
     ((if ParseResult_eqb result PARSE_FAILURE then v else SFopp v), result)).
Proof.
  intros strtod T c s Hw Hm Hp.
  rewrite !StringToFloat_trims.
  cbn [bytes list_ascii_of_string app drop_leading_whitespace].
  replace (IsWhitespace "-") with false by reflexivity. rewrite Hw.
  unfold StringToFloatInternal.
  replace (is_minus "-") with true by reflexivity.
  replace (sign_len "-") with 1%nat by reflexivity.
  assert (sign_len c = 0%nat) as -> by (unfold sign_len; rewrite Hm, Hp; reflexivity).
  rewrite Hm. cbn [skipn].
  destruct (IsInfinity (c :: s)); [rewrite castF_opp; reflexivity|].
  destruct (IsNaN (c :: s)); [rewrite castF_opp; reflexivity|].
  destruct (Float_loop true (c :: s) _) as [[st remaining]|]; [|reflexivity].
  destruct (at_exponent_marker remaining).
  - destruct (strtod (c :: s)) as [val2 consumed].
    destruct (negb (Nat.eqb consumed (length (c :: s)))
              && negb (IsAllWhitespace (skipn consumed (c :: s)))); [reflexivity|].
    rewrite castF_opp. destruct (equals_infinity T val2); reflexivity.
  - rewrite castF_opp. destruct (equals_infinity T _); reflexivity.
Qed.

Lemma parse_float_negation_witness :
  let strtod := fun _ : span => (S754_zero false, 0%nat) in
  StringToFloat strtod Float64 (bytes "12.5") =
    (S754_finite false 7036874417766400 (-49), PARSE_SUCCESS) /\
  StringToFloat strtod Float64 (bytes "-12.5") =
    (S754_finite true 7036874417766400 (-49), PARSE_SUCCESS).
Proof.
  split; [reflexivity|].
  apply (eq_trans
           (parse_float_negation (fun _ => (S754_zero false, 0%nat)) Float64
              "1"%char (bytes "2.5") eq_refl eq_refl eq_refl)).
  reflexivity.
Defined.

Lemma letter_not_sign : forall c k,
  97 <= k <= 122 -> to_lower c = k ->
  sign_len c = 0%nat /\ is_minus c = false.
Proof.
  intros c k Hk H. unfold to_lower, is_upper in H.
  unfold sign_len, is_minus, is_plus, is_char.
  assert (65 <= code c).
  { destruct ((65 <=? code c) && (code c <=? 90)) eqn:E; bool_to_prop; lia. }
  replace (code c =? 45) with false by (symmetry; apply Z.eqb_neq; lia).
  replace (code c =? 43) with false by (symmetry; apply Z.eqb_neq; lia).
  split; reflexivity.
Qed.

Lemma not_matching_whitespace : forall k word trail,
  97 <= k <= 122 -> IsAllWhitespace trail = true ->
  matches_ignoring_case (k :: word) trail = false.
Proof.
  intros k word [|c trail] Hk H; [reflexivity|].
  cbn in H. destruct (IsWhitespace c) eqn:Ec; [|discriminate].
  cbn. rewrite (whitespace_not_letter c k Hk Ec). reflexivity.
Qed.

Lemma IsInfinity_spelled : forall word trail,
  IsAllWhitespace trail = true ->
  map to_lower word = [105; 110; 102] \/
  map to_lower word = [105; 110; 102; 105; 110; 105; 116; 121] ->
  IsInfinity (word ++ trail) = true.
Proof.
  intros word trail Htrail [H | H].
  - destruct word as [|a [|b [|c [|d word]]]]; try discriminate.
    injection H as Ea Eb Ec.
    unfold IsInfinity. cbn [app skipn].
    rewrite (not_matching_whitespace 105 _ trail) by (assumption || lia).
    cbn [matches_ignoring_case].
    rewrite Ea, Eb, Ec. cbn [Z.eqb Pos.eqb andb].
    replace (3 <=? Z.of_nat (length (a :: b :: c :: trail))) with true
      by (symmetry; apply Z.leb_le; cbn [length]; lia).
    rewrite andb_false_r. cbn [andb skipn]. exact Htrail.
  - destruct word as [|a [|b [|c [|d [|e [|f [|g [|h [|i word]]]]]]]]]; try discriminate.
    injection H as Ea Eb Ec Ed Ee Ef Eg Eh.
    unfold IsInfinity. cbn [app matches_ignoring_case skipn].
    rewrite Ea, Eb, Ec, Ed, Ee, Ef, Eg, Eh. cbn [Z.eqb Pos.eqb andb].
    replace (3 <=? Z.of_nat (length (a :: b :: c :: d :: e :: f :: g :: h :: trail)))
      with true by (symmetry; apply Z.leb_le; cbn [length]; lia).
    replace (8 <=? Z.of_nat (length (a :: b :: c :: d :: e :: f :: g :: h :: trail)))
      with true by (symmetry; apply Z.leb_le; cbn [length]; lia).
    cbn [andb skipn]. exact Htrail.
Qed.

Lemma IsNaN_spelled : forall word trail,
  IsAllWhitespace trail = true ->
  map to_lower word = [110; 97; 110] ->
  IsInfinity (word ++ trail) = false /\ IsNaN (word ++ trail) = true.
Proof.
  intros word trail Htrail H.
  destruct word as [|a [|b [|c [|d word]]]]; try discriminate.
  injection H as Ea Eb Ec.
  unfold IsInfinity, IsNaN. cbn [app matches_ignoring_case skipn].
  rewrite Ea, Eb, Ec. cbn [Z.eqb Pos.eqb andb].
  replace (3 <=? Z.of_nat (length (a :: b :: c :: trail))) with true
    by (symmetry; apply Z.leb_le; cbn [length]; lia).
  cbn [andb]. split; [reflexivity | exact Htrail].
Qed.

(** X16: [inf] and [infinity], in any letter case, with an optional sign and
    surrounding whitespace, parse as the infinity of that sign with
    [PARSE_SUCCESS]; [nan] likewise parses as a NaN. *)
Theorem parse_float_special_values :
  forall (strtod : span -> spec_float * nat) (T : FloatWidth)
         (lead sign word trail : span),
    IsAllWhitespace lead = true -> is_sign_prefix sign ->
    IsAllWhitespace trail = true ->
    (map to_lower word = [105; 110; 102] \/
     map to_lower word = [105; 110; 102; 105; 110; 105; 116; 121] ->
     StringToFloat strtod T (lead ++ sign ++ word ++ trail) =
       (S754_infinity (sign_is_minus sign), PARSE_SUCCESS)) /\
    (map to_lower word = [110; 97; 110] ->
     StringToFloat strtod T (lead ++ sign ++ word ++ trail) =
       (S754_nan, PARSE_SUCCESS)).
Proof.
  intros strtod T lead sign word trail Hlead Hsign Htrail.
  assert (forall k rest, 97 <= k <= 122 -> map to_lower word = k :: rest ->
            StringToFloat strtod T (lead ++ sign ++ word ++ trail) =
            let negative := sign_is_minus sign in
            if IsInfinity (word ++ trail) then
              (castF T (if negative then SFopp infinity else infinity), PARSE_SUCCESS)
            else if IsNaN (word ++ trail) then
              (castF T (if negative then SFopp quiet_NaN else quiet_NaN), PARSE_SUCCESS)
            else StringToFloat strtod T (lead ++ sign ++ word ++ trail)) as Hshape.
  { intros k rest Hk Hword.
    destruct word as [|a word]; [discriminate|]. injection Hword as Ha _.
    destruct (letter_not_sign a k Hk Ha) as [Hl Hm].
    pose proof (letter_not_whitespace a k Hk Ha) as Hw.
    rewrite StringToFloat_trims, drop_leading_whitespace_all by exact Hlead.
    rewrite (sign_prefix_no_whitespace sign ((a :: word) ++ trail) Hsign)
      by (destruct sign; [exact Hw | exact I]).
    cbv zeta.
    destruct Hsign as [-> | [-> | ->]].
    - unfold StringToFloatInternal. cbn [app sign_is_minus]. rewrite Hl, Hm. cbn [skipn].
      destruct (IsInfinity (a :: word ++ trail)); [reflexivity|].
      destruct (IsNaN (a :: word ++ trail)); reflexivity.
    - unfold StringToFloatInternal. cbn [bytes list_ascii_of_string app sign_is_minus].
      replace (is_minus "+") with false by reflexivity.
      replace (sign_len "+") with 1%nat by reflexivity. cbn [skipn].
      destruct (IsInfinity (a :: word ++ trail)); [reflexivity|].
      destruct (IsNaN (a :: word ++ trail)); reflexivity.
    - unfold StringToFloatInternal. cbn [bytes list_ascii_of_string app sign_is_minus].
      replace (is_minus "-") with true by reflexivity.
      replace (sign_len "-") with 1%nat by reflexivity. cbn [skipn].
      destruct (IsInfinity (a :: word ++ trail)); [reflexivity|].
      destruct (IsNaN (a :: word ++ trail)); reflexivity. }
  split.
  - intros Hword.
    assert (exists rest, map to_lower word = 105 :: rest) as [rest Hr]
      by (destruct Hword as [-> | ->]; eexists; reflexivity).
    rewrite (Hshape 105 rest ltac:(lia) Hr).
    rewrite (IsInfinity_spelled word trail Htrail Hword). cbv zeta.
    destruct T, (sign_is_minus sign); reflexivity.
  - intros Hword.
    rewrite (Hshape 110 _ ltac:(lia) Hword).
    destruct (IsNaN_spelled word trail Htrail Hword) as [-> ->]. cbv zeta.
    destruct T, (sign_is_minus sign); reflexivity.
Qed.

Lemma parse_float_special_values_witness :
  let strtod := fun _ : span => (S754_zero false, 0%nat) in
  StringToFloat strtod Float32 (bytes " -InFiNiTy ") = (S754_infinity true, PARSE_SUCCESS) /\
  StringToFloat strtod Float32 (bytes "+NaN ") = (S754_nan, PARSE_SUCCESS).
Proof.
  split.
  - apply (proj1 (parse_float_special_values (fun _ => (S754_zero false, 0%nat)) Float32
                    (bytes " ") (bytes "-") (bytes "InFiNiTy") (bytes " ")
                    eq_refl (or_intror (or_intror eq_refl)) eq_refl)).
    right. reflexivity.
  - apply (proj2 (parse_float_special_values (fun _ => (S754_zero false, 0%nat)) Float32
                    [] (bytes "+") (bytes "NaN") (bytes " ")
                    eq_refl (or_intror (or_introl eq_refl)) eq_refl)).
    reflexivity.
Defined.

(** ** Leading whitespace *)

(** X17: the integer, boolean and floating-point entry points ignore leading
    whitespace. *)
Theorem leading_whitespace_is_ignored :
  forall (strtod : span -> spec_float * nat) (w : IntWidth) (T : FloatWidth)
         (base : Z) (lead s : span),
    IsAllWhitespace lead = true -> 2 <= base <= 36 ->
    StringToInt w (lead ++ s) = StringToInt w s /\
    StringToIntBase w (lead ++ s) base = StringToIntBase w s base /\
    StringToBool (lead ++ s) = StringToBool s /\
    StringToFloat strtod T (lead ++ s) = StringToFloat strtod T s.
Proof.
  intros strtod w T base lead s Hlead Hbase.
  rewrite !StringToInt_trims, !StringToIntBase_trims, !StringToBool_trims,
          !StringToFloat_trims by exact Hbase.
  rewrite drop_leading_whitespace_all by exact Hlead.
  repeat split.
Qed.

Lemma leading_whitespace_is_ignored_witness :
  let strtod := fun _ : span => (S754_zero false, 0%nat) in
  StringToInt Int32 (bytes "  " ++ bytes "1f") = StringToInt Int32 (bytes "1f") /\
  StringToIntBase Int32 (bytes "  " ++ bytes "1f") 16 = StringToIntBase Int32 (bytes "1f") 16 /\
  StringToBool (bytes "  " ++ bytes "1f") = StringToBool (bytes "1f") /\
  StringToFloat strtod Float64 (bytes "  " ++ bytes "1f") =
    StringToFloat strtod Float64 (bytes "1f").
Proof.
  apply (leading_whitespace_is_ignored (fun _ => (S754_zero false, 0%nat)) Int32 Float64 16
           (bytes "  ") (bytes "1f")); [reflexivity | lia].
Defined.

(** ** Whitespace primitives *)

(** X18: [SkipLeadingWhitespace] returns the index of the first character
    that is not whitespace, the length when there is none; every character
    before that index is whitespace, and [IsAllWhitespace] holds exactly when
    the index is the length. *)
Theorem SkipLeadingWhitespace_spec : forall s : span,
  let n := SkipLeadingWhitespace s in
  (n <= length s)%nat /\
  IsAllWhitespace (firstn n s) = true /\
  match nth_error s n with
  | Some c => IsWhitespace c = false
  | None => n = length s
  end /\
  (IsAllWhitespace s = true <-> n = length s).
Proof.
  induction s as [|c s IH]; cbv zeta.
  - repeat split; reflexivity.
  - cbv zeta in IH. destruct IH as (H1 & H2 & H3 & H4).
    cbn [SkipLeadingWhitespace IsAllWhitespace].
    destruct (IsWhitespace c) eqn:Ec; cbn [negb].
    + cbn [length firstn nth_error IsAllWhitespace]. rewrite Ec. cbn [negb].
      repeat split; try assumption; try lia.
      * destruct (nth_error s (SkipLeadingWhitespace s)); [exact H3 | f_equal; exact H3].
      * intros H. f_equal. apply H4. exact H.
      * intros H. apply H4. injection H as H. exact H.
    + cbn [length firstn nth_error IsAllWhitespace].
      repeat split; try lia; try assumption; try discriminate.
Qed.

(** ** Integer parser: what follows the digits *)

(** X19: after a sign or digits that have not overflowed, a character that
    is not a digit is a [PARSE_FAILURE] with zero, unless it starts a run of
    whitespace that reaches the end of the input. *)
Theorem parse_int_rejects_trailing_characters :
  forall (w : IntWidth) (lead sign ds tail : span) (c : ascii),
    IsAllWhitespace lead = true ->
    is_sign_prefix sign ->
    forallb is_digit ds = true -> sign ++ ds <> [] ->
    digits_value ds <= max_val_of w (sign_is_minus sign) ->
    is_digit c = false -> IsAllWhitespace (c :: tail) = false ->
    StringToInt w (lead ++ sign ++ ds ++ c :: tail) = (0, PARSE_FAILURE).
Proof.
  intros w lead sign ds tail c Hlead Hsign Hds Hne Hfit Hc Hws.
  rewrite StringToInt_trims, drop_leading_whitespace_all by exact Hlead.
  assert (match sign, ds ++ c :: tail with
          | [], a :: _ => IsWhitespace a = false /\ sign_len a = 0%nat /\ is_minus a = false
          | _, _ => True
          end) as Hhead.
  { destruct sign; [|exact I]. destruct ds as [|a ds]; [contradiction Hne; reflexivity|].
    cbn in Hds. apply andb_true_iff in Hds as [Ha _].
    destruct (digit_plain a Ha) as (Hl & Hm & Hw). cbn [app]. repeat split; assumption. }
  rewrite (sign_prefix_no_whitespace sign (ds ++ c :: tail) Hsign)
    by (destruct sign; [destruct (ds ++ c :: tail); [exact I | apply Hhead] | exact I]).
  rewrite checked_path_eq.
  rewrite (checked_shape w sign (ds ++ c :: tail) Hsign)
    by (destruct sign; [destruct (ds ++ c :: tail) eqn:E;
                          [destruct ds; discriminate | split; apply Hhead] | exact I]).
  pose proof (max_val_of_bounds w (sign_is_minus sign)) as [[Hlo _] _].
  rewrite Int_loop_digits by (try exact Hds; lia).
  fold (digits_value ds).
  replace (digits_value ds <=? max_val_of w (sign_is_minus sign)) with true
    by (symmetry; apply Z.leb_le; exact Hfit).
  cbn [Int_loop]. rewrite Hc, Hws. cbn [negb]. rewrite orb_true_r. reflexivity.
Qed.

Lemma parse_int_rejects_trailing_characters_witness :
  StringToInt Int32 (bytes " 12 x") = (0, PARSE_FAILURE) /\
  StringToInt Int32 (bytes "+x") = (0, PARSE_FAILURE).
Proof.
  split.
  - apply (parse_int_rejects_trailing_characters Int32 (bytes " ") [] (bytes "12")
             (bytes "x") " "%char);
      [reflexivity | left; reflexivity | reflexivity | discriminate
      | vm_compute; discriminate | reflexivity | reflexivity].
  - apply (parse_int_rejects_trailing_characters Int32 [] (bytes "+") [] [] "x"%char);
      [reflexivity | right; left; reflexivity | reflexivity | discriminate
      | vm_compute; discriminate | reflexivity | reflexivity].
Defined.

(** ** Decimal parser: a well-formed literal never fails *)

Lemma skip_zeros_plain : forall body,
  forallb digit_or_dot body = true ->
  exists n body',
    skip_zeros body = (n, body') /\
    forallb digit_or_dot body' = true /\ dots body' <= dots body /\
    0 <= n /\ (n = 0 -> body' = body).
Proof.
  induction body as [|a body IH]; intros Hb.
  - exists 0, []. repeat split; lia.
  - cbn in Hb. apply andb_true_iff in Hb as [Ha Hb].
    cbn [skip_zeros]. destruct (is_char a 48) eqn:Ea.
    + destruct (IH Hb) as (n & body' & E & Hb' & Hd & Hn & _).
      rewrite E. exists (n + 1), body'. repeat split; try assumption; try lia.
      rewrite dots_cons. destruct (is_char a 46); lia.
    + exists 0, (a :: body). repeat split; try lia.
      cbn. rewrite Ha, Hb. reflexivity.
Qed.

Lemma decimal_loop_plain : forall T p round body st,
  forallb digit_or_dot body = true ->
  (found_dot st = 0 \/ found_dot st = 1) ->
  dots body + found_dot st <= 1 ->
  exists st',
    decimal_loop T p round body st = inl st' /\
    (match body with
     | [] => st' = st
     | _ :: _ => found_value st' = true \/ found_dot st' = 1
     end).
Proof.
  intros T p round.
  induction body as [|a body IH]; intros st Hb Hfd Hdots.
  - exists st. split; reflexivity.
  - cbn in Hb. apply andb_true_iff in Hb as [Ha Hb].
    rewrite dots_cons in Hdots. pose proof (dots_nonneg body) as Hnn.
    cbn [decimal_loop].
    destruct (is_digit a) eqn:Ed.
    + destruct (IH (accumulate_digit T p round st a) Hb) as (st' & E & Hst').
      { cbn. exact Hfd. }
      { cbn. destruct (is_char a 46); lia. }
      exists st'. split; [exact E|].
      destruct body; [subst st'; left; reflexivity | exact Hst'].
    + unfold digit_or_dot in Ha. rewrite Ed in Ha. cbn in Ha. rewrite Ha in *.
      assert (found_dot st = 0) as Hz by lia.
      rewrite Hz. cbn [Z.eqb andb].
      destruct (IH (mkScan (found_value st) 1 (digits_after_dot_count st)
                      (total_digits_count st) (found_exponent st) (exponent st)
                      (first_truncated_digit st) (value st)) Hb) as (st' & E & Hst').
      { right. reflexivity. }
      { cbn. lia. }
      exists st'. split; [exact E|].
      destruct body; [subst st'; right; reflexivity | exact Hst'].
Qed.

Lemma decimal_classify_not_failure :
  forall T p sc round st truncated value0 precision scale,
    found_value st = true \/ found_dot st = 1 ->
    snd (decimal_classify T p sc round st truncated value0 precision scale)
    <> PARSE_FAILURE.
Proof.
  intros T p sc round st truncated value0 precision scale Hst.
  unfold decimal_classify.
  destruct (precision - scale >? p - sc); [discriminate|].
  destruct (scale >? sc).
  - destruct (_ >? 0); [discriminate|]. destruct (_ =? _); discriminate.
  - assert (negb (found_value st) && (found_dot st =? 0) = false) as ->.
    { destruct Hst as [-> | ->]; [reflexivity | apply andb_false_r]. }
    destruct (sc >? scale); discriminate.
Qed.

(** X20: digits with at most one point, at least one character of either,
    with an optional sign and surrounding whitespace, are never a
    [PARSE_FAILURE] of [StringToDecimal]. *)
Theorem parse_decimal_accepts_plain_literals :
  forall (T : DecWidth) (lead sign body trail : span) (p sc : Z) (round : bool),
    IsAllWhitespace lead = true -> is_sign_prefix sign ->
    forallb digit_or_dot body = true -> dots body <= 1 -> body <> [] ->
    IsAllWhitespace trail = true ->
    snd (StringToDecimal T (lead ++ sign ++ body ++ trail) p sc round) <> PARSE_FAILURE.
Proof.
  intros T lead sign body trail p sc round Hlead Hsign Hb Hdots Hne Htrail.
  replace (lead ++ sign ++ body ++ trail) with (lead ++ (sign ++ body) ++ trail)
    by (rewrite <- app_assoc; reflexivity).
  rewrite StringToDecimal_whitespace_around by assumption.
  destruct body as [|a body]; [contradiction|].
  pose proof Hb as Hb'. cbn in Hb'. apply andb_true_iff in Hb' as [Ha _].
  destruct (digit_or_dot_not_sign a Ha) as [Hm Hp].
  assert (forallb (fun c => negb (IsWhitespace c)) (sign ++ a :: body) = true) as Hnws.
  { rewrite forallb_app. apply andb_true_iff. split.
    - destruct Hsign as [-> | [-> | ->]]; reflexivity.
    - clear - Hb. induction (a :: body) as [|x l IH]; [reflexivity|].
      cbn in *. apply andb_true_iff in Hb as [Hx Hl].
      rewrite (digit_or_dot_not_whitespace x Hx), (IH Hl). reflexivity. }
  unfold StringToDecimal, decimal_scan.
  rewrite trim_none by exact Hnws.
  assert (exists neg, decimal_sign (sign ++ a :: body) = (neg, a :: body)) as [neg ->].
  { destruct Hsign as [-> | [-> | ->]].
    - exists false. cbn. rewrite Hm, Hp. reflexivity.
    - exists false. reflexivity.
    - exists true. reflexivity. }
  unfold decimal_prefix.
  destruct (skip_zeros_plain (a :: body) Hb) as (n & body1 & E1 & Hb1 & Hd1 & Hn & Hsame).
  rewrite E1.
  assert (forall st0 s3,
            (0 <? n) = true \/ body1 <> [] ->
            (st0, s3) = (mkScan (0 <? n) 0 0 0 false 0 0 0, body1) ->
            exists st, decimal_loop T p round s3 st0 = inl st /\
                       (found_value st = true \/ found_dot st = 1)) as Hnodot.
  { intros st0 s3 Hsome E. injection E as -> ->.
    destruct (decimal_loop_plain T p round body1 (mkScan (0 <? n) 0 0 0 false 0 0 0) Hb1)
      as (st & Eloop & Hst); [left; reflexivity | cbn; lia |].
    exists st. split; [exact Eloop|].
    destruct body1; [subst st; cbn; destruct Hsome as [-> | H];
                     [left; reflexivity | contradiction H; reflexivity] | exact Hst]. }
  assert ((0 <? n) = true \/ body1 <> []) as Hsome.
  { destruct (Z.ltb_spec 0 n); [left; reflexivity|].
    right. rewrite Hsame by lia. discriminate. }
  assert (exists st,
            (let '(st0, s3) :=
               match body1 with
               | c :: rest =>
                   if is_char c 46 then
                     let '(zeros_after_dot, s2) := skip_zeros rest in
                     (mkScan ((0 <? n) || (0 <? zeros_after_dot)) 1 zeros_after_dot
                             0 false 0 0 0, s2)
                   else (mkScan (0 <? n) 0 0 0 false 0 0 0, body1)
               | [] => (mkScan (0 <? n) 0 0 0 false 0 0 0, body1)
               end in
             decimal_loop T p round s3 st0) = inl st /\
            (found_value st = true \/ found_dot st = 1)) as (st & Eloop & Hst).
  { destruct body1 as [|c rest] eqn:Ebody1.
    - apply (Hnodot _ _ Hsome eq_refl).
    - destruct (is_char c 46) eqn:Ec.
      + cbn in Hb1. apply andb_true_iff in Hb1 as [_ Hrest].
        rewrite dots_cons, Ec in Hd1.
        destruct (skip_zeros_plain rest Hrest) as (m & body2 & E2 & Hb2 & Hd2 & Hm2 & _).
        rewrite E2.
        destruct (decimal_loop_plain T p round body2
                    (mkScan ((0 <? n) || (0 <? m)) 1 m 0 false 0 0 0) Hb2)
          as (st & Eloop & Hst); [right; reflexivity | cbn; lia |].
        exists st. split; [exact Eloop|].
        destruct body2; [subst st; right; reflexivity | exact Hst].
      + apply (Hnodot _ _ Hsome eq_refl). }
  destruct (match body1 with
            | [] => _
            | c :: rest => _
            end) as [st0 s3].
  rewrite Eloop.
  unfold decimal_finish.
  destruct (ApplyExponent _ _ _ _ _) as [[value0 precision] scale].
  pose proof (decimal_classify_not_failure T p sc round st
                (Z.max (total_digits_count st - p) 0) value0 precision scale Hst) as H.
  destruct (decimal_classify _ _ _ _ _ _ _ _ _) as [value1 result].
  exact H.
Qed.

Lemma parse_decimal_accepts_plain_literals_witness :
  StringToDecimal Dec64 (bytes " -.5 ") 6 2 true = (-50, PARSE_SUCCESS) /\
  snd (StringToDecimal Dec64 (bytes " -.5 ") 6 2 true) <> PARSE_FAILURE.
Proof.
  split; [reflexivity|].
  apply (parse_decimal_accepts_plain_literals Dec64 (bytes " ") (bytes "-") (bytes ".5")
           (bytes " ") 6 2 true);
    [reflexivity | right; right; reflexivity | reflexivity | vm_compute; discriminate
    | discriminate | reflexivity].
Defined.

(** ** Floating-point parser: plain literals *)

Lemma Float_loop_no_exponent : forall s at_first st st' remaining,
  forallb (fun c => negb (is_exponent_marker c)) s = true ->
  Float_loop at_first s st = inl (st', remaining) ->
  at_exponent_marker remaining = false.
Proof.
  induction s as [|c s IH]; intros at_first st st' remaining Hs H.
  - cbn in H. injection H as _ <-. reflexivity.
  - cbn [forallb] in Hs. apply andb_true_iff in Hs as [Hc Hs].
    apply negb_true_iff in Hc. unfold is_exponent_marker in Hc.
    cbn [Float_loop] in H.
    destruct (is_digit c).
    + destruct (decimal st); [destruct (_ <=? 18)|]; eapply IH; eassumption.
    + destruct (negb (decimal st) && is_char c 46); [eapply IH; eassumption|].
      rewrite Hc in H.
      destruct (at_first || negb (IsAllWhitespace (c :: s))); [discriminate|].
      injection H as _ <-. cbn. exact Hc.
Qed.

Lemma no_exponent_drop : forall s,
  forallb (fun c => negb (is_exponent_marker c)) s = true ->
  forallb (fun c => negb (is_exponent_marker c)) (drop_leading_whitespace s) = true.
Proof.
  induction s as [|c s IH]; intros H; [reflexivity|].
  cbn [drop_leading_whitespace]. destruct (IsWhitespace c); [|exact H].
  cbn in H. apply andb_true_iff in H as [_ H]. exact (IH H).
Qed.

Lemma StringToFloatInternal_no_exponent : forall strtod1 strtod2 T s,
  forallb (fun c => negb (is_exponent_marker c)) s = true ->
  StringToFloatInternal strtod1 T s = StringToFloatInternal strtod2 T s.
Proof.
  intros strtod1 strtod2 T s Hs.
  destruct s as [|c s]; [reflexivity|].
  unfold StringToFloatInternal.
  destruct (IsInfinity _); [reflexivity|].
  destruct (IsNaN _); [reflexivity|].
  destruct (Float_loop true (skipn (sign_len c) (c :: s)) _)
    as [[st remaining]|] eqn:E; [|reflexivity].
  assert (forallb (fun c => negb (is_exponent_marker c)) (skipn (sign_len c) (c :: s)) = true)
    as Hskip.
  { unfold sign_len. destruct (is_minus c || is_plus c); [|exact Hs].
    cbn in Hs. apply andb_true_iff in Hs as [_ Hs]. exact Hs. }
  rewrite (Float_loop_no_exponent _ _ _ _ _ Hskip E). reflexivity.
Qed.

(** X21: on an input without [e] or [E] the result of [StringToFloat] does
    not depend on [strtod]. *)
Theorem parse_float_plain_ignores_strtod :
  forall (strtod1 strtod2 : span -> spec_float * nat) (T : FloatWidth) (s : span),
    forallb (fun c => negb (is_exponent_marker c)) s = true ->
    StringToFloat strtod1 T s = StringToFloat strtod2 T s.
Proof.
  intros strtod1 strtod2 T s Hs.
  rewrite !StringToFloat_trims.
  apply StringToFloatInternal_no_exponent, no_exponent_drop, Hs.
Qed.

Lemma parse_float_plain_ignores_strtod_witness :
  StringToFloat (fun _ => (S754_zero false, 0%nat)) Float64 (bytes " 12.5") =
  StringToFloat (fun s => (S754_infinity false, length s)) Float64 (bytes " 12.5").
Proof.
  apply (parse_float_plain_ignores_strtod (fun _ => (S754_zero false, 0%nat))
           (fun s => (S754_infinity false, length s)) Float64 (bytes " 12.5")).
  reflexivity.
Defined.

Lemma Float_loop_plain : forall body trail at_first st,
  forallb digit_or_dot body = true ->
  dots body + b2z (decimal st) <= 1 ->
  IsAllWhitespace trail = true ->
  (at_first = true -> body <> []) ->
  exists st' remaining,
    Float_loop at_first (body ++ trail) st = inl (st', remaining) /\
    at_exponent_marker remaining = false.
Proof.
  induction body as [|c body IH]; intros trail at_first st Hb Hd Htrail Hfirst.
  - destruct at_first; [exfalso; apply Hfirst; reflexivity|].
    cbn [app]. destruct trail as [|c trail].
    + exists st, []. split; reflexivity.
    + pose proof Htrail as Hc. cbn in Hc.
      destruct (IsWhitespace c) eqn:Ec; [|discriminate].
      destruct (whitespace_not_dot_or_exponent c Ec) as (Hdot & He1 & He2).
      cbn [Float_loop]. rewrite (whitespace_is_not_digit c Ec), Hdot, He1, He2, Htrail.
      rewrite andb_false_r. cbn [orb negb].
      exists st, (c :: trail). split; [reflexivity|]. cbn. rewrite He1, He2. reflexivity.
  - cbn [forallb] in Hb. apply andb_true_iff in Hb as [Hc Hb].
    rewrite dots_cons in Hd. pose proof (dots_nonneg body) as Hnn.
    cbn [app Float_loop]. destruct (is_digit c) eqn:Edig.
    + destruct (decimal st) eqn:Edec; rewrite ?Edec in Hd.
      * destruct (_ <=? 18); apply IH; try assumption; try discriminate;
          cbn [decimal b2z]; cbn [b2z] in Hd; destruct (is_char c 46); lia.
      * apply IH; try assumption; try discriminate.
        cbn [decimal b2z]. cbn [b2z] in Hd. destruct (is_char c 46); lia.
    + unfold digit_or_dot in Hc. rewrite Edig in Hc. cbn [orb] in Hc. rewrite Hc in *.
      destruct (decimal st) eqn:Edec; [cbn [b2z] in Hd; lia|].
      cbn [b2z] in Hd.
      cbn [negb andb]. apply IH; try assumption; try discriminate.
      cbn [decimal b2z]. lia.
Qed.

(** X22: digits with at most one point, at least one character of either,
    with an optional sign and surrounding whitespace, are never a
    [PARSE_FAILURE] of [StringToFloat]. *)
Theorem parse_float_accepts_plain_literals :
  forall (strtod : span -> spec_float * nat) (T : FloatWidth)
         (lead sign body trail : span),
    IsAllWhitespace lead = true -> is_sign_prefix sign ->
    forallb digit_or_dot body = true -> dots body <= 1 -> body <> [] ->
    IsAllWhitespace trail = true ->
    snd (StringToFloat strtod T (lead ++ sign ++ body ++ trail)) <> PARSE_FAILURE.
Proof.
  intros strtod T lead sign body trail Hlead Hsign Hb Hdots Hne Htrail.
  destruct body as [|a body]; [contradiction|].
  pose proof Hb as Hb'. cbn in Hb'. apply andb_true_iff in Hb' as [Ha _].
  destruct (digit_or_dot_not_sign a Ha) as [Hm Hp].
  pose proof (digit_or_dot_not_whitespace a Ha) as Hw.
  rewrite StringToFloat_trims, drop_leading_whitespace_all by exact Hlead.
  rewrite (sign_prefix_no_whitespace sign ((a :: body) ++ trail) Hsign)
    by (destruct sign; [exact Hw | exact I]).
  destruct (Float_loop_plain (a :: body) trail true
              (mkFloatScan (S754_zero false) (double_of_Z 1) false 0 0) Hb)
    as (st & remaining & Eloop & Hrem);
    [cbn [decimal b2z]; lia | exact Htrail | discriminate |].
  assert (forall negative : bool,
            snd (if IsInfinity ((a :: body) ++ trail) then
                   (castF T (if negative then SFopp infinity else infinity), PARSE_SUCCESS)
                 else if IsNaN ((a :: body) ++ trail) then
                   (castF T (if negative then SFopp quiet_NaN else quiet_NaN), PARSE_SUCCESS)
                 else
                   match Float_loop true ((a :: body) ++ trail)
                           (mkFloatScan (S754_zero false) (double_of_Z 1) false 0 0) with
                   | inr _ => (S754_zero false, PARSE_FAILURE)
                   | inl (st, remaining) =>
                       let val1 :=
                         double_add (val st)
                           (double_div (double_of_Z (remainder st)) (divide st)) in
                       let finish (v : spec_float) :=
                         (castF T (if negative then SFopp v else v),
                          if equals_infinity T v then PARSE_OVERFLOW else PARSE_SUCCESS) in
                       if at_exponent_marker remaining then
                         let c_str :=
                           skipn (if negative then 1%nat else 0%nat) (sign ++ (a :: body) ++ trail) in
                         let '(val2, consumed) := strtod c_str in
                         if negb (Nat.eqb consumed (length c_str))
                            && negb (IsAllWhitespace (skipn consumed c_str))
                         then (castF T val2, PARSE_FAILURE)
                         else finish val2
                       else finish val1
                   end) <> PARSE_FAILURE) as Hbody.
  { intros negative.
    destruct (IsInfinity _); [discriminate|].
    destruct (IsNaN _); [discriminate|].
    rewrite Eloop, Hrem. cbv zeta. cbn [snd].
    destruct (equals_infinity T _); discriminate. }
  destruct Hsign as [-> | [-> | ->]].
  - unfold StringToFloatInternal. cbn [app] in *. unfold sign_len. rewrite Hm, Hp.
    cbn [orb skipn]. exact (Hbody false).
  - exact (Hbody false).
  - exact (Hbody true).
Qed.

Lemma parse_float_accepts_plain_literals_witness :
  snd (StringToFloat (fun _ => (S754_zero false, 0%nat)) Float32 (bytes " +1.5 "))
  <> PARSE_FAILURE.
Proof.
  apply (parse_float_accepts_plain_literals (fun _ => (S754_zero false, 0%nat)) Float32
           (bytes " ") (bytes "+") (bytes "1.5") (bytes " "));
    [reflexivity | right; left; reflexivity | reflexivity | vm_compute; discriminate
    | discriminate | reflexivity].
Defined.

(** ** Integer parser in a given base: letter case *)

Lemma code_inj : forall c1 c2, code c1 = code c2 -> c1 = c2.
Proof.
  unfold code. intros c1 c2 H. apply N2Z.inj in H.
  rewrite <- (ascii_N_embedding c1), <- (ascii_N_embedding c2), H. reflexivity.
Qed.

Lemma upper_lower_pair : forall c1 c2,
  65 <= code c1 <= 90 -> code c2 = code c1 + 32 ->
  digit_value c1 = digit_value c2 /\ IsWhitespace c1 = false /\ IsWhitespace c2 = false /\
  is_minus c1 = false /\ is_minus c2 = false /\ is_plus c1 = false /\ is_plus c2 = false.
Proof.
  intros c1 c2 H1 H2.
  unfold digit_value, IsWhitespace, is_minus, is_plus, is_digit, is_lower, is_upper, is_char.
  rewrite H2.
  repeat match goal with
         | |- context [?a <=? ?b] => destruct (Z.leb_spec a b); try lia
         | |- context [?a =? ?b] => destruct (Z.eqb_spec a b); try lia
         end.
  cbn. repeat split. f_equal. lia.
Qed.

Lemma same_letter : forall c1 c2,
  to_lower c1 = to_lower c2 ->
  digit_value c1 = digit_value c2 /\ IsWhitespace c1 = IsWhitespace c2 /\
  is_minus c1 = is_minus c2 /\ is_plus c1 = is_plus c2.
Proof.
  intros c1 c2 H. unfold to_lower, is_upper in H.
  destruct ((65 <=? code c1) && (code c1 <=? 90)) eqn:E1;
    destruct ((65 <=? code c2) && (code c2 <=? 90)) eqn:E2; bool_to_prop.
  - assert (c1 = c2) as -> by (apply code_inj; lia). repeat split.
  - destruct (upper_lower_pair c1 c2) as (-> & -> & -> & -> & -> & -> & ->);
      [lia | lia | repeat split].
  - destruct (upper_lower_pair c2 c1) as (-> & -> & -> & -> & -> & -> & ->);
      [lia | lia | repeat split].
  - assert (c1 = c2) as -> by (apply code_inj; lia). repeat split.
Qed.

Lemma IsAllWhitespace_same_letters : forall s1 s2,
  map to_lower s1 = map to_lower s2 -> IsAllWhitespace s1 = IsAllWhitespace s2.
Proof.
  induction s1 as [|c1 s1 IH]; intros [|c2 s2] H; try discriminate; [reflexivity|].
  injection H as Hc Hs. destruct (same_letter c1 c2 Hc) as (_ & Hw & _).
  cbn. rewrite Hw, (IH s2 Hs). reflexivity.
Qed.

Lemma SkipLeadingWhitespace_same_letters : forall s1 s2,
  map to_lower s1 = map to_lower s2 -> SkipLeadingWhitespace s1 = SkipLeadingWhitespace s2.
Proof.
  induction s1 as [|c1 s1 IH]; intros [|c2 s2] H; try discriminate; [reflexivity|].
  injection H as Hc Hs. destruct (same_letter c1 c2 Hc) as (_ & Hw & _).
  cbn. rewrite Hw, (IH s2 Hs). reflexivity.
Qed.

Lemma skipn_same_letters : forall n s1 s2,
  map to_lower s1 = map to_lower s2 ->
  map to_lower (skipn n s1) = map to_lower (skipn n s2).
Proof.
  intros n s1 s2 H. rewrite <- !skipn_map, H. reflexivity.
Qed.

Lemma Base_loop_same_letters : forall w base negative M q r s1 s2 at_first val,
  map to_lower s1 = map to_lower s2 ->
  Base_loop w base negative M q r at_first val s1 =
  Base_loop w base negative M q r at_first val s2.
Proof.
  intros w base negative M q r.
  induction s1 as [|c1 s1 IH]; intros [|c2 s2] at_first val H; try discriminate;
    [reflexivity|].
  pose proof (IsAllWhitespace_same_letters _ _ H) as Hws.
  injection H as Hc Hs. destruct (same_letter c1 c2 Hc) as (Hd & _).
  cbn [Base_loop]. rewrite Hd, Hws.
  destruct (digit_value c2) as [digit|]; [|reflexivity].
  destruct (digit >=? base); [reflexivity|].
  destruct (exceeds _ _ _); [reflexivity|].
  apply IH, Hs.
Qed.

Lemma StringToIntInternalBase_same_letters : forall w s1 s2 base,
  map to_lower s1 = map to_lower s2 ->
  StringToIntInternalBase w s1 base = StringToIntInternalBase w s2 base.
Proof.
  intros w [|c1 s1] [|c2 s2] base H; try discriminate; [reflexivity|].
  pose proof H as H'. injection H' as Hc Hs.
  destruct (same_letter c1 c2 Hc) as (_ & _ & Hm & Hp).
  unfold StringToIntInternalBase, sign_len. rewrite Hm, Hp.
  destruct (converted_base w base =? 0); [reflexivity|].
  f_equal. apply Base_loop_same_letters, skipn_same_letters, H.
Qed.

(** X23: two inputs that differ only in the case of their letters parse
    alike in every base. *)
Theorem parse_int_base_ignores_case :
  forall (w : IntWidth) (s1 s2 : span) (base : Z),
    map to_lower s1 = map to_lower s2 ->
    StringToIntBase w s1 base = StringToIntBase w s2 base.
Proof.
  intros w s1 s2 base H. unfold StringToIntBase.
  rewrite (StringToIntInternalBase_same_letters w s1 s2 base H).
  rewrite (SkipLeadingWhitespace_same_letters s1 s2 H).
  rewrite (StringToIntInternalBase_same_letters w _ _ base
             (skipn_same_letters (SkipLeadingWhitespace s2) s1 s2 H)).
  reflexivity.
Qed.

Lemma parse_int_base_ignores_case_witness :
  StringToIntBase Int32 (bytes "-fFz") 36 = StringToIntBase Int32 (bytes "-FfZ") 36.
Proof.
  apply (parse_int_base_ignores_case Int32 (bytes "-fFz") (bytes "-FfZ") 36). reflexivity.
Defined.

(** ** Decimal parser: the exponent moves the point *)

Lemma int_literal_plain : forall v,
  forallb (fun c => negb (IsWhitespace c)) (int_literal v) = true /\
  drop_leading_whitespace (int_literal v) = int_literal v.
Proof.
  intros v.
  destruct (natural_literal_digits (Z.abs v) ltac:(lia)) as [Hds Hne].
  assert (forallb (fun c => negb (IsWhitespace c)) (int_literal v) = true) as H.
  { unfold int_literal. rewrite forallb_app, (nonwhitespace_digits _ Hds).
    destruct (v <? 0); reflexivity. }
  split; [exact H|]. apply drop_leading_whitespace_none.
  destruct (int_literal v) as [|a l]; [exact I|].
  cbn [forallb] in H. apply andb_true_iff in H as [H _].
  apply negb_true_iff in H. exact H.
Qed.

Lemma StringToIntInternal_int8_literal : forall e,
  -128 <= e <= 127 -> StringToIntInternal Int8 (int_literal e) = (e, PARSE_SUCCESS).
Proof.
  intros e He.
  destruct (int_literal_plain e) as [_ Hdrop].
  rewrite <- Hdrop, <- StringToInt_trims, StringToInt_int_literal.
  change (numeric_min Int8) with (-128). change (numeric_max Int8) with 127.
  destruct (Z.ltb_spec e (-128)); [lia|].
  destruct (Z.ltb_spec 127 e); [lia | reflexivity].
Qed.

Lemma decimal_scan_exponent : forall T p round m e marker,
  0 < m < 10 ^ p -> 10 ^ p < 2 ^ (dbits T - 1) -> -128 <= e <= 127 ->
  is_exponent_marker marker = true ->
  exists st,
    decimal_scan T (digits m ++ marker :: int_literal e) p round = inl (false, st) /\
    exponent st = e /\ digits_after_dot_count st = 0 /\ value st = m /\
    found_value st = true /\ total_digits_count st = Z.of_nat (length (digits m)).
Proof.
  intros T p round m e marker Hm Hfit He Hmarker.
  destruct (exponent_marker_plain marker Hmarker) as (Hmw & Hmm & Hmp & Hmd & Hmdot & _).
  destruct (digits_spec m ltac:(lia)) as (c & ds & Edig & Hds & Hc0 & Hval & Hlen).
  assert (0 <= p) as Hp.
  { destruct (Z.le_gt_cases 0 p) as [|Hneg]; [assumption|].
    rewrite (Z.pow_neg_r 10 p Hneg) in Hm. lia. }
  pose proof (digits_length_le m p ltac:(lia) Hp) as HL.
  rewrite Edig in *.
  pose proof Hds as Hds'. cbn [forallb] in Hds'. apply andb_true_iff in Hds' as [Hc _].
  destruct (int_literal_plain e) as [Hlit _].
  assert (is_minus c = false /\ is_plus c = false) as [Hcm Hcp].
  { apply digit_or_dot_not_sign. unfold digit_or_dot. rewrite Hc. reflexivity. }
  set (st0 := mkScan false 0 0 0 false 0 0 0).
  destruct (after_digits T p round (c :: ds) st0 Hds) as (Htot & Hdad & Hfd & Hexp & Hfv & Hv).
  { change (total_digits_count st0) with 0. lia. }
  { apply castT_zero. }
  pose proof (fold_digits_counts T p round (c :: ds) st0) as Hcounts.
  cbv zeta in Hcounts. destruct Hcounts as (_ & _ & _ & Hfe & _).
  change (total_digits_count st0) with 0 in Htot.
  change (digits_after_dot_count st0) with 0 in Hdad.
  change (found_dot st0) with 0 in Hdad, Hfd.
  change (found_exponent st0) with false in Hfe.
  change (value st0) with 0 in Hv.
  rewrite Hval, Z.mul_0_l, Z.add_0_l, castT_id in Hv by lia.
  set (st1 := fold_left (accumulate_digit T p round) (c :: ds) st0) in *.
  exists (mkScan (found_value st1) (found_dot st1) (digits_after_dot_count st1)
                 (total_digits_count st1) true e (first_truncated_digit st1) (value st1)).
  split.
  { unfold decimal_scan. rewrite trim_none.
    - cbn [app]. unfold decimal_sign. rewrite Hcm, Hcp.
      rewrite (decimal_prefix_nonzero_digit c _ Hc Hc0).
      change (c :: ds ++ marker :: int_literal e)
        with ((c :: ds) ++ marker :: int_literal e).
      rewrite decimal_loop_digits by exact Hds.
      fold st0. fold st1.
      cbn [decimal_loop]. rewrite Hmd, Hmdot. cbn [andb].
      unfold is_exponent_marker in Hmarker. rewrite Hmarker, Hfe. cbn [negb andb].
      rewrite (StringToIntInternal_int8_literal e He). reflexivity.
    - rewrite forallb_app, (nonwhitespace_digits _ Hds). cbn [forallb andb].
      rewrite Hmw, Hlit. reflexivity. }
  cbn. repeat split; try assumption; lia.
Qed.

(** X24: the digits of a positive integer [m] followed by an exponent [e]
    that the type's scale absorbs parse to [m * 10^(type_scale + e)] with
    [PARSE_SUCCESS], when that value fits the precision. *)
Theorem parse_decimal_exponent_shifts_point :
  forall (T : DecWidth) (p sc : Z) (round : bool) (m e : Z) (marker : ascii),
    is_exponent_marker marker = true ->
    -128 <= e <= 127 -> 0 <= sc <= p -> - sc <= e ->
    10 ^ p < 2 ^ (dbits T - 1) ->
    0 < m < 10 ^ (p - sc - e) ->
    StringToDecimal T (digits m ++ marker :: int_literal e) p sc round
    = (m * 10 ^ (sc + e), PARSE_SUCCESS).
Proof.
  intros T p sc round m e marker Hmarker He Hsc Hse Hfit Hm.
  assert (0 <= p - sc - e) as Hk.
  { destruct (Z.le_gt_cases 0 (p - sc - e)) as [|Hneg]; [assumption|].
    rewrite (Z.pow_neg_r 10 _ Hneg) in Hm. lia. }
  pose proof (pow10_le (p - sc - e) p ltac:(lia)) as Hle.
  destruct (decimal_scan_exponent T p round m e marker ltac:(lia) Hfit He Hmarker)
    as (st & Hscan & Hexp & Hdad & Hval & Hfv & Htot).
  pose proof (digits_length_le m (p - sc - e) ltac:(lia) Hk) as HL.
  assert (0 < Z.of_nat (length (digits m))) as HLpos.
  { destruct (digits_spec m ltac:(lia)) as (c & ds & -> & _). cbn [length]. lia. }
  pose proof (mul_pow10_bound m (p - sc - e) (sc + e) p
                ltac:(lia) ltac:(lia) ltac:(lia) ltac:(lia)) as Hbound.
  assert (castT T (m * 10 ^ (sc + e)) = m * 10 ^ (sc + e)) as Hid
    by (apply castT_id; lia).
  unfold StringToDecimal. rewrite Hscan.
  unfold decimal_finish, ApplyExponent.
  rewrite Hexp, Hdad, Hval, Htot.
  set (L := Z.of_nat (length (digits m))) in *.
  destruct (Z.ltb_spec 0 e) as [Hpos | Hnonpos].
  - replace (e >? 0) with true by (symmetry; rewrite Z.gtb_ltb; apply Z.ltb_lt; lia).
    rewrite !Z.sub_0_r. unfold decimal_classify. rewrite Z.sub_0_r.
    replace (L + e >? p - sc) with false
      by (symmetry; rewrite Z.gtb_ltb; apply Z.ltb_ge; lia).
    replace (0 >? sc) with false
      by (symmetry; rewrite Z.gtb_ltb; apply Z.ltb_ge; lia).
    rewrite Hfv. cbn [negb andb].
    unfold GetScaleMultiplier.
    assert (10 ^ (sc + e) = 10 ^ e * 10 ^ sc) as Esplit
      by (rewrite Z.add_comm; apply pow10_add; lia).
    assert (castT T (10 ^ e) = 10 ^ e) as He10.
    { apply castT_id. pose proof (pow10_le e p ltac:(lia)).
      pose proof (pow10_pos e ltac:(lia)). lia. }
    assert (castT T (10 ^ sc) = 10 ^ sc) as Hsc10.
    { apply castT_id. pose proof (pow10_le sc p ltac:(lia)).
      pose proof (pow10_pos sc ltac:(lia)). lia. }
    assert (castT T (m * 10 ^ e) = m * 10 ^ e) as Hme.
    { apply castT_id.
      pose proof (mul_pow10_bound m (p - sc - e) e p
                    ltac:(lia) ltac:(lia) ltac:(lia) ltac:(lia)). lia. }
    rewrite He10, Hme.
    destruct (sc >? 0) eqn:E; bool_to_prop.
    + rewrite Z.sub_0_r, Hsc10, <- Z.mul_assoc, <- Esplit, Hid, Hid. reflexivity.
    + assert (sc = 0) as -> by lia. rewrite Z.add_0_l in *.
      rewrite Hme. reflexivity.
  - replace (e >? 0) with false by (symmetry; rewrite Z.gtb_ltb; apply Z.ltb_ge; lia).
    cbv zeta. unfold decimal_classify.
    replace ((if L <? 0 - e then 0 - e else L) - (0 - e) >? p - sc) with false
      by (symmetry; rewrite Z.gtb_ltb; apply Z.ltb_ge; destruct (L <? 0 - e); lia).
    replace (0 - e >? sc) with false
      by (symmetry; rewrite Z.gtb_ltb; apply Z.ltb_ge; lia).
    rewrite Hfv. cbn [negb andb].
    replace (sc - (0 - e)) with (sc + e) by lia.
    destruct (sc >? 0 - e) eqn:E; bool_to_prop.
    + unfold GetScaleMultiplier.
      rewrite (Z.mul_comm m), castT_mul_l, (Z.mul_comm _ m), Hid, Hid. reflexivity.
    + assert (sc + e = 0) as E0 by lia. rewrite E0 in *.
      change (10 ^ 0) with 1 in *. rewrite Z.mul_1_r in *. rewrite Hid. reflexivity.
Qed.

Lemma parse_decimal_exponent_shifts_point_witness :
  digits 125 ++ "E"%char :: int_literal (-1) = bytes "125E-1" /\
  StringToDecimal Dec64 (digits 125 ++ "E"%char :: int_literal (-1)) 6 2 true
  = (125 * 10 ^ (2 + -1), PARSE_SUCCESS).
Proof.
  split; [reflexivity|].
  apply (parse_decimal_exponent_shifts_point Dec64 6 2 true 125 (-1) "E"%char);
    [reflexivity | lia | lia | lia | reflexivity | split; reflexivity].
Defined.
